(** * cli-agent-openai-adapter: prompt construction, subprocess failure
      classification, output normalisation, adapter factory and HTTP mapping.

    The development is a shallow embedding of
      - src/adapters/claude_code.ts  (ClaudeCodeAdapter, TimeoutError)
      - src/adapters/gemini_cli.ts   (GeminiCLIAdapter, TimeoutError)
      - src/adapters/factory.ts      (AdapterFactory)
      - src/server.ts                (createServer, estimateTokens)
      - src/types.ts                 (Message, AdapterConfig, ...)
    together with the part of the JavaScript runtime these files lean on:
    UTF-16 strings, [String.prototype.trim], regular-expression replacement,
    [JSON.stringify] and [JSON.parse]. *)

From Stdlib Require Import List NArith ZArith Lia Bool String Ascii.
Import ListNotations.

Set Implicit Arguments.
Set Warnings "-register-all".

(* ================================================================== *)
(** * Part I. The JavaScript runtime the adapters rely on              *)
(* ================================================================== *)

Module JS.

(** ** Strings

    A JavaScript string is a finite sequence of UTF-16 code units.
    [length], indexing, regular expressions without the [u] flag and
    [trim] all work on code units, so a string is a [list N] here. *)

Definition jsstring := list N.

(** [lit] turns an ASCII literal of the development into a JS string. *)
Definition lit (s : string) : jsstring :=
  List.map N_of_ascii (list_ascii_of_string s).

Definition LF : N := 10.
Definition CR : N := 13.
Definition DQUOTE : N := 34.

Definition jsstring_eq_dec : forall a b : jsstring, {a = b} + {a <> b} :=
  list_eq_dec N.eq_dec.

Definition streq (a b : jsstring) : bool :=
  if jsstring_eq_dec a b then true else false.

(** Truthiness of a string: every string but the empty one. *)
Definition str_truthy (s : jsstring) : bool :=
  match s with [] => false | _ :: _ => true end.

(** [Array.prototype.join] on an array of strings. *)
Fixpoint join (sep : jsstring) (parts : list jsstring) : jsstring :=
  match parts with
  | [] => []
  | [p] => p
  | p :: rest => p ++ sep ++ join sep rest
  end.

(** [arr[i]] for an integer index: [undefined] out of range, also for -1. *)
Definition at_index {A} (arr : list A) (i : Z) : option A :=
  if (i <? 0)%Z then None else nth_error arr (Z.to_nat i).

(** [arr.slice(0, -1)]: the end index is [max (len - 1) 0]. *)
Definition slice_0_minus1 {A} (arr : list A) : list A :=
  firstn (Z.to_nat (Z.max (Z.of_nat (List.length arr) - 1) 0)) arr.

(** [Array.prototype.find]. *)
Fixpoint find {A} (p : A -> bool) (arr : list A) : option A :=
  match arr with
  | [] => None
  | x :: rest => if p x then Some x else find p rest
  end.

(** [s.includes(t)]: [t] occurs in [s] as a contiguous run of code units. *)
Fixpoint starts_with (t s : jsstring) : bool :=
  match t, s with
  | [], _ => true
  | _ :: _, [] => false
  | a :: t', b :: s' => if N.eqb a b then starts_with t' s' else false
  end.

Fixpoint includes (s t : jsstring) : bool :=
  if starts_with t s then true
  else match s with
       | [] => false
       | _ :: s' => includes s' t
       end.

(** ** Numbers

    A JavaScript number is an IEEE-754 binary64 value.  The values that a
    JSON document can denote are a signed zero, a finite non-zero
    [m * 2^e] with [0 < m < 2^53] and [-1074 <= e <= 971], and an infinity
    (a literal beyond the largest finite double rounds to [Infinity]).
    All arithmetic below is exact, on [Z]. *)

Inductive number : Type :=
| NZero (neg : bool)
| NFinite (neg : bool) (m : positive) (e : Z)
| NInfinity (neg : bool).

Definition number_truthy (x : number) : bool :=
  match x with NZero _ => false | _ => true end.

Local Open Scope Z_scope.

(** The fraction [p / (q * 2^e)] as a pair numerator, denominator. *)
Definition scale2 (p q e : Z) : Z * Z :=
  if 0 <=? e then (p, q * 2 ^ e) else (p * 2 ^ (- e), q).

(** The fraction [p * 10^t] as a pair numerator, denominator. *)
Definition scale10 (p t : Z) : Z * Z :=
  if 0 <=? t then (p * 10 ^ t, 1) else (p, 10 ^ (- t)).

Definition floor_log2_ratio (p q : Z) : Z :=
  let e0 := Z.log2 p - Z.log2 q in
  let '(n, d) := scale2 p q e0 in
  if d <=? n then e0 else e0 - 1.

Definition round_nearest_even (num den : Z) : Z :=
  let q := num / den in
  let r := num mod den in
  match 2 * r ?= den with
  | Lt => q
  | Gt => q + 1
  | Eq => if Z.even q then q else q + 1
  end.

(** Round the positive rational [p / q] to the nearest double, ties to
    even, with gradual underflow and overflow to infinity. *)
Definition round_double (neg : bool) (p q : Z) : number :=
  let fl := floor_log2_ratio p q in
  let e := Z.max (fl - 52) (-1074) in
  let '(n, d) := scale2 p q e in
  let m := round_nearest_even n d in
  let '(m1, e1) := if m =? 2 ^ 53 then (2 ^ 52, e + 1) else (m, e) in
  if m1 =? 0 then NZero neg
  else if 971 <? e1 then NInfinity neg
  else NFinite neg (Z.to_pos m1) e1.

(** The number denoted by the decimal literal [mant * 10^exp10]. *)
Definition number_of_decimal (neg : bool) (mant exp10 : Z) : number :=
  if mant =? 0 then NZero neg
  else let '(p, q) := scale10 mant exp10 in round_double neg p q.

Definition number_of_Z (z : Z) : number :=
  number_of_decimal (z <? 0) (Z.abs z) 0.

(** *** Number::toString, radix 10 *)

Fixpoint digits_fuel (fuel : nat) (n : Z) (acc : list N) : list N :=
  match fuel with
  | O => acc
  | S f =>
      let acc' := (48 + Z.to_N (n mod 10))%N :: acc in
      if n / 10 =? 0 then acc' else digits_fuel f (n / 10) acc'
  end.

(** Decimal digits of a natural number, most significant first. *)
Definition decimal (n : Z) : jsstring :=
  digits_fuel (S (Z.to_nat (Z.log2 n))) n [].

(** [n] with [10^(n-1) <= m * 2^e < 10^n]. *)
Definition lt_pow10 (m e n : Z) : bool :=
  let '(vn, vd) := scale2 m 1 (- e) in
  let '(tn, td) := scale10 1 n in
  vn * td <? tn * vd.

Definition decimal_exponent (m e : Z) : Z :=
  let n0 := ((Z.log2 m + e) * 30103) / 100000 in
  if lt_pow10 m e (n0 - 1) then n0 - 1
  else if lt_pow10 m e n0 then n0
  else if lt_pow10 m e (n0 + 1) then n0 + 1
  else n0 + 2.

(** Does the [k]-digit decimal [s * 10^(n-k)] read back as [m * 2^e]? *)
Definition reads_back (m : positive) (e s n k : Z) : bool :=
  let '(p, q) := scale10 s (n - k) in
  match round_double false p q with
  | NFinite _ m' e' => Pos.eqb m m' && (e =? e')
  | _ => false
  end.

(** The best [k]-digit candidate for [m * 2^e], if one reads back:
    of the two neighbours of [m * 2^e * 10^(k-n)] the closer one first. *)
Definition candidate (m : positive) (e n k : Z) : option Z :=
  let '(vn, vd) := scale2 (Z.pos m) 1 (- e) in
  let '(tn, td) := scale10 1 (k - n) in
  let num := vn * tn in
  let den := vd * td in
  let lo := num / den in
  let hi := lo + 1 in
  let near := round_nearest_even num den in
  let far := if near =? lo then hi else lo in
  if (0 <? near) && reads_back m e near n k then Some near
  else if (0 <? far) && reads_back m e far n k then Some far
  else None.

Fixpoint shortest_from (fuel : nat) (m : positive) (e n k : Z) : Z * Z :=
  match fuel with
  | O => (Z.pos m, k)
  | S f =>
      match candidate m e n k with
      | Some s => (s, k)
      | None => shortest_from f m e n (k + 1)
      end
  end.

Definition zeros (n : Z) : jsstring := repeat 48%N (Z.to_nat n).

(** The text of the positive double [m * 2^e] (Number::toString steps
    5 to 10 of ECMA-262, with [k] digits [s] and decimal exponent [n]). *)
Definition positive_to_string (m : positive) (e : Z) : jsstring :=
  let n0 := decimal_exponent (Z.pos m) e in
  let '(s0, k0) := shortest_from 17 m e n0 1 in
  let '(s, n) := if s0 =? 10 ^ k0 then (10 ^ (k0 - 1), n0 + 1) else (s0, n0) in
  let ds := decimal s in
  let k := Z.of_nat (List.length ds) in
  if (k <=? n) && (n <=? 21) then ds ++ zeros (n - k)
  else if (0 <? n) && (n <=? 21) then
    firstn (Z.to_nat n) ds ++ [46%N] ++ skipn (Z.to_nat n) ds
  else if (-6 <? n) && (n <=? 0) then
    [48%N; 46%N] ++ zeros (- n) ++ ds
  else
    let ex := (if 0 <=? n - 1 then [43%N] else [45%N]) ++ decimal (Z.abs (n - 1)) in
    match ds with
    | [d] => [d] ++ [101%N] ++ ex
    | d :: rest => [d] ++ [46%N] ++ rest ++ [101%N] ++ ex
    | [] => []
    end.

Definition Number_toString (x : number) : jsstring :=
  match x with
  | NZero _ => lit "0"
  | NInfinity neg => (if neg then lit "-" else []) ++ lit "Infinity"
  | NFinite neg m e => (if neg then lit "-" else []) ++ positive_to_string m e
  end.

Local Close Scope Z_scope.

(** ** JSON values

    The values [JSON.parse] can build.  An object keeps its own properties
    in enumeration order; [undefined] is not a JSON value, and a property
    read that finds nothing is [None]. *)

Inductive value : Type :=
| VNull
| VBool (b : bool)
| VNum (x : number)
| VStr (s : jsstring)
| VArr (elems : list value)
| VObj (props : list (jsstring * value)).

(** ToBoolean. *)
Definition truthy (v : value) : bool :=
  match v with
  | VNull => false
  | VBool b => b
  | VNum x => number_truthy x
  | VStr s => str_truthy s
  | VArr _ | VObj _ => true
  end.

Definition truthy_opt (o : option value) : bool :=
  match o with None => false | Some v => truthy v end.

Fixpoint lookup (key : jsstring) (props : list (jsstring * value)) : option value :=
  match props with
  | [] => None
  | (k, v) :: rest => if streq k key then Some v else lookup key rest
  end.

(** ** JSON.stringify *)

Definition hex_digit (n : N) : N :=
  if (n <? 10)%N then (48 + n)%N else (87 + n)%N.

(** The escape [\uXXXX] with lower-case hexadecimal digits. *)
Definition unicode_escape (c : N) : jsstring :=
  [92; 117;
   hex_digit ((c / 4096) mod 16); hex_digit ((c / 256) mod 16);
   hex_digit ((c / 16) mod 16); hex_digit (c mod 16)]%N.

Definition is_high_surrogate (c : N) : bool := (55296 <=? c)%N && (c <=? 56319)%N.
Definition is_low_surrogate (c : N) : bool := (56320 <=? c)%N && (c <=? 57343)%N.

(** One code unit that is not a surrogate, as QuoteJSONString writes it. *)
Definition quote_unit (c : N) : jsstring :=
  if (c =? 8)%N then lit "\b"
  else if (c =? 9)%N then lit "\t"
  else if (c =? 10)%N then lit "\n"
  else if (c =? 12)%N then lit "\f"
  else if (c =? 13)%N then lit "\r"
  else if (c =? 34)%N then [92; 34]%N
  else if (c =? 92)%N then [92; 92]%N
  else if (c <? 32)%N then unicode_escape c
  else [c].

(** A surrogate pair is copied, a lone surrogate is escaped. *)
Fixpoint quote_body (s : jsstring) : jsstring :=
  match s with
  | [] => []
  | c :: rest =>
      if is_high_surrogate c then
        match rest with
        | d :: rest' =>
            if is_low_surrogate d then c :: d :: quote_body rest'
            else unicode_escape c ++ quote_body rest
        | [] => unicode_escape c
        end
      else if is_low_surrogate c then unicode_escape c ++ quote_body rest
      else quote_unit c ++ quote_body rest
  end.

Definition QuoteJSONString (s : jsstring) : jsstring :=
  [DQUOTE] ++ quote_body s ++ [DQUOTE].

(** The closing steps of SerializeJSONArray and SerializeJSONObject. *)
Definition wrap_partial (open close gap stepback indent : jsstring)
  (partial : list jsstring) : jsstring :=
  match partial with
  | [] => open ++ close
  | _ :: _ =>
      if str_truthy gap then
        open ++ [LF] ++ indent ++ join ([44%N; LF] ++ indent) partial
             ++ [LF] ++ stepback ++ close
      else open ++ join [44%N] partial ++ close
  end.

Fixpoint SerializeJSONProperty (gap indent : jsstring) (v : value) : jsstring :=
  match v with
  | VNull => lit "null"
  | VBool b => if b then lit "true" else lit "false"
  | VNum x =>
      match x with
      | NInfinity _ => lit "null"
      | _ => Number_toString x
      end
  | VStr s => QuoteJSONString s
  | VArr elems =>
      wrap_partial (lit "[") (lit "]") gap indent (indent ++ gap)
        (List.map (SerializeJSONProperty gap (indent ++ gap)) elems)
  | VObj props =>
      wrap_partial (lit "{") (lit "}") gap indent (indent ++ gap)
        (List.map
           (fun kv =>
              match kv with
              | (k, pv) =>
                  QuoteJSONString k ++ lit ":"
                    ++ (if str_truthy gap then lit " " else [])
                    ++ SerializeJSONProperty gap (indent ++ gap) pv
              end) props)
  end.

(** [JSON.stringify(v)] and [JSON.stringify(v, null, n)] for [n <= 10]. *)
Definition JSON_stringify (v : value) : jsstring :=
  SerializeJSONProperty [] [] v.

Definition JSON_stringify_indent (n : nat) (v : value) : jsstring :=
  SerializeJSONProperty (repeat 32%N (Nat.min n 10)) [] v.

(** ** White space, line terminators, trim *)

Definition isLineTerminator (c : N) : bool :=
  ((c =? 10) || (c =? 13) || (c =? 8232) || (c =? 8233))%N.

(** WhiteSpace or LineTerminator: the code units [\s] matches and [trim]
    removes. *)
Definition isWhiteSpace (c : N) : bool :=
  ((c =? 9) || (c =? 11) || (c =? 12) || (c =? 32) || (c =? 160)
   || (c =? 5760) || ((8192 <=? c) && (c <=? 8202)) || (c =? 8239)
   || (c =? 8287) || (c =? 12288) || (c =? 65279))%N
  || isLineTerminator c.

Fixpoint trimStart (s : jsstring) : jsstring :=
  match s with
  | [] => []
  | c :: rest => if isWhiteSpace c then trimStart rest else s
  end.

Definition trimEnd (s : jsstring) : jsstring := rev (trimStart (rev s)).

Definition trim (s : jsstring) : jsstring := trimEnd (trimStart s).

(** ** Regular expressions

    The fragment of the pattern language the sources use, without flags
    [u], [i], [s] or [y]: character classes, [^] under the [m] flag,
    sequence, alternation and the greedy quantifiers.  [run] is the
    backtracking matcher of ECMA-262 in continuation-passing style; an
    iteration of [*] or [?] that consumes nothing is rejected, as
    RepeatMatcher does. *)

Inductive regex : Type :=
| Empty
| Class (p : N -> bool)
| LineStart
| Cat (r1 r2 : regex)
| Alt (r1 r2 : regex)
| Star (r : regex)
| Opt (r : regex).

(** [r+], [r{0,n}] and [r{1+0, 1+n}]. *)
Definition Plus (r : regex) : regex := Cat r (Star r).

Fixpoint UpTo (n : nat) (r : regex) : regex :=
  match n with
  | O => Empty
  | S n' => Opt (Cat r (UpTo n' r))
  end.

Definition Chr (c : N) : regex := Class (N.eqb c).

(** The matcher's position: the code unit before it, if any, and the
    code units from it on. *)
Definition input : Type := option N * jsstring.

Definition consumed (before after : input) : bool :=
  (List.length (snd after) <? List.length (snd before))%nat.

Definition at_line_start (st : input) : bool :=
  match fst st with
  | None => true
  | Some c => isLineTerminator c
  end.

Fixpoint run {A : Type} (r : regex) (st : input) (k : input -> option A)
  {struct r} : option A :=
  match r with
  | Empty => k st
  | Class p =>
      match snd st with
      | c :: rest => if p c then k (Some c, rest) else None
      | [] => None
      end
  | LineStart => if at_line_start st then k st else None
  | Cat r1 r2 => run r1 st (fun st1 => run r2 st1 k)
  | Alt r1 r2 =>
      match run r1 st k with
      | Some a => Some a
      | None => run r2 st k
      end
  | Star r1 =>
      (fix iterate (n : nat) (st : input) {struct n} : option A :=
         match n with
         | O => k st
         | S n' =>
             match run r1 st (fun st1 =>
                     if consumed st st1 then iterate n' st1 else None) with
             | Some a => Some a
             | None => k st
             end
         end) (List.length (snd st)) st
  | Opt r1 =>
      match run r1 st (fun st1 => if consumed st st1 then k st1 else None) with
      | Some a => Some a
      | None => k st
      end
  end.

(** The length of the match of [r] at position [st], if there is one. *)
Definition exec (r : regex) (st : input) : option nat :=
  run r st (fun st' => Some (List.length (snd st) - List.length (snd st'))%nat).

(** [s.replace(/r/g, replacement)] for a replacement text without [$]:
    matches are looked for from left to right, each search starting
    where the previous match ended, one code unit further after an empty
    match.  [skip] counts the code units of the current match still to
    be dropped. *)
Fixpoint replace_from (r : regex) (replacement : jsstring) (prev : option N)
  (s : jsstring) (skip : nat) : jsstring :=
  match s with
  | [] =>
      match skip, exec r (prev, []) with
      | O, Some _ => replacement
      | _, _ => []
      end
  | c :: rest =>
      match skip with
      | S n => replace_from r replacement (Some c) rest n
      | O =>
          match exec r (prev, s) with
          | Some (S n) => replacement ++ replace_from r replacement (Some c) rest n
          | Some O => replacement ++ c :: replace_from r replacement (Some c) rest O
          | None => c :: replace_from r replacement (Some c) rest O
          end
      end
  end.

Definition replace_all (r : regex) (replacement s : jsstring) : jsstring :=
  replace_from r replacement None s O.

(** The declarative reading of a pattern: [Matches r st st'] when [r]
    can match from [st] and stop at [st']. *)
Inductive Matches : regex -> input -> input -> Prop :=
| M_Empty st : Matches Empty st st
| M_Class (p : N -> bool) prev c rest :
    p c = true -> Matches (Class p) (prev, c :: rest) (Some c, rest)
| M_LineStart st : at_line_start st = true -> Matches LineStart st st
| M_Cat r1 r2 st st1 st2 :
    Matches r1 st st1 -> Matches r2 st1 st2 -> Matches (Cat r1 r2) st st2
| M_Alt_l r1 r2 st st1 : Matches r1 st st1 -> Matches (Alt r1 r2) st st1
| M_Alt_r r1 r2 st st1 : Matches r2 st st1 -> Matches (Alt r1 r2) st st1
| M_Star_stop r st : Matches (Star r) st st
| M_Star_step r st st1 st2 :
    Matches r st st1 -> Matches (Star r) st1 st2 -> Matches (Star r) st st2
| M_Opt_skip r st : Matches (Opt r) st st
| M_Opt_take r st st1 : Matches r st st1 -> Matches (Opt r) st st1.

(** No position of [s] has a match of [r]; [prev] is the unit before [s]. *)
Fixpoint never_matches (r : regex) (prev : option N) (s : jsstring) : Prop :=
  (forall st', ~ Matches r (prev, s) st')
  /\ match s with
     | [] => True
     | c :: rest => never_matches r (Some c) rest
     end.

(** ** Completion records

    A JavaScript call either returns a value or throws.  [try ... catch]
    is [try_catch]. *)

Inductive completion (E A : Type) : Type :=
| Return (a : A)
| Throw (e : E).

Arguments Return {E A} a.
Arguments Throw {E A} e.

Definition bind {E A B} (c : completion E A) (k : A -> completion E B)
  : completion E B :=
  match c with
  | Return a => k a
  | Throw e => Throw e
  end.

Definition try_catch {E A} (body : completion E A) (handler : E -> completion E A)
  : completion E A :=
  match body with
  | Return a => Return a
  | Throw e => handler e
  end.

(** ** Error objects

    What the program can observe of a thrown error: the class it is an
    instance of, its [message], and the [killed], [signal] and [stderr]
    properties the child-process errors carry.  A class declared by the
    program is identified by the module that declares it: two classes of
    the same name in two modules are two classes for [instanceof]. *)

Inductive ErrorClass : Type :=
| PlainError
| TypeError
| SyntaxError
| RangeError
| DeclaredIn (module_path class_name : string).

Definition ErrorClass_eqb (a b : ErrorClass) : bool :=
  match a, b with
  | PlainError, PlainError => true
  | TypeError, TypeError => true
  | SyntaxError, SyntaxError => true
  | RangeError, RangeError => true
  | DeclaredIn m1 c1, DeclaredIn m2 c2 => String.eqb m1 m2 && String.eqb c1 c2
  | _, _ => false
  end.

Record Error : Type := mkError {
  error_class : ErrorClass;
  message : jsstring;
  killed : bool;
  signal : option jsstring;
  stderr : option jsstring
}.

(** [new C(message)] *)
Definition new_error (c : ErrorClass) (msg : jsstring) : Error :=
  mkError c msg false None None.

Definition instanceof (e : Error) (c : ErrorClass) : bool :=
  ErrorClass_eqb (error_class e) c.

Definition result : Type -> Type := completion Error.

(** ** Property reads, ToString, Array.prototype.join *)

(** A canonical array index: the decimal text, without leading zero, of
    an integer below 2^32 - 1. *)
Fixpoint digits_value (s : jsstring) (acc : N) : option N :=
  match s with
  | [] => Some acc
  | c :: rest =>
      if ((48 <=? c) && (c <=? 57))%N
      then digits_value rest (10 * acc + (c - 48))%N
      else None
  end.

Definition array_index (key : jsstring) : option N :=
  match key with
  | [] => None
  | c :: rest =>
      if (c =? 48)%N && str_truthy rest then None
      else match digits_value key 0%N with
           | Some i => if (i <? 4294967295)%N then Some i else None
           | None => None
           end
  end.

(** [v[key]] for the property names the program reads: own properties of
    objects, elements and [length] of arrays and strings.  Reading a
    property of [null] throws a TypeError. *)
Definition get (v : value) (key : jsstring) : result (option value) :=
  match v with
  | VNull => Throw (new_error TypeError (lit "Cannot read properties of null"))
  | VObj props => Return (lookup key props)
  | VArr elems =>
      Return (match array_index key with
              | Some i => nth_error elems (N.to_nat i)
              | None =>
                  if streq key (lit "length")
                  then Some (VNum (number_of_Z (Z.of_nat (List.length elems))))
                  else None
              end)
  | VStr s =>
      Return (match array_index key with
              | Some i => option_map (fun c => VStr [c]) (nth_error s (N.to_nat i))
              | None =>
                  if streq key (lit "length")
                  then Some (VNum (number_of_Z (Z.of_nat (List.length s))))
                  else None
              end)
  | VNum _ | VBool _ => Return None
  end.

Definition isArray (v : value) : bool :=
  match v with VArr _ => true | _ => false end.

(** ToString.  An array goes through [join(",")], where [null] elements
    give the empty text.  An object parsed from JSON inherits
    [Object.prototype.toString] unless it has an own property [toString],
    which is never callable: then the conversion throws. *)
Fixpoint ToString (v : value) : result jsstring :=
  match v with
  | VNull => Return (lit "null")
  | VBool b => Return (if b then lit "true" else lit "false")
  | VNum x => Return (Number_toString x)
  | VStr s => Return s
  | VArr elems =>
      bind
        ((fix each (l : list value) : result (list jsstring) :=
            match l with
            | [] => Return []
            | e :: rest =>
                bind (match e with VNull => Return [] | _ => ToString e end)
                  (fun t => bind (each rest) (fun ts => Return (t :: ts)))
            end) elems)
        (fun ts => Return (join [44%N] ts))
  | VObj props =>
      match lookup (lit "toString") props with
      | Some _ => Throw (new_error TypeError (lit "Cannot convert object to primitive value"))
      | None => Return (lit "[object Object]")
      end
  end.

Fixpoint join_texts (elems : list value) : result (list jsstring) :=
  match elems with
  | [] => Return []
  | e :: rest =>
      bind (match e with VNull => Return [] | _ => ToString e end)
        (fun t => bind (join_texts rest) (fun ts => Return (t :: ts)))
  end.

(** [elems.join(sep)] *)
Definition Array_join (sep : jsstring) (elems : list value) : result jsstring :=
  bind (join_texts elems) (fun ts => Return (join sep ts)).

(** ** JSON.parse *)

Inductive parse_result (A : Type) : Type :=
| Parsed (a : A) (rest : jsstring)
| Malformed
| Exhausted.

Arguments Parsed {A} a rest.
Arguments Malformed {A}.
Arguments Exhausted {A}.

Definition is_json_space (c : N) : bool :=
  ((c =? 32) || (c =? 9) || (c =? 10) || (c =? 13))%N.

Fixpoint skip_space (s : jsstring) : jsstring :=
  match s with
  | [] => []
  | c :: rest => if is_json_space c then skip_space rest else s
  end.

Definition hex_value (c : N) : option N :=
  if ((48 <=? c) && (c <=? 57))%N then Some (c - 48)%N
  else if ((97 <=? c) && (c <=? 102))%N then Some (c - 87)%N
  else if ((65 <=? c) && (c <=? 70))%N then Some (c - 55)%N
  else None.

(** The code unit an escape letter stands for. *)
Definition escape_unit (c : N) : option N :=
  if (c =? 34)%N then Some 34%N
  else if (c =? 92)%N then Some 92%N
  else if (c =? 47)%N then Some 47%N
  else if (c =? 98)%N then Some 8%N
  else if (c =? 102)%N then Some 12%N
  else if (c =? 110)%N then Some 10%N
  else if (c =? 114)%N then Some 13%N
  else if (c =? 116)%N then Some 9%N
  else None.

Definition cons_unit (c : N) (r : option (jsstring * jsstring))
  : option (jsstring * jsstring) :=
  match r with
  | Some (text, rest) => Some (c :: text, rest)
  | None => None
  end.

(** The body of a string literal, after the opening quote. *)
Fixpoint parse_string_body (s : jsstring) : option (jsstring * jsstring) :=
  match s with
  | [] => None
  | c :: rest =>
      if (c =? 34)%N then Some ([], rest)
      else if (c =? 92)%N then
        match rest with
        | [] => None
        | e :: rest1 =>
            if (e =? 117)%N then
              match rest1 with
              | h1 :: h2 :: h3 :: h4 :: rest2 =>
                  match hex_value h1, hex_value h2, hex_value h3, hex_value h4 with
                  | Some a, Some b, Some c3, Some d =>
                      cons_unit (4096 * a + 256 * b + 16 * c3 + d)%N
                        (parse_string_body rest2)
                  | _, _, _, _ => None
                  end
              | _ => None
              end
            else
              match escape_unit e with
              | Some u => cons_unit u (parse_string_body rest1)
              | None => None
              end
        end
      else if (c <? 32)%N then None
      else cons_unit c (parse_string_body rest)
  end.

Definition is_digit (c : N) : bool := ((48 <=? c) && (c <=? 57))%N.

(** The longest run of digits: its value, its length, what follows. *)
Fixpoint take_digits (s : jsstring) (acc : Z) (len : nat) : Z * nat * jsstring :=
  match s with
  | c :: rest =>
      if is_digit c
      then take_digits rest (10 * acc + Z.of_N (c - 48))%Z (S len)
      else (acc, len, s)
  | [] => (acc, len, s)
  end.

(** A number literal: [-]? int frac? exp? *)
Definition number_sign (s : jsstring) : bool * jsstring :=
  match s with
  | c :: rest => if (c =? 45)%N then (true, rest) else (false, s)
  | [] => (false, s)
  end.

(** [0], or a digit from 1 to 9 and the digits after it. *)
Definition integer_part (s : jsstring) : option (Z * jsstring) :=
  match s with
  | c :: rest =>
      if (c =? 48)%N then Some (0%Z, rest)
      else if is_digit c then
        let '(z, _, r) := take_digits s 0%Z O in Some (z, r)
      else None
  | [] => None
  end.

(** A point and at least one digit, or nothing: the digits are added to
    the mantissa, their number is returned with it. *)
Definition fraction_part (int_value : Z) (s : jsstring) : option (Z * nat * jsstring) :=
  match s with
  | c :: rest =>
      if (c =? 46)%N then
        let '(z, len, r) := take_digits rest int_value O in
        match len with O => None | S _ => Some (z, len, r) end
      else Some (int_value, O, s)
  | [] => Some (int_value, O, s)
  end.

Definition exponent_sign (s : jsstring) : bool * jsstring :=
  match s with
  | d :: rest =>
      if (d =? 45)%N then (true, rest)
      else if (d =? 43)%N then (false, rest)
      else (false, s)
  | [] => (false, s)
  end.

(** [e] or [E], a sign or none, and at least one digit, or nothing. *)
Definition exponent_part (s : jsstring) : option (Z * jsstring) :=
  match s with
  | c :: rest =>
      if ((c =? 101) || (c =? 69))%N then
        let '(eneg, s1) := exponent_sign rest in
        let '(z, len, r) := take_digits s1 0%Z O in
        match len with
        | O => None
        | S _ => Some ((if eneg then - z else z)%Z, r)
        end
      else Some (0%Z, s)
  | [] => Some (0%Z, s)
  end.

Definition parse_number (s : jsstring) : option (number * jsstring) :=
  let '(neg, s1) := number_sign s in
  match integer_part s1 with
  | None => None
  | Some (int_value, s2) =>
      match fraction_part int_value s2 with
      | None => None
      | Some (mant, frac_len, s3) =>
          match exponent_part s3 with
          | None => None
          | Some (e, s4) =>
              Some (number_of_decimal neg mant (e - Z.of_nat frac_len)%Z, s4)
          end
      end
  end.

(** Defining a property of an object under construction: a key already
    there keeps its place and takes the new value; a new array-index key
    goes among the index keys, in ascending order, ahead of all other
    keys; any other new key goes last. *)
Fixpoint has_key (key : jsstring) (props : list (jsstring * value)) : bool :=
  match props with
  | [] => false
  | (k, _) :: rest => streq k key || has_key key rest
  end.

Fixpoint overwrite (key : jsstring) (v : value) (props : list (jsstring * value))
  : list (jsstring * value) :=
  match props with
  | [] => []
  | (k, old) :: rest =>
      if streq k key then (k, v) :: rest else (k, old) :: overwrite key v rest
  end.

Fixpoint insert_index (i : N) (key : jsstring) (v : value)
  (props : list (jsstring * value)) : list (jsstring * value) :=
  match props with
  | [] => [(key, v)]
  | (k, pv) :: rest =>
      match array_index k with
      | Some j =>
          if (j <? i)%N then (k, pv) :: insert_index i key v rest
          else (key, v) :: props
      | None => (key, v) :: props
      end
  end.

Definition define_property (props : list (jsstring * value)) (key : jsstring)
  (v : value) : list (jsstring * value) :=
  if has_key key props then overwrite key v props
  else match array_index key with
       | Some i => insert_index i key v props
       | None => props ++ [(key, v)]
       end.

Definition expect (word : jsstring) (v : value) (s : jsstring) : parse_result value :=
  if starts_with word s then Parsed v (skipn (List.length word) s) else Malformed.

(** Recursive descent.  [parse_value] reads one value, [parse_elements]
    the elements of an array after its bracket, [parse_members] the
    members of an object after its brace.  The recursion is on [fuel];
    [parse_fuel_enough] shows that the fuel [JSON_parse] gives never runs
    out. *)
Fixpoint parse_value (fuel : nat) (s : jsstring) {struct fuel} : parse_result value :=
  match fuel with
  | O => Exhausted
  | S f =>
      match skip_space s with
      | [] => Malformed
      | c :: rest =>
          if (c =? 123)%N then
            match skip_space rest with
            | d :: rest' =>
                if (d =? 125)%N then Parsed (VObj []) rest'
                else parse_members f rest []
            | [] => Malformed
            end
          else if (c =? 91)%N then
            match skip_space rest with
            | d :: rest' =>
                if (d =? 93)%N then Parsed (VArr []) rest'
                else parse_elements f rest []
            | [] => Malformed
            end
          else if (c =? 34)%N then
            match parse_string_body rest with
            | Some (text, rest') => Parsed (VStr text) rest'
            | None => Malformed
            end
          else if (c =? 116)%N then expect (lit "true") (VBool true) (c :: rest)
          else if (c =? 102)%N then expect (lit "false") (VBool false) (c :: rest)
          else if (c =? 110)%N then expect (lit "null") VNull (c :: rest)
          else
            match parse_number (c :: rest) with
            | Some (x, rest') => Parsed (VNum x) rest'
            | None => Malformed
            end
      end
  end
with parse_elements (fuel : nat) (s : jsstring) (acc : list value) {struct fuel}
  : parse_result value :=
  match fuel with
  | O => Exhausted
  | S f =>
      match parse_value f s with
      | Parsed v rest =>
          match skip_space rest with
          | c :: rest' =>
              if (c =? 44)%N then parse_elements f rest' (v :: acc)
              else if (c =? 93)%N then Parsed (VArr (rev (v :: acc))) rest'
              else Malformed
          | [] => Malformed
          end
      | Malformed => Malformed
      | Exhausted => Exhausted
      end
  end
with parse_members (fuel : nat) (s : jsstring) (props : list (jsstring * value))
  {struct fuel} : parse_result value :=
  match fuel with
  | O => Exhausted
  | S f =>
      match skip_space s with
      | c :: rest =>
          if (c =? 34)%N then
            match parse_string_body rest with
            | Some (key, rest1) =>
                match skip_space rest1 with
                | d :: rest2 =>
                    if (d =? 58)%N then
                      match parse_value f rest2 with
                      | Parsed v rest3 =>
                          let props' := define_property props key v in
                          match skip_space rest3 with
                          | e :: rest4 =>
                              if (e =? 44)%N then parse_members f rest4 props'
                              else if (e =? 125)%N then Parsed (VObj props') rest4
                              else Malformed
                          | [] => Malformed
                          end
                      | Malformed => Malformed
                      | Exhausted => Exhausted
                      end
                    else Malformed
                | [] => Malformed
                end
            | None => Malformed
            end
          else Malformed
      | [] => Malformed
      end
  end.

Definition parse_fuel (text : jsstring) : nat := S (2 * List.length text).

(** A parser run on [s] ends by itself, and has consumed something when
    it succeeds. *)
Definition ends (res : parse_result value) (s : jsstring) : Prop :=
  res <> Exhausted
  /\ forall v rest, res = Parsed v rest -> (List.length rest < List.length s)%nat.

Definition JSON_parse (text : jsstring) : result value :=
  match parse_value (parse_fuel text) text with
  | Parsed v rest =>
      match skip_space rest with
      | [] => Return v
      | _ :: _ => Throw (new_error SyntaxError (lit "Unexpected non-whitespace character after JSON"))
      end
  | Malformed => Throw (new_error SyntaxError (lit "Unexpected token in JSON"))
  | Exhausted => Throw (new_error RangeError (lit "Maximum call stack size exceeded"))
  end.

End JS.

Declare Scope js_scope.
Delimit Scope js_scope with js.
Notation "x <- c ;; k" := (JS.bind c (fun x => k))
  (at level 61, c at next level, right associativity) : js_scope.

Import JS.
Local Open Scope js_scope.

(** ** The strip-ansi package

    [stripAnsi(s)] is [s.replace(ansiRegex(), '')]; the pattern is the one
    of ansi-regex 5.0.1, the version strip-ansi 6.0.1 loads:

    E I* (?: (?: (?: (?: ;P+ )* | A+ (?: ;P* )* )? BEL ) | (?: (?: D{1,4} (?: ;D{0,4} )* )? F ) )

    with E the class of ESC (001B) and CSI (009B), I the class of the
    seven units [ ] ( ) # ; ? , P the parameter class, A the letters and
    digits, D the digits, BEL the unit 0007 and F the class of final
    units; each class is spelled out next to its definition below.

    Every version of the pattern starts with the class [[\u001B\u009B]],
    which is all the theorems below depend on. *)

Module StripAnsi.

Local Open Scope N_scope.

Definition between (lo hi c : N) : bool := (lo <=? c) && (c <=? hi).
Definition digit (c : N) : bool := between 48 57 c.
Definition letter (c : N) : bool := between 97 122 c || between 65 90 c.

Definition introducer (c : N) : bool := (c =? 27) || (c =? 155).

(** The seven units [ ] ( ) # ; ? *)
Definition prefix_unit (c : N) : bool :=
  (c =? 91) || (c =? 93) || (c =? 40) || (c =? 41) || (c =? 35)
  || (c =? 59) || (c =? 63).

(** The units - a-z A-Z 0-9 / # & . : = ? % @ ~ _ *)
Definition parameter_unit (c : N) : bool :=
  (c =? 45) || letter c || digit c || (c =? 47) || (c =? 35) || (c =? 38)
  || (c =? 46) || (c =? 58) || (c =? 61) || (c =? 63) || (c =? 37)
  || (c =? 64) || (c =? 126) || (c =? 95).

(** The units a-z A-Z 0-9 *)
Definition alphanumeric (c : N) : bool := letter c || digit c.

(** The units 0-9 A-P R-T Z c f-n t q r y = > < ~ *)
Definition final_unit (c : N) : bool :=
  digit c || between 65 80 c || between 82 84 c || (c =? 90) || (c =? 99)
  || between 102 110 c || (c =? 116) || (c =? 113) || (c =? 114) || (c =? 121)
  || (c =? 61) || (c =? 62) || (c =? 60) || (c =? 126).

Definition semicolon : regex := Chr 59.

(** The first alternative: an optional parameter run, then BEL. *)
Definition link_sequence : regex :=
  Cat (Opt (Alt (Star (Cat semicolon (Plus (Class parameter_unit))))
                (Cat (Plus (Class alphanumeric))
                     (Star (Cat semicolon (Star (Class parameter_unit)))))))
      (Chr 7).

(** The second alternative: optional numeric parameters, then a final unit. *)
Definition control_sequence : regex :=
  Cat (Opt (Cat (Cat (Class digit) (UpTo 3 (Class digit)))
                (Star (Cat semicolon (UpTo 4 (Class digit))))))
      (Class final_unit).

Definition ansiRegex : regex :=
  Cat (Class introducer)
      (Cat (Star (Class prefix_unit))
           (Alt link_sequence control_sequence)).

Definition stripAnsi (s : jsstring) : jsstring := replace_all ansiRegex [] s.

End StripAnsi.
Import StripAnsi.

(** ** The process around the adapters

    A subprocess is an oracle: for each invocation the world says how the
    child ended.  [Date.now()] and the random suffix of a completion id
    are read from the world as well, in the order the program asks. *)

Module Process.

Record Invocation : Type := mkInvocation {
  file : jsstring;
  args : list jsstring;
  cwd : option jsstring;
  timeout_ms : N;
  maxBuffer : option N;
  stdin : option jsstring
}.

(** How [execFile] calls back: without an error, or with one; what the
    child wrote before it ended comes along in both cases. *)
Inductive ChildOutcome : Type :=
| Exited (stdout stderr : jsstring)
| Failed (err : Error) (stdout stderr : jsstring).

Record World : Type := mkWorld {
  child_process : Invocation -> ChildOutcome;
  Date_now : nat -> Z;
  random_suffix : nat -> jsstring
}.

Inductive LogLevel : Type := log | warn | error.

Inductive LogItem : Type :=
| Text (s : jsstring)
| Millis (n : Z)
| Thrown (e : Error).

Record State : Type := mkState {
  console : list (LogLevel * list LogItem);
  clock_reads : nat;
  random_reads : nat
}.

Definition initial : State := mkState [] O O.

(** An effectful computation: state in, state and completion out. *)
Definition M (A : Type) : Type := State -> State * result A.

Definition ret {A} (a : A) : M A := fun st => (st, Return a).

Definition throw {A} (e : Error) : M A := fun st => (st, Throw e).

Definition mbind {A B} (c : M A) (k : A -> M B) : M B :=
  fun st =>
    match c st with
    | (st1, Return a) => k a st1
    | (st1, Throw e) => (st1, Throw e)
    end.

Definition try_catch_M {A} (body : M A) (handler : Error -> M A) : M A :=
  fun st =>
    match body st with
    | (st1, Return a) => (st1, Return a)
    | (st1, Throw e) => handler e st1
    end.

Definition lift {A} (c : result A) : M A := fun st => (st, c).

Definition console_write (level : LogLevel) (items : list LogItem) : M unit :=
  fun st =>
    (mkState (console st ++ [(level, items)]) (clock_reads st) (random_reads st),
     Return tt).

Definition when (b : bool) (c : M unit) : M unit := if b then c else ret tt.

Definition now (w : World) : M Z :=
  fun st =>
    (mkState (console st) (S (clock_reads st)) (random_reads st),
     Return (Date_now w (clock_reads st))).

Definition random (w : World) : M jsstring :=
  fun st =>
    (mkState (console st) (clock_reads st) (S (random_reads st)),
     Return (random_suffix w (random_reads st))).

(** [err.stderr = stderr] *)
Definition attach_stderr (e : Error) (text : jsstring) : Error :=
  mkError (error_class e) (message e) (killed e) (signal e) (Some text).

(** [execFile]: the promise resolves with the two outputs, or rejects
    with the error, to which [stderr] has been attached. *)
Definition execFile (w : World) (inv : Invocation) : M (jsstring * jsstring) :=
  match child_process w inv with
  | Exited out err => ret (out, err)
  | Failed e out err => throw (attach_stderr e err)
  end.

End Process.
Import Process.

Declare Scope io_scope.
Delimit Scope io_scope with io.
Notation "x <- c ;; k" := (mbind c (fun x => k))
  (at level 61, c at next level, right associativity) : io_scope.
Notation "c ;;; k" := (mbind c (fun _ => k))
  (at level 61, right associativity) : io_scope.

(* ================================================================== *)
(** * Part II. The program                                             *)
(* ================================================================== *)

(** ** src/types.ts *)

Module Types.

(** [role: 'system' | 'user' | 'assistant'] *)
Inductive Role : Type := system | user | assistant.

Definition Role_name (r : Role) : jsstring :=
  match r with
  | system => lit "system"
  | user => lit "user"
  | assistant => lit "assistant"
  end.

Definition is_system (r : Role) : bool :=
  match r with system => true | _ => false end.

(** How a message object is laid out.  The interface [Message] names two
    properties and fixes neither their order nor what else the object
    holds; the program never rebuilds the objects it is given, so the
    order of [role] and [content] and the other own properties, those
    before, between and after the two, are whatever the caller sent.
    The other properties have names of their own: an object has one
    property [role] and one property [content]. *)
Record Layout : Type := mkLayout {
  content_first : bool;
  front : list (jsstring * value);
  middle : list (jsstring * value);
  back : list (jsstring * value)
}.

(** The layout of the object literal [{ role: ..., content: ... }]. *)
Definition role_then_content : Layout := mkLayout false [] [] [].

(** The layout of the object literal [{ content: ..., role: ... }]. *)
Definition content_then_role : Layout := mkLayout true [] [] [].

(** A message: the values of its [role] and [content], and its layout. *)
Record Message : Type := message_object {
  role : Role;
  content : jsstring;
  layout : Layout
}.

(** The object literal [{ role: r, content: c }]. *)
Definition mkMessage (r : Role) (c : jsstring) : Message :=
  message_object r c role_then_content.

(** The own properties of a message object, in their order. *)
Definition own_properties (m : Message) : list (jsstring * value) :=
  let role_property := (lit "role", VStr (Role_name (role m))) in
  let content_property := (lit "content", VStr (content m)) in
  front (layout m)
  ++ (if content_first (layout m) then content_property else role_property)
  :: middle (layout m)
  ++ (if content_first (layout m) then role_property else content_property)
  :: back (layout m).

(** A message as the object it is. *)
Definition Message_value (m : Message) : value := VObj (own_properties m).

Definition Messages_value (ms : list Message) : value :=
  VArr (List.map Message_value ms).

(** [AdapterConfig]; [type] is a string at run time (it is read from the
    environment and cast), [model] is optional. *)
Record AdapterConfig : Type := mkAdapterConfig {
  type : jsstring;
  runtimeDir : jsstring;
  timeout : N;
  debug : bool;
  model : option jsstring
}.

End Types.
Import Types.

(** ** src/adapters/base.ts

    The abstract class [CLIAdapter] is the record of its four methods.
    [execute] is declared to resolve to a string; the Gemini adapter can
    resolve to whatever value it read out of a JSON document, so the
    embedding keeps a value. *)

Module Base.

Record CLIAdapter : Type := mkCLIAdapter {
  execute : list Message -> M value;
  isAvailable : M bool;
  getName : jsstring;
  getModelName : jsstring
}.

End Base.
Import Base.

(** Helpers of the debug log, the same in both adapter files. *)

Module DebugLog.

(** [summarize(text, max)] *)
Definition summarize (text : jsstring) (max : nat) : jsstring :=
  if negb (str_truthy text) then []
  else
    let clean := trim (replace_all (Plus (Class isWhiteSpace)) (lit " ") text) in
    if (max <? List.length clean)%nat then firstn max clean ++ [8230%N] else clean.

(** [quote(s)] *)
Definition quote (s : jsstring) : jsstring := QuoteJSONString s.

End DebugLog.

Module ClaudeCode.

Definition CONVERSATION_SYSTEM_PROMPT : jsstring :=
  lit "You are participating in a conversation. When conversation history is provided in JSON format, use it to understand the context and respond appropriately to the current user message.".

Record Command : Type := mkCommand { systemPrompt : jsstring; userPrompt : jsstring }.

Definition buildClaudeCodeCommand (messages : list Message) : Command :=
  (* Extract system message *)
  let systemMsg := find (fun m => is_system (role m)) messages in
  let baseSystemPrompt :=
    match systemMsg with
    | Some m => if str_truthy (content m) then content m else []
    | None => []
    end in
  (* Build system prompt *)
  let systemPrompt :=
    if str_truthy baseSystemPrompt
    then baseSystemPrompt ++ [LF; LF] ++ CONVERSATION_SYSTEM_PROMPT
    else CONVERSATION_SYSTEM_PROMPT in
  (* Build user prompt with conversation history *)
  let userPrompt0 : jsstring := [] in
  let conversationMessages := filter (fun m => negb (is_system (role m))) messages in
  let userPrompt1 :=
    if (1 <? List.length conversationMessages)%nat then
      let history := slice_0_minus1 conversationMessages in
      userPrompt0 ++ lit "Conversation history:" ++ [LF]
        ++ JSON_stringify_indent 2 (Messages_value history) ++ [LF; LF]
    else userPrompt0 in
  (* Add current user message *)
  let latestMsg :=
    at_index conversationMessages (Z.of_nat (List.length conversationMessages) - 1) in
  let userPrompt2 :=
    match latestMsg with
    | Some m => userPrompt1 ++ lit "Current user message: " ++ content m
    | None => userPrompt1
    end in
  mkCommand systemPrompt userPrompt2.

(** The pattern ^.*\r with flags g and m: a dot is any code unit but a
    line terminator. *)
Definition carriage_return_line : regex :=
  Cat LineStart
      (Cat (Star (Class (fun c => negb (isLineTerminator c)))) (Chr CR)).

Definition spinner_glyph (c : N) : bool :=
  ((c =? 91) || (c =? 10251) || (c =? 10265) || (c =? 10297) || (c =? 10296)
   || (c =? 10300) || (c =? 10292) || (c =? 10278) || (c =? 10279)
   || (c =? 10247) || (c =? 10255) || (c =? 93))%N.

(** The pattern ^\s* followed by the class of the two square brackets and
    the ten Braille spinner glyphs, with flags g and m. *)
Definition spinner_start : regex :=
  Cat LineStart (Cat (Star (Class isWhiteSpace)) (Class spinner_glyph)).

Definition cleanOutput (stdout : jsstring) : jsstring :=
  let cleaned := stripAnsi stdout in
  (* Remove common progress indicators *)
  let cleaned := replace_all carriage_return_line [] cleaned in
  let cleaned := replace_all spinner_start [] cleaned in
  (* Trim and normalize whitespace *)
  trim cleaned.

(** [class TimeoutError extends Error] of claude_code.ts *)
Definition TimeoutError : ErrorClass := DeclaredIn "adapters/claude_code" "TimeoutError".

Record ClaudeCodeAdapter : Type := mkClaudeCodeAdapter {
  runtimeDir : jsstring;
  timeout : N;
  debug : bool
}.

(** The constructor, with its defaults for [timeout] and [debug]. *)
Definition new (runtimeDir : jsstring) (timeout : option N) (debug : option bool)
  : ClaudeCodeAdapter :=
  mkClaudeCodeAdapter runtimeDir
    (match timeout with Some t => t | None => 30000%N end)
    (match debug with Some d => d | None => false end).

Definition getName : jsstring := lit "claude-code".

Definition getModelName : jsstring := lit "claude-code".

Definition isAvailable (w : World) : M bool :=
  try_catch_M
    (_ <- execFile w (mkInvocation (lit "claude") [lit "--version"] None 5000 None None) ;;
     ret true)%io
    (fun _ => ret false).

(** The primary invocation: [claude --system-prompt <system> -p], run
    with [commonOpts], the user prompt written to its standard input. *)
Definition invocation (self : ClaudeCodeAdapter) (cmd : Command) : Invocation :=
  mkInvocation (lit "claude")
    [lit "--system-prompt"; systemPrompt cmd; lit "-p"]
    (Some (runtimeDir self)) (timeout self)
    (Some (10 * 1024 * 1024)%N) (Some (userPrompt cmd)).

Definition execute (w : World) (self : ClaudeCodeAdapter) (messages : list Message)
  : M jsstring :=
  (let cmd := buildClaudeCodeCommand messages in
   t0 <- now w ;;
   when (debug self)
     (console_write log [Text (lit "[DEBUG] System Prompt:"); Text (systemPrompt cmd)] ;;;
      console_write log [Text (lit "[DEBUG] User Prompt:"); Text (userPrompt cmd)]) ;;;
   try_catch_M
     (when (debug self)
        (console_write log
           [Text (lit "[DEBUG] Exec command (stdin mode):"); Text (lit "claude");
            Text (lit "--system-prompt");
            Text (DebugLog.quote (DebugLog.summarize (systemPrompt cmd) 80));
            Text (lit "-p")] ;;;
         console_write log
           [Text (lit "[DEBUG] Prompt (stdin):");
            Text (DebugLog.quote (DebugLog.summarize (userPrompt cmd) 80))]) ;;;
      res <- execFile w (invocation self cmd) ;;
      when (debug self)
        (console_write log [Text (lit "[DEBUG] Raw Output:"); Text (fst res)] ;;;
         t1 <- now w ;;
         console_write log [Text (lit "[DEBUG] Duration (ms):"); Millis (t1 - t0)]) ;;;
      ret (cleanOutput (fst res)))
     (fun error =>
        (* If timed out, surface as timeout *)
        if killed error
           && match signal error with Some sg => streq sg (lit "SIGTERM") | None => false end
        then throw (new_error TimeoutError (lit "Claude Code execution timed out"))
        else
          when (debug self)
            (console_write warn
               [Text (lit "[DEBUG] Invocation failed. stderr:");
                Text (match stderr error with
                      | Some t => if str_truthy t then t else []
                      | None => []
                      end)]) ;;;
          (* Rethrow original error *)
          throw error))%io.

Definition adapter (w : World) (self : ClaudeCodeAdapter) : CLIAdapter :=
  mkCLIAdapter
    (fun messages => (text <- execute w self messages ;; ret (VStr text))%io)
    (isAvailable w) getName getModelName.

End ClaudeCode.

Module GeminiCLI.

Definition CONVERSATION_SYSTEM_PROMPT : jsstring :=
  lit "You are a generic, domain-agnostic AI assistant." ++ [LF; LF]
  ++ lit "Identity and scope:" ++ [LF]
  ++ lit "- Do not identify as a specific product/tool or coding assistant." ++ [LF]
  ++ lit "- Do not list capabilities or tools unless the user explicitly asks." ++ [LF]
  ++ lit "- If a role label is required, use a minimal " ++ [DQUOTE] ++ lit "assistant"
  ++ [DQUOTE] ++ lit " identity only." ++ [LF; LF]
  ++ lit "Environment and tools:" ++ [LF]
  ++ lit "- Do not reference or infer local environment details (repos, files, editor, OS, terminal, processes, network)." ++ [LF]
  ++ lit "- Do not claim to run commands or open files. Offer steps as suggestions instead." ++ [LF]
  ++ lit "- If the user shares environment details, do not extrapolate beyond what is provided." ++ [LF; LF]
  ++ lit "Style and conduct:" ++ [LF]
  ++ lit "- Default to brief, direct, and helpful answers. Avoid long introductions." ++ [LF]
  ++ lit "- For simple greetings (e.g., " ++ [DQUOTE] ++ lit "hi" ++ [DQUOTE]
  ++ lit "), reply with a short friendly greeting only." ++ [LF]
  ++ lit "- Ask one concise clarification question when requirements are ambiguous." ++ [LF; LF]
  ++ lit "Conversation handling:" ++ [LF]
  ++ lit "- When conversation history is provided in JSON, use it for context and respond to the latest user message." ++ [LF]
  ++ lit "- Focus on the user's request and avoid unnecessary commentary.".

Definition buildGeminiPrompt (messages : list Message) : jsstring :=
  (* Extract system message *)
  let systemMsg := find (fun m => is_system (role m)) messages in
  let baseSystemPrompt :=
    match systemMsg with
    | Some m => if str_truthy (content m) then content m else []
    | None => []
    end in
  (* Build system prompt section *)
  let systemPrompt :=
    if str_truthy baseSystemPrompt
    then baseSystemPrompt ++ [LF; LF] ++ CONVERSATION_SYSTEM_PROMPT
    else CONVERSATION_SYSTEM_PROMPT in
  (* Build prompt with conversation history *)
  let prompt0 := lit "System instructions:" ++ [LF] ++ systemPrompt ++ [LF; LF] in
  let conversationMessages := filter (fun m => negb (is_system (role m))) messages in
  let prompt1 :=
    if (1 <? List.length conversationMessages)%nat then
      let history := slice_0_minus1 conversationMessages in
      prompt0 ++ lit "Conversation history:" ++ [LF]
        ++ JSON_stringify_indent 2 (Messages_value history) ++ [LF; LF]
    else prompt0 in
  (* Add current user message *)
  let latestMsg :=
    at_index conversationMessages (Z.of_nat (List.length conversationMessages) - 1) in
  match latestMsg with
  | Some m => prompt1 ++ lit "Current user message: " ++ content m
  | None => prompt1
  end.

(** The pattern ^.*\r with flags g and m: a dot is any code unit but a
    line terminator. *)
Definition carriage_return_line : regex :=
  Cat LineStart
      (Cat (Star (Class (fun c => negb (isLineTerminator c)))) (Chr CR)).

Definition spinner_glyph (c : N) : bool :=
  ((c =? 91) || (c =? 10251) || (c =? 10265) || (c =? 10297) || (c =? 10296)
   || (c =? 10300) || (c =? 10292) || (c =? 10278) || (c =? 10279)
   || (c =? 10247) || (c =? 10255) || (c =? 93))%N.

(** The pattern ^\s* followed by the class of the two square brackets and
    the ten Braille spinner glyphs, with flags g and m. *)
Definition spinner_start : regex :=
  Cat LineStart (Cat (Star (Class isWhiteSpace)) (Class spinner_glyph)).

Definition cleanOutput (stdout : jsstring) : jsstring :=
  let cleaned := stripAnsi stdout in
  (* Remove common progress indicators *)
  let cleaned := replace_all carriage_return_line [] cleaned in
  let cleaned := replace_all spinner_start [] cleaned in
  (* Trim and normalize whitespace *)
  trim cleaned.

(** [class TimeoutError extends Error] of gemini_cli.ts *)
Definition TimeoutError : ErrorClass := DeclaredIn "adapters/gemini_cli" "TimeoutError".

Record GeminiCLIAdapter : Type := mkGeminiCLIAdapter {
  runtimeDir : jsstring;
  timeout : N;
  debug : bool;
  model : jsstring
}.

(** The constructor, with its defaults. *)
Definition new (runtimeDir : jsstring) (timeout : option N) (debug : option bool)
  (model : option jsstring) : GeminiCLIAdapter :=
  mkGeminiCLIAdapter runtimeDir
    (match timeout with Some t => t | None => 30000%N end)
    (match debug with Some d => d | None => false end)
    (match model with Some m => m | None => lit "gemini-2.5-flash" end).

Definition getName : jsstring := lit "gemini-cli".

Definition getModelName : jsstring := lit "gemini-cli".

Definition isAvailable (w : World) : M bool :=
  try_catch_M
    (_ <- execFile w (mkInvocation (lit "gemini") [lit "--version"] None 5000 None None) ;;
     ret true)%io
    (fun _ =>
       (* If --version doesn't work, try -p with a simple prompt *)
       try_catch_M
         (_ <- execFile w
                 (mkInvocation (lit "gemini") [lit "-p"; lit "hello"] None 5000 None None) ;;
          ret true)%io
         (fun _ => ret false)).

(** [part => part.text || ''] mapped over the parts. *)
Fixpoint map_part_text (parts : list value) : result (list value) :=
  match parts with
  | [] => Return []
  | part :: rest =>
      (text <- get part (lit "text") ;;
       texts <- map_part_text rest ;;
       Return ((match text with
                | Some t => if truthy t then t else VStr []
                | None => VStr []
                end) :: texts))%js
  end.

(** The block "Common patterns in Gemini API responses": [Some text] when
    it returns, [None] when control falls through it. *)
Definition candidates_text (parsed : value) : result (option value) :=
  (candidates <- get parsed (lit "candidates") ;;
   match candidates with
   | Some cs =>
       if truthy cs && isArray cs then
         first <- get cs (lit "0") ;;
         match first with
         | Some candidate =>
             if truthy candidate then
               content <- get candidate (lit "content") ;;
               match content with
               | Some c =>
                   if truthy c then
                     parts <- get c (lit "parts") ;;
                     match parts with
                     | Some (VArr ps) =>
                         texts <- map_part_text ps ;;
                         joined <- Array_join [] texts ;;
                         Return (Some (VStr joined))
                     | _ => Return None
                     end
                   else Return None
               | None => Return None
               end
             else Return None
         | None => Return None
         end
       else Return None
   | None => Return None
   end)%js.

Definition extractResponse (stdout : jsstring) : result value :=
  if negb (str_truthy stdout) then Return (VStr [])
  else
    let cleaned := trim (stripAnsi stdout) in
    (* Try to parse as JSON first (if --output-format json was used) *)
    try_catch
      (parsed <- JSON_parse cleaned ;;
       (* Handle different possible JSON structures *)
       match parsed with
       | VStr _ => Return parsed
       | _ =>
           (* Common patterns in Gemini API responses *)
           shaped <- candidates_text parsed ;;
           match shaped with
           | Some text => Return text
           | None =>
               (* If text field exists at top level *)
               text <- get parsed (lit "text") ;;
               if truthy_opt text
               then Return (match text with Some t => t | None => VNull end)
               else
                 (* If response field exists *)
                 response <- get parsed (lit "response") ;;
                 if truthy_opt response
                 then Return (match response with Some r => r | None => VNull end)
                 else
                   (* Fallback: stringify the parsed object *)
                   Return (VStr (JSON_stringify parsed))
           end
       end)%js
      (fun _ =>
         (* If not JSON or parsing failed, treat as plain text *)
         Return (VStr (cleanOutput cleaned))).

(** The command arguments [execute] builds. *)
Definition arguments (self : GeminiCLIAdapter) (prompt : jsstring) : list jsstring :=
  (* Build command arguments *)
  let args0 := [lit "-p"; prompt] in
  (* Add model selection if specified *)
  let args1 := if str_truthy (model self) then lit "-m" :: model self :: args0 else args0 in
  (* Add JSON output format for structured response *)
  args1 ++ [lit "--output-format"; lit "json"].

(** [execFile('gemini', args, commonOpts)] *)
Definition invocation (self : GeminiCLIAdapter) (prompt : jsstring) : Invocation :=
  mkInvocation (lit "gemini") (arguments self prompt) (Some (runtimeDir self))
    (timeout self) (Some (10 * 1024 * 1024)%N) None.

Definition execute (w : World) (self : GeminiCLIAdapter) (messages : list Message)
  : M value :=
  (let prompt := buildGeminiPrompt messages in
   t0 <- now w ;;
   when (debug self)
     (console_write log
        [Text (lit "[DEBUG] Gemini Prompt:"); Text (DebugLog.summarize prompt 200)]) ;;;
   let args := arguments self prompt in
   try_catch_M
     (when (debug self)
        (console_write log
           [Text (lit "[DEBUG] Exec command:"); Text (lit "gemini");
            Text (join (lit " ") (firstn (List.length args - 2) args));
            Text (lit "<prompt>"); Text (lit "--output-format json")]) ;;;
      res <- execFile w (invocation self prompt) ;;
      when (debug self)
        (console_write log [Text (lit "[DEBUG] Raw Output:"); Text (fst res)] ;;;
         t1 <- now w ;;
         console_write log [Text (lit "[DEBUG] Duration (ms):"); Millis (t1 - t0)]) ;;;
      lift (extractResponse (fst res)))
     (fun error =>
        (* If timed out, surface as timeout *)
        if killed error
           && match signal error with Some sg => streq sg (lit "SIGTERM") | None => false end
        then throw (new_error TimeoutError (lit "Gemini CLI execution timed out"))
        else
          when (debug self)
            (console_write warn
               [Text (lit "[DEBUG] Invocation failed. stderr:");
                Text (match stderr error with
                      | Some t => if str_truthy t then t else []
                      | None => []
                      end)]) ;;;
          (* Rethrow original error *)
          throw error))%io.

Definition adapter (w : World) (self : GeminiCLIAdapter) : CLIAdapter :=
  mkCLIAdapter (execute w self) (isAvailable w) getName getModelName.

End GeminiCLI.

(** ** src/adapters/factory.ts *)

Module AdapterFactory.

Definition create (w : World) (config : AdapterConfig) : result CLIAdapter :=
  if streq (type config) (lit "claude-code") then
    (* the constructor has three parameters; the fourth argument,
       [config.model], is dropped *)
    Return (ClaudeCode.adapter w
              (ClaudeCode.new (Types.runtimeDir config) (Some (Types.timeout config))
                 (Some (Types.debug config))))
  else if streq (type config) (lit "codex") then
    Throw (new_error PlainError (lit "Codex adapter not yet implemented"))
  else if streq (type config) (lit "gemini-cli") then
    Throw (new_error PlainError (lit "Gemini CLI adapter not yet implemented"))
  else
    Throw (new_error PlainError (lit "Unknown adapter type: " ++ type config)).

End AdapterFactory.

(** ** src/server.ts *)

Module Server.

(** The request body: [messages] is absent or not an array, or an array
    of messages; [model] is empty when the body names none. *)
Inductive MessagesField : Type :=
| NotAnArray
| MessageArray (messages : list Message).

Record ChatCompletionRequest : Type := mkRequest {
  model : jsstring;
  messages : MessagesField
}.

Record ErrorBody : Type := mkErrorBody {
  error_message : jsstring;
  error_type : jsstring;
  error_code : jsstring
}.

Record Choice : Type := mkChoice {
  index : N;
  choice_role : jsstring;
  choice_content : jsstring;
  finish_reason : jsstring
}.

Record Usage : Type := mkUsage {
  prompt_tokens : N;
  completion_tokens : N;
  total_tokens : N
}.

Record ChatCompletionResponse : Type := mkResponse {
  id : jsstring;
  object : jsstring;
  created : Z;
  response_model : jsstring;
  choices : list Choice;
  usage : Usage
}.

Inductive Body : Type :=
| ErrorResponse (e : ErrorBody)
| ChatCompletion (r : ChatCompletionResponse).

Record HttpResponse : Type := mkHttp { status : N; body : Body }.

(** What the handler does with a request: it responds, or the adapter
    resolved to a value that is not a string, which the declared types
    exclude and the embedding does not follow further. *)
Inductive Handled : Type :=
| Responded (r : HttpResponse)
| UntypedContent (v : value).

(** [estimateTokens]: [Math.ceil(text.length / 4)] *)
Definition estimateTokens (text : jsstring) : N :=
  let n := N.of_nat (List.length text) in
  (if (n mod 4 =? 0)%N then n / 4 else n / 4 + 1)%N.

(** [generateId] *)
Definition generateId (w : World) : M jsstring :=
  (t <- now w ;;
   r <- random w ;;
   ret (lit "chatcmpl-" ++ Number_toString (number_of_Z t) ++ lit "-" ++ r))%io.

(** The handler of POST /v1/chat/completions. *)
Definition chat_completions (w : World) (adapter : CLIAdapter)
  (request : ChatCompletionRequest) : M Handled :=
  try_catch_M
    (match messages request with
     | NotAnArray =>
         ret (Responded (mkHttp 400 (ErrorResponse
                (mkErrorBody (lit "Invalid request: messages array is required")
                   (lit "invalid_request_error") (lit "invalid_request")))))
     | MessageArray ms =>
         if (List.length ms =? 0)%nat then
           ret (Responded (mkHttp 400 (ErrorResponse
                  (mkErrorBody (lit "Invalid request: messages array cannot be empty")
                     (lit "invalid_request_error") (lit "invalid_request")))))
         else
           (* Execute adapter *)
           returned <- execute adapter ms ;;
           match returned with
           | VStr content =>
               (* Build OpenAI-compatible response *)
               new_id <- generateId w ;;
               t <- now w ;;
               ret (Responded (mkHttp 200 (ChatCompletion
                      (mkResponse new_id (lit "chat.completion") (t / 1000)%Z
                         (if str_truthy (model request) then model request
                          else getModelName adapter)
                         [mkChoice 0 (lit "assistant") content (lit "stop")]
                         (mkUsage
                            (estimateTokens (JSON_stringify (Messages_value ms)))
                            (estimateTokens content)
                            (estimateTokens
                               (JSON_stringify (Messages_value ms) ++ content)))))))
           | other => ret (UntypedContent other)
           end
     end)%io
    (fun error =>
       (console_write Process.error
          [Text (lit "Error processing request:"); Thrown error] ;;;
        if instanceof error ClaudeCode.TimeoutError then
          ret (Responded (mkHttp 504 (ErrorResponse
                 (mkErrorBody (message error) (lit "timeout_error") (lit "timeout")))))
        else
          ret (Responded (mkHttp 500 (ErrorResponse
                 (mkErrorBody
                    (if str_truthy (message error) then message error
                     else lit "Internal server error")
                    (lit "internal_error") (lit "internal_error"))))))%io).

End Server.

(* ================================================================== *)
(** * Part III. What the specification says, in its own words          *)
(* ================================================================== *)

(** The definitions of this part follow the specification, not the code;
    the theorems of Part IV compare them with the code. *)

Module Spec.

(** A message of a role other than [system]. *)
Definition non_system (m : Message) : bool :=
  match role m with
  | system => false
  | user | assistant => true
  end.

(** The turn sequence: the non-system messages, in order. *)
Definition turn_sequence (messages : list Message) : list Message :=
  filter non_system messages.

(** One message of the history block: field [role], then field
    [content], at the indentation of an array element. *)
Definition serialized_message (m : Message) : jsstring :=
  lit "  {" ++ [LF]
  ++ lit "    " ++ [DQUOTE] ++ lit "role" ++ [DQUOTE] ++ lit ": "
       ++ [DQUOTE] ++ Role_name (role m) ++ [DQUOTE] ++ lit "," ++ [LF]
  ++ lit "    " ++ [DQUOTE] ++ lit "content" ++ [DQUOTE] ++ lit ": "
       ++ QuoteJSONString (content m) ++ [LF]
  ++ lit "  }".

(** The history block: the messages in order, one after the other. *)
Definition serialized_history (history : list Message) : jsstring :=
  lit "[" ++ [LF] ++ join (lit "," ++ [LF]) (List.map serialized_message history)
  ++ [LF] ++ lit "]".

(** The same for a message object that has [content] before [role]. *)
Definition serialized_message_content_first (m : Message) : jsstring :=
  lit "  {" ++ [LF]
  ++ lit "    " ++ [DQUOTE] ++ lit "content" ++ [DQUOTE] ++ lit ": "
       ++ QuoteJSONString (content m) ++ lit "," ++ [LF]
  ++ lit "    " ++ [DQUOTE] ++ lit "role" ++ [DQUOTE] ++ lit ": "
       ++ [DQUOTE] ++ Role_name (role m) ++ [DQUOTE] ++ [LF]
  ++ lit "  }".

(** One message as the JSON text of the object it is, its own properties
    in their own order, at the indentation of an array element. *)
Definition serialized_object (m : Message) : jsstring :=
  lit "  " ++ SerializeJSONProperty (lit "  ") (lit "  ") (Message_value m).

(** The history block for message objects of any layout. *)
Definition serialized_objects (history : list Message) : jsstring :=
  lit "[" ++ [LF] ++ join (lit "," ++ [LF]) (List.map serialized_object history)
  ++ [LF] ++ lit "]".

(** A message object that holds [role] and [content] and nothing else. *)
Definition two_properties (m : Message) : Prop :=
  layout m = role_then_content \/ layout m = content_then_role.

Definition history_label : jsstring := lit "Conversation history:".

Definition current_label : jsstring := lit "Current user message: ".

(** Steps 4 and 5 of the prompt builder for a turn sequence of more than
    one element. *)
Definition payload_with_history (history : list Message) (current : Message)
  : jsstring :=
  history_label ++ [LF] ++ serialized_history history ++ [LF; LF]
  ++ current_label ++ content current.

(** The same payload for message objects of any layout. *)
Definition payload_with_objects (history : list Message) (current : Message)
  : jsstring :=
  history_label ++ [LF] ++ serialized_objects history ++ [LF; LF]
  ++ current_label ++ content current.

(** Step 1: the base system text, the content of the message with role
    [system] if there is one, and empty otherwise. *)
Definition base_system_text (messages : list Message) : jsstring :=
  match find (fun m => is_system (role m)) messages with
  | Some m => content m
  | None => []
  end.

(** Step 2: the effective system prompt for a base system text. *)
Definition effective_system_prompt (instruction base : jsstring) : jsstring :=
  match base with
  | [] => instruction
  | _ :: _ => base ++ [LF; LF] ++ instruction
  end.

(** Step 6 for a tool without a system channel. *)
Definition combined_prompt (system_prompt payload : jsstring) : jsstring :=
  lit "System instructions:" ++ [LF] ++ system_prompt ++ [LF; LF] ++ payload.

(** The least [k] with [n <= 4 * k]. *)
Definition is_ceil_quarter (n k : N) : Prop := (n <= 4 * k /\ 4 * k < n + 4)%N.

(** Already-clean text, for the plain-text normaliser: no unit that
    introduces an escape sequence (ESC or CSI), no carriage return, no
    line that starts, after optional white space, with a square bracket
    or a spinner glyph, and no white space at either end. *)
Fixpoint glyph_after_space (s : jsstring) : bool :=
  match s with
  | [] => false
  | c :: rest =>
      if ClaudeCode.spinner_glyph c then true
      else if isWhiteSpace c then glyph_after_space rest
      else false
  end.

Fixpoint no_spinner_start (prev : option N) (s : jsstring) : bool :=
  negb (at_line_start (prev, s) && glyph_after_space s)
  && match s with
     | [] => true
     | c :: rest => no_spinner_start (Some c) rest
     end.

Definition no_space_at_ends (s : jsstring) : bool :=
  match s with
  | [] => true
  | c :: _ => negb (isWhiteSpace c) && negb (isWhiteSpace (last s c))
  end.

Definition is_clean (s : jsstring) : bool :=
  forallb (fun c => negb (introducer c)) s
  && forallb (fun c => negb (N.eqb CR c)) s
  && no_spinner_start None s
  && no_space_at_ends s.

(** A child killed by the timeout signal, as the error object shows it. *)
Definition killed_by_timeout_signal (e : Error) : Prop :=
  killed e = true /\ signal e = Some (lit "SIGTERM").

(** The usage block of a handled request, when the answer has one. *)
Definition usage_of (outcome : State * result Server.Handled) : option Server.Usage :=
  match snd outcome with
  | Return (Server.Responded (Server.mkHttp _ (Server.ChatCompletion r))) =>
      Some (Server.usage r)
  | _ => None
  end.

Definition status_of (outcome : State * result Server.Handled) : option N :=
  match snd outcome with
  | Return (Server.Responded r) => Some (Server.status r)
  | _ => None
  end.

Definition error_body_of (outcome : State * result Server.Handled)
  : option Server.ErrorBody :=
  match snd outcome with
  | Return (Server.Responded (Server.mkHttp _ (Server.ErrorResponse e))) => Some e
  | _ => None
  end.

End Spec.
Import Spec.

(** Sample inputs, used where a statement is checked on a concrete case. *)

Module Examples.

(** The conversation of the end-to-end scenario. *)
Definition favourite_colour : list Message :=
  [mkMessage user (lit "My favorite color is blue");
   mkMessage assistant (lit "That's nice!");
   mkMessage user (lit "What is my favorite color?")].

(** The same conversation after a system message. *)
Definition favourite_colour_after_system : list Message :=
  mkMessage system (lit "You are a helpful assistant.") :: favourite_colour.

(** The same conversation, its first message sent as
    [{ content: ..., role: ... }]. *)
Definition content_before_role : list Message :=
  [message_object user (lit "My favorite color is blue") content_then_role;
   mkMessage assistant (lit "That's nice!");
   mkMessage user (lit "What is my favorite color?")].

Definition with_system_prompt : list Message :=
  [mkMessage system (lit "You are a helpful assistant.");
   mkMessage user (lit "Hello!")].

Definition with_empty_system_prompt : list Message :=
  [mkMessage system []; mkMessage user (lit "Hello!")].

Definition hello : list Message := [mkMessage user (lit "Hello!")].

Definition only_system : list Message :=
  [mkMessage system (lit "You are a helpful assistant.")].

(** A world whose children all print [stdout] and exit normally. *)
Definition printing (stdout : jsstring) : World :=
  mkWorld (fun _ => Exited stdout []) (fun n => 1700000000000 + Z.of_nat n)%Z
    (fun _ => lit "k3j9x0p2q").

(** The error of a child killed when its time is up. *)
Definition killed_error : Error :=
  mkError PlainError (lit "Command failed") true (Some (lit "SIGTERM")) None.

(** A world whose children are all killed when their time is up, after
    they printed [partial]. *)
Definition timing_out (partial : jsstring) : World :=
  mkWorld
    (fun _ => Failed killed_error partial [])
    (fun n => 1700000000000 + Z.of_nat n)%Z
    (fun _ => lit "k3j9x0p2q").

(** A world whose children all exit with code 1. *)
Definition failing : World :=
  mkWorld
    (fun _ => Failed (mkError PlainError (lit "Command failed: exit code 1") false
                        None None) [] (lit "boom"))
    (fun n => 1700000000000 + Z.of_nat n)%Z
    (fun _ => lit "k3j9x0p2q").

Definition claude : ClaudeCode.ClaudeCodeAdapter :=
  ClaudeCode.new (lit "/runtime/claude-code") None None.

Definition gemini : GeminiCLI.GeminiCLIAdapter :=
  GeminiCLI.new (lit "/runtime/gemini-cli") None None None.

Definition gemini_config : AdapterConfig :=
  mkAdapterConfig (lit "gemini-cli") (lit "/runtime/gemini-cli") 30000 false None.

Definition unknown_config : AdapterConfig :=
  mkAdapterConfig (lit "unknown") (lit "/runtime") 30000 false None.

Definition hello_request : Server.ChatCompletionRequest :=
  Server.mkRequest (lit "mock-model") (Server.MessageArray hello).

Definition hey_request : Server.ChatCompletionRequest :=
  Server.mkRequest [] (Server.MessageArray [mkMessage user (lit "hey")]).

(** A quoted JSON string. *)
Definition q (s : string) : jsstring := [DQUOTE] ++ lit s ++ [DQUOTE].

(** The three outputs of the structured-output scenario. *)
Definition candidates_AB : jsstring :=
  lit "{" ++ q "candidates" ++ lit ":[{" ++ q "content" ++ lit ":{" ++ q "parts"
  ++ lit ":[{" ++ q "text" ++ lit ":" ++ q "A" ++ lit "},{" ++ q "text" ++ lit ":"
  ++ q "B" ++ lit "}]}}]}".

Definition text_hello : jsstring :=
  lit "{" ++ q "text" ++ lit ":" ++ q "hello" ++ lit "}".

Definition plain_hello : jsstring := lit "hello".

(** A document whose [text] field is there and empty. *)
Definition empty_text_with_response : jsstring :=
  lit "{" ++ q "text" ++ lit ":" ++ q "" ++ lit "," ++ q "response" ++ lit ":"
  ++ q "fallback" ++ lit "}".

(** A document whose [text] field is a number. *)
Definition number_text : jsstring := lit "{" ++ q "text" ++ lit ":123}".

(** The shape the Gemini CLI prints with [--output-format json]. *)
Definition response_and_stats : jsstring :=
  lit "{" ++ q "response" ++ lit ":" ++ q "Hi there" ++ lit "," ++ q "stats"
  ++ lit ":{}}".

(** A nested array, as a tool prints it. *)
Definition nested_array_text : jsstring := lit "[[1,2],[3,4]]".

End Examples.

(** ** More of src/server.ts: the two GET routes *)

Module Routes.

Record HealthBody : Type := mkHealth { health_status : jsstring; health_adapter : jsstring }.

(** GET /health *)
Definition health (adapter : CLIAdapter) : HealthBody :=
  mkHealth (lit "ok") (getName adapter).

Record ModelEntry : Type := mkModelEntry {
  model_id : jsstring;
  model_object : jsstring;
  model_created : Z;
  owned_by : jsstring
}.

Record ModelList : Type := mkModelList { list_object : jsstring; data : list ModelEntry }.

(** GET /v1/models *)
Definition models (w : World) (adapter : CLIAdapter) : M ModelList :=
  (t <- now w ;;
   ret (mkModelList (lit "list")
          [mkModelEntry (getModelName adapter) (lit "model") (t / 1000)%Z
             (lit "cli-agent-openai-adapter")]))%io.

End Routes.

(** ** Notions the further theorems are stated with *)

Module Notions.

(** [Subsequence a b]: [a] is [b] with some elements left out. *)
Inductive Subsequence {A : Type} : list A -> list A -> Prop :=
| Sub_nil : Subsequence [] []
| Sub_keep x a b : Subsequence a b -> Subsequence (x :: a) (x :: b)
| Sub_drop x a b : Subsequence a b -> Subsequence a (x :: b).

(** What follows the carriage return that ends the line starting at [s],
    when that line ends with one. *)
Fixpoint after_carriage_return (s : jsstring) : option jsstring :=
  match s with
  | [] => None
  | c :: rest =>
      if N.eqb CR c then Some rest
      else if isLineTerminator c then None
      else after_carriage_return rest
  end.

(** Reading a message back from the object [Message_value] makes. *)
Definition Role_of_name (name : jsstring) : option Role :=
  if streq name (lit "system") then Some system
  else if streq name (lit "user") then Some user
  else if streq name (lit "assistant") then Some assistant
  else None.

Definition Message_of_value (v : value) : option Message :=
  match v with
  | VObj [(k1, VStr a); (k2, VStr b)] =>
      if streq k1 (lit "role") && streq k2 (lit "content") then
        match Role_of_name a with
        | Some r => Some (message_object r b role_then_content)
        | None => None
        end
      else if streq k1 (lit "content") && streq k2 (lit "role") then
        match Role_of_name b with
        | Some r => Some (message_object r a content_then_role)
        | None => None
        end
      else None
  | _ => None
  end.

Fixpoint Messages_of_values (vs : list value) : option (list Message) :=
  match vs with
  | [] => Some []
  | v :: rest =>
      match Message_of_value v, Messages_of_values rest with
      | Some m, Some ms => Some (m :: ms)
      | _, _ => None
      end
  end.

(** The messages a JSON text denotes, when it denotes a list of them. *)
Definition decode_messages (text : jsstring) : option (list Message) :=
  match JSON_parse text with
  | Return (VArr vs) => Messages_of_values vs
  | _ => None
  end.

(** The text one part of a Gemini candidate contributes:
    [String(part.text)] when [part.text] is truthy, the empty text when it
    is absent or falsy.  Reading [text] off [null] throws, and so does
    the conversion of an object that cannot be converted. *)
Definition part_text (part : value) : result jsstring :=
  (text <- get part (lit "text") ;;
   match text with
   | Some t => if truthy t then ToString t else Return []
   | None => Return []
   end)%js.

(** The texts of the parts, in order; the first error, if there is one. *)
Fixpoint parts_texts (parts : list value) : result (list jsstring) :=
  match parts with
  | [] => Return []
  | part :: rest =>
      (t <- part_text part ;;
       ts <- parts_texts rest ;;
       Return (t :: ts))%js
  end.

(** The completion a handled request was answered with, when it was. *)
Definition completion_of (outcome : State * result Server.Handled)
  : option Server.ChatCompletionResponse :=
  match snd outcome with
  | Return (Server.Responded (Server.mkHttp _ (Server.ChatCompletion r))) => Some r
  | _ => None
  end.

(** The greedy run of a class [p]: the longest run of units of [p] from
    [s] on after which [k] succeeds. *)
Fixpoint greedy {A : Type} (p : N -> bool) (k : input -> option A)
  (prev : option N) (s : jsstring) : option A :=
  match s with
  | c :: rest =>
      if p c then
        match greedy p k (Some c) rest with
        | Some a => Some a
        | None => k (prev, s)
        end
      else k (prev, s)
  | [] => k (prev, [])
  end.

(** [s] with every run of white space turned into one space; [in_run]
    says that the unit before [s] was white space. *)
Fixpoint collapse_spaces (in_run : bool) (s : jsstring) : jsstring :=
  match s with
  | [] => []
  | c :: rest =>
      if isWhiteSpace c then
        if in_run then collapse_spaces true rest
        else 32%N :: collapse_spaces true rest
      else c :: collapse_spaces false rest
  end.

(** No two white-space units next to each other. *)
Fixpoint single_spaced (s : jsstring) : bool :=
  match s with
  | c :: rest =>
      match rest with
      | d :: _ => negb (isWhiteSpace c && isWhiteSpace d)
      | [] => true
      end && single_spaced rest
  | [] => true
  end.

(** Every white-space unit is the space U+0020: no tab, no line break. *)
Definition only_plain_spaces (s : jsstring) : Prop :=
  Forall (fun c => isWhiteSpace c = true -> c = 32%N) s.

End Notions.
Import Notions.

(** More sample inputs. *)

Module MoreExamples.

(** Two message lists with the same first system text and the same turns. *)
Definition two_system_messages : list Message :=
  [mkMessage system (lit "Be brief.");
   mkMessage user (lit "Hello!");
   mkMessage system (lit "Be verbose.")].

Definition system_message_last : list Message :=
  [mkMessage user (lit "Hello!"); mkMessage system (lit "Be brief.")].

(** A conversation whose first turn holds a quote, a backslash, a line
    break and a lone surrogate, and was sent as [{ content, role }]. *)
Definition awkward_history : list Message :=
  [message_object user ([DQUOTE; 92; LF; 55357]%N ++ lit "x") content_then_role;
   mkMessage assistant (lit "ok");
   mkMessage user (lit "again")].

(** The configuration [loadConfig] gives by default. *)
Definition default_config : AdapterConfig :=
  mkAdapterConfig (lit "claude-code") (lit "/runtime/claude-code") 30000 false
    (Some (lit "haiku")).

Definition no_messages_request : Server.ChatCompletionRequest :=
  Server.mkRequest (lit "mock-model") Server.NotAnArray.

(** The error of a child that exited with code 1. *)
Definition exit_code_error : Error :=
  mkError PlainError (lit "Command failed: exit code 1") false None None.

(** A document whose parts hold a string, a number and no text. *)
Definition mixed_parts : jsstring :=
  lit "{" ++ Examples.q "candidates" ++ lit ":[{" ++ Examples.q "content" ++ lit ":{"
  ++ Examples.q "parts" ++ lit ":[{" ++ Examples.q "text" ++ lit ":" ++ Examples.q "A"
  ++ lit "},{" ++ Examples.q "text" ++ lit ":7},{}]}}]}".

(** A document that is [null], and one with a [null] among its parts. *)
Definition null_document : jsstring := lit "null".

Definition null_part : jsstring :=
  lit "{" ++ Examples.q "candidates" ++ lit ":[{" ++ Examples.q "content" ++ lit ":{"
  ++ Examples.q "parts" ++ lit ":[{" ++ Examples.q "text" ++ lit ":" ++ Examples.q "A"
  ++ lit "},null]}}]}".

End MoreExamples.

(* ================================================================== *)
(** * Part IV. Theorems                                                *)
(* ================================================================== *)
Module PromptFacts.

Import ClaudeCode.

Lemma join_indent (pre sep : jsstring) (parts : list jsstring) :
  parts <> [] ->
  pre ++ join (sep ++ pre) parts = join sep (List.map (app pre) parts).
Proof.
  induction parts as [|p rest IH]; [congruence|intros _].
  destruct rest as [|p' rest'].
  - reflexivity.
  - change (join (sep ++ pre) (p :: p' :: rest'))
      with (p ++ (sep ++ pre) ++ join (sep ++ pre) (p' :: rest')).
    change (join sep (List.map (app pre) (p :: p' :: rest')))
      with ((pre ++ p) ++ sep ++ join sep (List.map (app pre) (p' :: rest'))).
    rewrite <- IH by discriminate.
    now rewrite <- !app_assoc.
Qed.

Lemma quote_role (r : Role) :
  QuoteJSONString (Role_name r) = [DQUOTE] ++ Role_name r ++ [DQUOTE].
Proof. destruct r; reflexivity. Qed.

Lemma serialize_message (m : Message) :
  layout m = role_then_content -> serialized_object m = serialized_message m.
Proof.
  destruct m as [r c l]. cbn [layout]. intros ->.
  unfold serialized_object, serialized_message, Message_value, own_properties.
  cbn [role content layout role_then_content content_first front middle back app].
  destruct r; cbn; rewrite <- ?app_assoc; reflexivity.
Qed.

Lemma serialize_message_content_first (m : Message) :
  layout m = content_then_role ->
  serialized_object m = serialized_message_content_first m.
Proof.
  destruct m as [r c l]. cbn [layout]. intros ->.
  unfold serialized_object, serialized_message_content_first, Message_value,
    own_properties.
  cbn [role content layout content_then_role content_first front middle back app].
  destruct r; cbn; rewrite <- ?app_assoc; reflexivity.
Qed.

(** The history block is the array of the message objects, one element
    after the other, whatever their layout. *)
Lemma stringify_objects (history : list Message) :
  history <> [] ->
  JSON_stringify_indent 2 (Messages_value history) = serialized_objects history.
Proof.
  intros Hne.
  unfold JSON_stringify_indent, Messages_value, serialized_objects.
  change (repeat 32%N (Nat.min 2 10)) with (lit "  ").
  cbn [SerializeJSONProperty].
  rewrite List.map_map.
  destruct history as [|m rest]; [congruence|].
  cbn [List.map wrap_partial].
  change (str_truthy (lit "  ")) with true. cbv iota.
  change ([] ++ lit "  ") with (lit "  ").
  match goal with
  | |- context [join ?sep (?a :: ?l)] =>
      change (a :: l)
        with (List.map (fun x => SerializeJSONProperty (lit "  ") (lit "  ") (Message_value x))
                (m :: rest))
  end.
  change ([44%N; LF] ++ lit "  ") with ((lit "," ++ [LF]) ++ lit "  ").
  rewrite <- !app_assoc.
  f_equal. f_equal.
  change ([LF] ++ [] ++ lit "]") with ([LF] ++ lit "]").
  rewrite !app_assoc. f_equal.
  change (lit "," ++ [LF] ++ lit "  ") with ((lit "," ++ [LF]) ++ lit "  ").
  rewrite join_indent by discriminate.
  rewrite List.map_map. reflexivity.
Qed.

Lemma serialized_objects_role_first (history : list Message) :
  Forall (fun m => layout m = role_then_content) history ->
  serialized_objects history = serialized_history history.
Proof.
  intros Hall. unfold serialized_objects, serialized_history.
  assert (Hmap : List.map serialized_object history
                 = List.map serialized_message history).
  { induction Hall as [|m rest Hm _ IH]; [reflexivity|].
    cbn [List.map]. now rewrite IH, (serialize_message _ Hm). }
  now rewrite Hmap.
Qed.

Lemma stringify_history (history : list Message) :
  Forall (fun m => layout m = role_then_content) history ->
  history <> [] ->
  JSON_stringify_indent 2 (Messages_value history) = serialized_history history.
Proof.
  intros Hall Hne. rewrite stringify_objects by assumption.
  now apply serialized_objects_role_first.
Qed.

(** The messages the builders keep are the turn sequence. *)
Lemma turns_of_filter (messages : list Message) :
  filter (fun m => negb (is_system (role m))) messages = turn_sequence messages.
Proof.
  unfold turn_sequence. apply filter_ext. intros m. unfold non_system.
  destruct (role m); reflexivity.
Qed.

Lemma find_first (p : Message -> bool) (before after : list Message) (m : Message) :
  Forall (fun x => p x = false) before -> p m = true ->
  find p (before ++ m :: after) = Some m.
Proof.
  induction 1 as [|x l Hx _ IH]; intros Hm; cbn.
  - now rewrite Hm.
  - rewrite Hx. now apply IH.
Qed.

Lemma find_none (p : Message -> bool) (l : list Message) :
  Forall (fun x => p x = false) l -> find p l = None.
Proof. induction 1 as [|x l Hx _ IH]; cbn; [reflexivity|now rewrite Hx]. Qed.

Lemma claude_system_prompt (messages : list Message) :
  systemPrompt (buildClaudeCodeCommand messages)
  = effective_system_prompt CONVERSATION_SYSTEM_PROMPT (base_system_text messages).
Proof.
  unfold buildClaudeCodeCommand, base_system_text, effective_system_prompt.
  cbn [systemPrompt].
  destruct (find _ messages) as [m|]; [|reflexivity].
  destruct (content m); reflexivity.
Qed.

Lemma gemini_layout (messages : list Message) :
  GeminiCLI.buildGeminiPrompt messages
  = combined_prompt
      (effective_system_prompt GeminiCLI.CONVERSATION_SYSTEM_PROMPT
         (base_system_text messages))
      (userPrompt (buildClaudeCodeCommand messages)).
Proof.
  unfold GeminiCLI.buildGeminiPrompt, buildClaudeCodeCommand, combined_prompt,
    effective_system_prompt, base_system_text.
  cbn [userPrompt].
  set (turns := filter _ messages).
  destruct (find _ messages) as [m|]; [destruct (content m)|];
    destruct (1 <? List.length turns)%nat;
    destruct (at_index turns _);
    cbn [str_truthy]; rewrite <- ?app_assoc; reflexivity.
Qed.

Lemma slice_all_but_last (A : Type) (l : list A) (x : A) :
  slice_0_minus1 (l ++ [x]) = l.
Proof.
  unfold slice_0_minus1. rewrite length_app. cbn [List.length].
  replace (Z.to_nat (Z.max (Z.of_nat (List.length l + 1) - 1) 0)) with (List.length l) by lia.
  rewrite firstn_app, firstn_all, Nat.sub_diag. cbn. apply app_nil_r.
Qed.

Lemma at_last_index (A : Type) (l : list A) (x : A) :
  at_index (l ++ [x]) (Z.of_nat (List.length (l ++ [x])) - 1) = Some x.
Proof.
  unfold at_index. rewrite length_app. cbn [List.length].
  destruct (Z.ltb_spec (Z.of_nat (List.length l + 1) - 1) 0); [lia|].
  replace (Z.to_nat (Z.of_nat (List.length l + 1) - 1)) with (List.length l) by lia.
  rewrite nth_error_app2, Nat.sub_diag by lia. reflexivity.
Qed.

Lemma user_prompt_with_objects (messages history : list Message) (current : Message) :
  turn_sequence messages = history ++ [current] -> history <> [] ->
  userPrompt (buildClaudeCodeCommand messages) = payload_with_objects history current.
Proof.
  intros Hturns Hne.
  unfold buildClaudeCodeCommand. cbn [userPrompt].
  rewrite (turns_of_filter messages).
  rewrite Hturns, at_last_index, slice_all_but_last.
  assert (Hlen : (1 <? List.length (history ++ [current]))%nat = true).
  { apply Nat.ltb_lt. rewrite length_app. cbn.
    destruct history; [congruence|cbn; lia]. }
  rewrite Hlen, stringify_objects by assumption.
  unfold payload_with_objects.
  repeat (progress (cbn [app]; rewrite <- ?app_assoc)). reflexivity.
Qed.

Lemma payload_role_first (history : list Message) (current : Message) :
  Forall (fun m => layout m = role_then_content) history ->
  payload_with_objects history current = payload_with_history history current.
Proof.
  intros Hall. unfold payload_with_objects, payload_with_history.
  now rewrite serialized_objects_role_first.
Qed.

Lemma user_prompt_single (messages : list Message) (current : Message) :
  turn_sequence messages = [current] ->
  userPrompt (buildClaudeCodeCommand messages) = current_label ++ content current.
Proof.
  intros Hturns.
  unfold buildClaudeCodeCommand. cbn [userPrompt].
  rewrite (turns_of_filter messages).
  rewrite Hturns. reflexivity.
Qed.

Lemma user_prompt_empty (messages : list Message) :
  turn_sequence messages = [] ->
  userPrompt (buildClaudeCodeCommand messages) = [].
Proof.
  intros Hturns.
  unfold buildClaudeCodeCommand. cbn [userPrompt].
  rewrite (turns_of_filter messages).
  rewrite Hturns. reflexivity.
Qed.

Lemma split_last (A : Type) (l : list A) :
  (0 < List.length l)%nat ->
  exists x, nth_error l (List.length l - 1) = Some x
            /\ l = firstn (List.length l - 1) l ++ [x].
Proof.
  intros Hlen.
  destruct (exists_last (l := l)) as [l' [x ->]].
  { destruct l; [cbn in Hlen; lia|discriminate]. }
  exists x. rewrite length_app. cbn [List.length].
  replace (List.length l' + 1 - 1)%nat with (List.length l') by lia.
  rewrite nth_error_app2, Nat.sub_diag by lia.
  rewrite firstn_app, firstn_all, Nat.sub_diag. cbn. now rewrite app_nil_r.
Qed.

End PromptFacts.

(** ** Prompt builder (claims C1, C6, C7, C10) *)

Module PromptTheorems.

Import ClaudeCode PromptFacts.

(** C1, as stated, fails: the builders serialise the message objects they
    are given, so a message sent as [{ content: ..., role: ... }] is in the
    history block with [content] before [role]. *)
Lemma history_keeps_the_order_of_the_properties :
  let messages := Examples.content_before_role in
  let first_turn :=
    lit "  {" ++ [LF]
    ++ lit "    " ++ Examples.q "content" ++ lit ": "
         ++ Examples.q "My favorite color is blue" ++ lit "," ++ [LF]
    ++ lit "    " ++ Examples.q "role" ++ lit ": " ++ Examples.q "user" ++ [LF]
    ++ lit "  }" in
  let second_turn :=
    lit "  {" ++ [LF]
    ++ lit "    " ++ Examples.q "role" ++ lit ": " ++ Examples.q "assistant"
         ++ lit "," ++ [LF]
    ++ lit "    " ++ Examples.q "content" ++ lit ": " ++ Examples.q "That's nice!" ++ [LF]
    ++ lit "  }" in
  turn_sequence messages = messages
  /\ userPrompt (buildClaudeCodeCommand messages)
     = lit "Conversation history:" ++ [LF]
       ++ lit "[" ++ [LF] ++ first_turn ++ lit "," ++ [LF] ++ second_turn ++ [LF]
       ++ lit "]" ++ [LF; LF]
       ++ lit "Current user message: What is my favorite color?"
  /\ userPrompt (buildClaudeCodeCommand messages)
     <> payload_with_history (firstn 2 messages)
          (mkMessage user (lit "What is my favorite color?")).
Proof.
  cbv zeta. split; [reflexivity|]. split; [vm_compute; reflexivity|].
  vm_compute. discriminate.
Qed.

(** C1, amended.  When the turn sequence has N > 1 elements, the user
    payload is the label "Conversation history:", a line break, the first
    N-1 turns as a JSON array in their order, each turn the object it was
    sent as, its own properties in their own order, a blank line, and
    "Current user message: " followed by the content of the N-th turn as
    it is.  An object sent as [{ role, content }] is written with field
    [role] before field [content], an object sent as [{ content, role }]
    with [content] before [role]; when all N-1 turns were sent as
    [{ role, content }] the payload is the one of the specification.  The
    Claude builder returns that payload; the Gemini builder returns it
    after its system-instructions section. *)
Theorem history_block_then_current_message :
  forall messages : list Message,
    let turns := turn_sequence messages in
    let n := List.length turns in
    (1 < n)%nat ->
    exists current : Message,
      nth_error turns (n - 1) = Some current
      /\ userPrompt (buildClaudeCodeCommand messages)
         = payload_with_objects (firstn (n - 1) turns) current
      /\ GeminiCLI.buildGeminiPrompt messages
         = combined_prompt
             (effective_system_prompt GeminiCLI.CONVERSATION_SYSTEM_PROMPT
                (base_system_text messages))
             (payload_with_objects (firstn (n - 1) turns) current)
      /\ (forall m : Message,
             (layout m = role_then_content ->
              serialized_object m = serialized_message m)
             /\ (layout m = content_then_role ->
                 serialized_object m = serialized_message_content_first m))
      /\ (Forall (fun m => layout m = role_then_content) (firstn (n - 1) turns) ->
          userPrompt (buildClaudeCodeCommand messages)
          = payload_with_history (firstn (n - 1) turns) current
          /\ GeminiCLI.buildGeminiPrompt messages
             = combined_prompt
                 (effective_system_prompt GeminiCLI.CONVERSATION_SYSTEM_PROMPT
                    (base_system_text messages))
                 (payload_with_history (firstn (n - 1) turns) current)).
Proof.
  intros messages turns n Hn.
  destruct (split_last turns) as [current [Hnth Hsplit]]; [fold n; lia|].
  fold n in Hnth, Hsplit.
  assert (Hhist : firstn (n - 1) turns <> []).
  { intros Hnil. apply (f_equal (@List.length _)) in Hnil.
    rewrite length_firstn in Hnil. fold n in Hnil. cbn in Hnil. lia. }
  assert (Hclaude : userPrompt (buildClaudeCodeCommand messages)
                    = payload_with_objects (firstn (n - 1) turns) current).
  { apply user_prompt_with_objects; assumption. }
  assert (Hgemini : GeminiCLI.buildGeminiPrompt messages
                    = combined_prompt
                        (effective_system_prompt GeminiCLI.CONVERSATION_SYSTEM_PROMPT
                           (base_system_text messages))
                        (payload_with_objects (firstn (n - 1) turns) current)).
  { rewrite gemini_layout, Hclaude. reflexivity. }
  exists current.
  split; [exact Hnth|]. split; [exact Hclaude|]. split; [exact Hgemini|]. split.
  - intros m. split; [apply serialize_message|apply serialize_message_content_first].
  - intros Hall. rewrite Hclaude, Hgemini.
    rewrite (payload_role_first current Hall). split; reflexivity.
Qed.

(** C7. When the turn sequence has exactly one element, the user payload
    is "Current user message: " followed by that element's content and
    nothing else: the words "Conversation history:" occur in it only if
    the content itself carries them. *)
Theorem single_turn_has_no_history_block :
  forall messages : list Message,
    List.length (turn_sequence messages) = 1%nat ->
    exists current : Message,
      turn_sequence messages = [current]
      /\ userPrompt (buildClaudeCodeCommand messages)
         = current_label ++ content current
      /\ GeminiCLI.buildGeminiPrompt messages
         = combined_prompt
             (effective_system_prompt GeminiCLI.CONVERSATION_SYSTEM_PROMPT
                (base_system_text messages))
             (current_label ++ content current)
      /\ includes (userPrompt (buildClaudeCodeCommand messages)) history_label
         = includes (content current) history_label.
Proof.
  intros messages Hlen.
  destruct (turn_sequence messages) as [|current [|x rest]] eqn:Hturns;
    try discriminate.
  exists current.
  pose proof (user_prompt_single messages Hturns) as Hclaude.
  repeat split.
  - exact Hclaude.
  - rewrite gemini_layout, Hclaude. reflexivity.
  - rewrite Hclaude. reflexivity.
Qed.

(** C10. When every message has role [system], the builders return and
    leave the current-message line out: the Claude user payload is the
    empty string, and the Gemini prompt is its system-instructions
    section alone. *)
Theorem empty_turn_sequence_omits_current_line :
  forall messages : list Message,
    Forall (fun m => role m = system) messages ->
    userPrompt (buildClaudeCodeCommand messages) = []
    /\ GeminiCLI.buildGeminiPrompt messages
       = lit "System instructions:" ++ [LF]
         ++ effective_system_prompt GeminiCLI.CONVERSATION_SYSTEM_PROMPT
              (base_system_text messages)
         ++ [LF; LF].
Proof.
  intros messages Hall.
  assert (Hturns : turn_sequence messages = []).
  { unfold turn_sequence. induction Hall as [|m l Hm _ IH]; [reflexivity|].
    cbn. unfold non_system at 1. rewrite Hm. exact IH. }
  pose proof (user_prompt_empty messages Hturns) as Hclaude.
  split; [exact Hclaude|].
  rewrite gemini_layout, Hclaude. unfold combined_prompt.
  now rewrite app_nil_r.
Qed.

(** C6. The effective system prompt is the content of the first message
    of role [system], a blank line and the fixed instruction when that
    content is not empty, and the fixed instruction alone when the
    content is empty or no message has role [system].  The Claude builder
    returns it as [systemPrompt]; the Gemini builder places it in its
    system-instructions section, ahead of the user payload. *)
Theorem effective_system_prompt_composition :
  (forall (before after : list Message) (m : Message),
      Forall (fun x => role x <> system) before -> role m = system ->
      let messages := before ++ m :: after in
      (content m <> [] ->
       systemPrompt (buildClaudeCodeCommand messages)
         = content m ++ [LF; LF] ++ CONVERSATION_SYSTEM_PROMPT
       /\ GeminiCLI.buildGeminiPrompt messages
          = combined_prompt
              (content m ++ [LF; LF] ++ GeminiCLI.CONVERSATION_SYSTEM_PROMPT)
              (userPrompt (buildClaudeCodeCommand messages)))
      /\ (content m = [] ->
          systemPrompt (buildClaudeCodeCommand messages) = CONVERSATION_SYSTEM_PROMPT
          /\ GeminiCLI.buildGeminiPrompt messages
             = combined_prompt GeminiCLI.CONVERSATION_SYSTEM_PROMPT
                 (userPrompt (buildClaudeCodeCommand messages))))
  /\ (forall messages : list Message,
         Forall (fun x => role x <> system) messages ->
         systemPrompt (buildClaudeCodeCommand messages) = CONVERSATION_SYSTEM_PROMPT
         /\ GeminiCLI.buildGeminiPrompt messages
            = combined_prompt GeminiCLI.CONVERSATION_SYSTEM_PROMPT
                (userPrompt (buildClaudeCodeCommand messages))).
Proof.
  assert (Hnot : forall l : list Message,
             Forall (fun x => role x <> system) l ->
             Forall (fun x => is_system (role x) = false) l).
  { intros l H. eapply Forall_impl; [|exact H].
    intros x Hx. cbn in Hx. destruct (role x); cbn; congruence. }
  split.
  - intros before after m Hbefore Hm messages.
    assert (Hbase : base_system_text messages = content m).
    { unfold base_system_text, messages.
      rewrite (@find_first (fun x => is_system (role x)) before after m); auto.
      now rewrite Hm. }
    rewrite claude_system_prompt, gemini_layout, Hbase.
    unfold effective_system_prompt.
    split; intros Hc; destruct (content m); try congruence; split; reflexivity.
  - intros messages Hall.
    assert (Hbase : base_system_text messages = []).
    { unfold base_system_text. now rewrite find_none by auto. }
    rewrite claude_system_prompt, gemini_layout, Hbase. split; reflexivity.
Qed.

End PromptTheorems.

(** ** Adapter factory (claim C8) *)

Module FactoryTheorems.

Import AdapterFactory.

Lemma starts_with_self (t rest : jsstring) : starts_with t (t ++ rest) = true.
Proof. induction t as [|c t IH]; cbn; [reflexivity|]. now rewrite N.eqb_refl. Qed.

Lemma includes_suffix (prefix t : jsstring) : includes (prefix ++ t) t = true.
Proof.
  induction prefix as [|c p IH]; cbn [app].
  - destruct t; cbn; [reflexivity|].
    rewrite N.eqb_refl.
    rewrite <- (app_nil_r t) at 2. now rewrite starts_with_self.
  - cbn [includes]. destruct (starts_with t (c :: p ++ t)); [reflexivity|exact IH].
Qed.

Lemma streq_false (a b : jsstring) : a <> b -> streq a b = false.
Proof. intros H. unfold streq. destruct (jsstring_eq_dec a b); congruence. Qed.

Lemma streq_true (a b : jsstring) : streq a b = true -> a = b.
Proof. unfold streq. destruct (jsstring_eq_dec a b); congruence. Qed.

(** C8, as stated, fails: for the kind [gemini-cli] the factory throws at
    once, but the message, "Gemini CLI adapter not yet implemented",
    does not contain the requested kind. *)
Lemma not_implemented_message_omits_kind :
  type Examples.gemini_config <> lit "claude-code"
  /\ create (Examples.printing []) Examples.gemini_config
     = Throw (new_error PlainError (lit "Gemini CLI adapter not yet implemented"))
  /\ includes (lit "Gemini CLI adapter not yet implemented")
       (type Examples.gemini_config) = false.
Proof. repeat split. discriminate. Qed.

(** C8, amended.  For every kind other than [claude-code] the factory
    throws when it is called, and returns no adapter.  For a kind it
    does not know the message is "Unknown adapter type: " followed by the
    kind; for [codex] and [gemini-cli] it is a fixed text, "Codex adapter
    not yet implemented" or "Gemini CLI adapter not yet implemented". *)
Theorem unknown_kind_fails_at_construction :
  forall (w : World) (config : AdapterConfig),
    type config <> lit "claude-code" ->
    exists e : Error,
      create w config = Throw e
      /\ error_class e = PlainError
      /\ (type config = lit "codex" ->
          message e = lit "Codex adapter not yet implemented")
      /\ (type config = lit "gemini-cli" ->
          message e = lit "Gemini CLI adapter not yet implemented")
      /\ (type config <> lit "codex" -> type config <> lit "gemini-cli" ->
          message e = lit "Unknown adapter type: " ++ type config
          /\ includes (message e) (type config) = true).
Proof.
  intros w config Hkind. unfold create.
  rewrite (streq_false Hkind).
  destruct (streq (type config) (lit "codex")) eqn:Hcodex.
  { apply streq_true in Hcodex. eexists. split; [reflexivity|].
    repeat split; try reflexivity; intros; try congruence.
    rewrite Hcodex in *. discriminate. }
  destruct (streq (type config) (lit "gemini-cli")) eqn:Hgemini.
  { apply streq_true in Hgemini. eexists. split; [reflexivity|].
    repeat split; try reflexivity; intros; try congruence.
    rewrite Hgemini in *. discriminate. }
  eexists. split; [reflexivity|]. cbn [error_class message new_error].
  repeat split; intros.
  - subst. unfold streq in Hcodex. destruct (jsstring_eq_dec _ _); congruence.
  - unfold streq in Hgemini. destruct (jsstring_eq_dec _ _); congruence.
  - apply includes_suffix.
Qed.

End FactoryTheorems.

(** ** Subprocess failures and their HTTP status (claims C2, C3, C9) *)

Module ExecutionFacts.

Lemma sigterm_test (e : Error) :
  killed e
  && match signal e with Some sg => streq sg (lit "SIGTERM") | None => false end = true
  <-> killed_by_timeout_signal e.
Proof.
  unfold killed_by_timeout_signal. rewrite andb_true_iff.
  split; intros [Hk Hs]; split; try assumption.
  - destruct (signal e) as [sg|]; [|discriminate].
    unfold streq in Hs. destruct (jsstring_eq_dec sg (lit "SIGTERM")); congruence.
  - rewrite Hs. unfold streq. destruct (jsstring_eq_dec _ _); congruence.
Qed.

Lemma sigterm_test_false (e : Error) :
  ~ killed_by_timeout_signal e ->
  killed e
  && match signal e with Some sg => streq sg (lit "SIGTERM") | None => false end = false.
Proof.
  intros H. destruct (_ && _) eqn:E; [|reflexivity].
  apply sigterm_test in E. contradiction.
Qed.

Lemma claude_failure (w : World) (self : ClaudeCode.ClaudeCodeAdapter)
  (messages : list Message) (err : Error) (out errtext : jsstring) (st : State) :
  child_process w (ClaudeCode.invocation self (ClaudeCode.buildClaudeCodeCommand messages))
  = Failed err out errtext ->
  snd (ClaudeCode.execute w self messages st)
  = if killed err
       && match signal err with Some sg => streq sg (lit "SIGTERM") | None => false end
    then Throw (new_error ClaudeCode.TimeoutError (lit "Claude Code execution timed out"))
    else Throw (attach_stderr err errtext).
Proof.
  intros Hchild.
  unfold ClaudeCode.execute, mbind, try_catch_M, execFile, when.
  rewrite Hchild.
  destruct (ClaudeCode.debug self); cbn;
    destruct (killed err && _); reflexivity.
Qed.

Lemma gemini_failure (w : World) (self : GeminiCLI.GeminiCLIAdapter)
  (messages : list Message) (err : Error) (out errtext : jsstring) (st : State) :
  child_process w (GeminiCLI.invocation self (GeminiCLI.buildGeminiPrompt messages))
  = Failed err out errtext ->
  snd (GeminiCLI.execute w self messages st)
  = if killed err
       && match signal err with Some sg => streq sg (lit "SIGTERM") | None => false end
    then Throw (new_error GeminiCLI.TimeoutError (lit "Gemini CLI execution timed out"))
    else Throw (attach_stderr err errtext).
Proof.
  intros Hchild.
  unfold GeminiCLI.execute, mbind, try_catch_M, execFile, when.
  rewrite Hchild.
  destruct (GeminiCLI.debug self); cbn;
    destruct (killed err && _); reflexivity.
Qed.

Lemma estimateTokens_ceil (text : jsstring) :
  is_ceil_quarter (N.of_nat (List.length text)) (Server.estimateTokens text).
Proof.
  unfold is_ceil_quarter, Server.estimateTokens.
  set (n := N.of_nat (List.length text)).
  assert (Hdiv : n = (4 * (n / 4) + n mod 4)%N) by (apply N.div_mod; lia).
  assert (Hmod : (n mod 4 < 4)%N) by (apply N.mod_lt; lia).
  clearbody n.
  destruct (N.eqb_spec (n mod 4) 0); cbv iota;
    set (q := (n / 4)%N) in *; set (r := (n mod 4)%N) in *; clearbody q r; lia.
Qed.

(** What the handler answers when the adapter throws. *)
Lemma handler_on_throw (w : World) (adapter : CLIAdapter)
  (request : Server.ChatCompletionRequest) (ms : list Message)
  (st st1 : State) (e : Error) :
  Server.messages request = Server.MessageArray ms -> ms <> [] ->
  execute adapter ms st = (st1, Throw e) ->
  snd (Server.chat_completions w adapter request st)
  = Return (Server.Responded
      (if instanceof e ClaudeCode.TimeoutError
       then Server.mkHttp 504 (Server.ErrorResponse
              (Server.mkErrorBody (message e) (lit "timeout_error") (lit "timeout")))
       else Server.mkHttp 500 (Server.ErrorResponse
              (Server.mkErrorBody
                 (if str_truthy (message e) then message e
                  else lit "Internal server error")
                 (lit "internal_error") (lit "internal_error"))))).
Proof.
  intros Hreq Hne Hexec.
  unfold Server.chat_completions, try_catch_M, mbind. rewrite Hreq.
  destruct ms as [|m ms']; [congruence|]. cbn [List.length Nat.eqb].
  rewrite Hexec. unfold console_write, ret.
  destruct (instanceof e ClaudeCode.TimeoutError); reflexivity.
Qed.

(** What the handler answers when the adapter returns a text. *)
Lemma handler_on_text (w : World) (adapter : CLIAdapter)
  (request : Server.ChatCompletionRequest) (ms : list Message)
  (st st1 : State) (text : jsstring) :
  Server.messages request = Server.MessageArray ms -> ms <> [] ->
  execute adapter ms st = (st1, Return (VStr text)) ->
  exists new_id created,
    snd (Server.chat_completions w adapter request st)
    = Return (Server.Responded (Server.mkHttp 200 (Server.ChatCompletion
        (Server.mkResponse new_id (lit "chat.completion") created
           (if str_truthy (Server.model request) then Server.model request
            else getModelName adapter)
           [Server.mkChoice 0 (lit "assistant") text (lit "stop")]
           (Server.mkUsage
              (Server.estimateTokens (JSON_stringify (Messages_value ms)))
              (Server.estimateTokens text)
              (Server.estimateTokens (JSON_stringify (Messages_value ms) ++ text))))))).
Proof.
  intros Hreq Hne Hexec.
  unfold Server.chat_completions, try_catch_M, mbind. rewrite Hreq.
  destruct ms as [|m ms']; [congruence|]. cbn [List.length Nat.eqb].
  rewrite Hexec. unfold Server.generateId, mbind, now, random, ret. cbn.
  eexists. eexists. reflexivity.
Qed.

(** Whatever the request, a Gemini child killed at its timeout is
    answered with status 500. *)
Lemma gemini_timeout_is_internal_error (w : World) (self : GeminiCLI.GeminiCLIAdapter)
  (request : Server.ChatCompletionRequest) (ms : list Message) (st : State)
  (err : Error) (out errtext : jsstring) :
  Server.messages request = Server.MessageArray ms -> ms <> [] ->
  child_process w (GeminiCLI.invocation self (GeminiCLI.buildGeminiPrompt ms))
  = Failed err out errtext ->
  killed_by_timeout_signal err ->
  snd (Server.chat_completions w (GeminiCLI.adapter w self) request st)
  = Return (Server.Responded (Server.mkHttp 500 (Server.ErrorResponse
      (Server.mkErrorBody (lit "Gemini CLI execution timed out")
         (lit "internal_error") (lit "internal_error"))))).
Proof.
  intros Hreq Hne Hchild Hkilled.
  pose proof (@gemini_failure w self ms err out errtext st Hchild) as Hthrown.
  apply sigterm_test in Hkilled. rewrite Hkilled in Hthrown.
  destruct (GeminiCLI.execute w self ms st) as [st1 outcome] eqn:Hexec.
  cbn [snd] in Hthrown. subst outcome.
  rewrite (@handler_on_throw w (GeminiCLI.adapter w self) request ms st st1 _
             Hreq Hne Hexec).
  reflexivity.
Qed.

End ExecutionFacts.

Module ExecutionTheorems.

Import ExecutionFacts.

(** C2. When the subprocess of [execute] fails with an error marked as
    killed by the signal SIGTERM, [execute] throws the adapter's
    TimeoutError with the message "Claude Code execution timed out" or
    "Gemini CLI execution timed out", whatever the child printed before;
    when it fails in any other way, [execute] throws the child's error,
    its message unchanged. *)
Theorem killed_child_surfaces_as_timeout :
  forall (w : World) (messages : list Message) (err : Error)
         (out errtext : jsstring) (st : State),
    (forall self : ClaudeCode.ClaudeCodeAdapter,
        child_process w
          (ClaudeCode.invocation self (ClaudeCode.buildClaudeCodeCommand messages))
        = Failed err out errtext ->
        (killed_by_timeout_signal err ->
         snd (ClaudeCode.execute w self messages st)
         = Throw (new_error ClaudeCode.TimeoutError
                    (lit "Claude Code execution timed out")))
        /\ (~ killed_by_timeout_signal err ->
            snd (ClaudeCode.execute w self messages st)
            = Throw (attach_stderr err errtext)
            /\ message (attach_stderr err errtext) = message err))
    /\ (forall self : GeminiCLI.GeminiCLIAdapter,
           child_process w
             (GeminiCLI.invocation self (GeminiCLI.buildGeminiPrompt messages))
           = Failed err out errtext ->
           (killed_by_timeout_signal err ->
            snd (GeminiCLI.execute w self messages st)
            = Throw (new_error GeminiCLI.TimeoutError
                       (lit "Gemini CLI execution timed out")))
           /\ (~ killed_by_timeout_signal err ->
               snd (GeminiCLI.execute w self messages st)
               = Throw (attach_stderr err errtext)
               /\ message (attach_stderr err errtext) = message err)).
Proof.
  intros w messages err out errtext st. split; intros self Hchild.
  - rewrite (claude_failure _ _ _ st Hchild). split.
    + intros Hk. apply sigterm_test in Hk. now rewrite Hk.
    + intros Hk. rewrite (sigterm_test_false Hk). split; reflexivity.
  - rewrite (gemini_failure _ _ _ st Hchild). split.
    + intros Hk. apply sigterm_test in Hk. now rewrite Hk.
    + intros Hk. rewrite (sigterm_test_false Hk). split; reflexivity.
Qed.

(** C3.  The handler answers 504 to a timeout thrown by the Claude
    adapter, but 500 to a timeout thrown by the Gemini adapter: it tests
    the error against the TimeoutError class of claude_code.ts, and the
    class of the same name in gemini_cli.ts is another class. *)
Theorem gemini_timeout_answers_500 :
  let w := Examples.timing_out [] in
  snd (Server.chat_completions w (ClaudeCode.adapter w Examples.claude)
         Examples.hello_request initial)
  = Return (Server.Responded (Server.mkHttp 504 (Server.ErrorResponse
      (Server.mkErrorBody (lit "Claude Code execution timed out")
         (lit "timeout_error") (lit "timeout")))))
  /\ snd (Server.chat_completions w (GeminiCLI.adapter w Examples.gemini)
            Examples.hello_request initial)
     = Return (Server.Responded (Server.mkHttp 500 (Server.ErrorResponse
         (Server.mkErrorBody (lit "Gemini CLI execution timed out")
            (lit "internal_error") (lit "internal_error"))))).
Proof. split; vm_compute; reflexivity. Qed.

(** C9, as stated, fails: for the one message "hey" answered by "x" the
    usage block is 9, 1 and 9, and 9 is not 9 + 1. *)
Lemma total_tokens_is_not_the_sum :
  let w := Examples.printing (lit "x") in
  usage_of (Server.chat_completions w (ClaudeCode.adapter w Examples.claude)
              Examples.hey_request initial)
  = Some (Server.mkUsage 9 1 9)
  /\ (9 <> 9 + 1)%N.
Proof. split; [vm_compute; reflexivity|lia]. Qed.

(** C9, amended.  For every request the adapter answers with a text, the
    response has status 200 and its usage block holds
    [ceil(length(serialised messages) / 4)] as prompt tokens,
    [ceil(length(text) / 4)] as completion tokens, and as total tokens
    [ceil((length(serialised messages) + length(text)) / 4)], the estimate
    of the two texts put together; the total is the sum of the two
    others or one less. *)
Theorem usage_block_estimates :
  forall (w : World) (adapter : CLIAdapter) (request : Server.ChatCompletionRequest)
         (ms : list Message) (text : jsstring) (st st1 : State),
    Server.messages request = Server.MessageArray ms -> ms <> [] ->
    execute adapter ms st = (st1, Return (VStr text)) ->
    let serialised := JSON_stringify (Messages_value ms) in
    status_of (Server.chat_completions w adapter request st) = Some 200%N
    /\ exists u : Server.Usage,
        usage_of (Server.chat_completions w adapter request st) = Some u
        /\ is_ceil_quarter (N.of_nat (List.length serialised)) (Server.prompt_tokens u)
        /\ is_ceil_quarter (N.of_nat (List.length text)) (Server.completion_tokens u)
        /\ is_ceil_quarter (N.of_nat (List.length serialised + List.length text))
             (Server.total_tokens u)
        /\ (Server.total_tokens u <= Server.prompt_tokens u + Server.completion_tokens u
            <= Server.total_tokens u + 1)%N.
Proof.
  intros w adapter request ms text st st1 Hreq Hne Hexec serialised.
  destruct (handler_on_text w adapter request st Hreq Hne Hexec)
    as [new_id [created Hresp]].
  unfold status_of, usage_of. rewrite Hresp.
  cbn [Server.status Server.usage].
  split; [reflexivity|]. eexists. split; [reflexivity|].
  cbn [Server.prompt_tokens Server.completion_tokens Server.total_tokens].
  fold serialised.
  pose proof (estimateTokens_ceil serialised) as Hp.
  pose proof (estimateTokens_ceil text) as Hc.
  pose proof (estimateTokens_ceil (serialised ++ text)) as Ht.
  rewrite length_app in Ht.
  unfold is_ceil_quarter in *.
  set (p := Server.estimateTokens serialised) in *.
  set (c := Server.estimateTokens text) in *.
  set (t := Server.estimateTokens (serialised ++ text)) in *.
  clearbody p c t. repeat split; lia.
Qed.

End ExecutionTheorems.

(** ** Plain-text normaliser (claim C5) *)

Module RegexFacts.

(** The matcher only succeeds along a declarative match. *)
Lemma run_sound (A : Type) (r : regex) :
  forall (st : input) (k : input -> option A) (a : A),
    run r st k = Some a ->
    exists st', Matches r st st' /\ k st' = Some a.
Proof.
  induction r as [|p| |r1 IH1 r2 IH2|r1 IH1 r2 IH2|r1 IH1|r1 IH1];
    intros st k a Hrun; cbn [run] in Hrun.
  - exists st. split; [constructor|assumption].
  - destruct st as [prev [|c rest]]; cbn in Hrun; [discriminate|].
    destruct (p c) eqn:Hp; [|discriminate].
    exists (Some c, rest). split; [now constructor|assumption].
  - destruct (at_line_start st) eqn:Hls; [|discriminate].
    exists st. split; [now constructor|assumption].
  - apply IH1 in Hrun as [st1 [H1 Hrun]].
    apply IH2 in Hrun as [st2 [H2 Hk]].
    exists st2. split; [econstructor; eassumption|assumption].
  - destruct (run r1 st k) eqn:E1.
    + injection Hrun as ->. apply IH1 in E1 as [st1 [H1 Hk]].
      exists st1. split; [now apply M_Alt_l|assumption].
    + apply IH2 in Hrun as [st1 [H1 Hk]].
      exists st1. split; [now apply M_Alt_r|assumption].
  - revert Hrun. generalize (List.length (snd st)). intros n. revert st.
    induction n as [|n IHn]; intros st Hrun.
    + exists st. split; [constructor|assumption].
    + destruct (run r1 st _) eqn:E1.
      * injection Hrun as ->. apply IH1 in E1 as [st1 [H1 Hk]].
        destruct (consumed st st1); [|discriminate].
        apply IHn in Hk as [st2 [H2 Hk]].
        exists st2. split; [econstructor; eassumption|assumption].
      * exists st. split; [constructor|assumption].
  - destruct (run r1 st _) eqn:E1.
    + injection Hrun as ->. apply IH1 in E1 as [st1 [H1 Hk]].
      destruct (consumed st st1); [|discriminate].
      exists st1. split; [now apply M_Opt_take|assumption].
    + exists st. split; [constructor|assumption].
Qed.

Lemma exec_sound (r : regex) (st : input) (n : nat) :
  exec r st = Some n -> exists st', Matches r st st'.
Proof.
  unfold exec. intros H. apply run_sound in H as [st' [H _]]. now exists st'.
Qed.

Lemma no_match_no_exec (r : regex) (st : input) :
  (forall st', ~ Matches r st st') -> exec r st = None.
Proof.
  intros H. destruct (exec r st) eqn:E; [|reflexivity].
  apply exec_sound in E as [st' Hm]. now apply H in Hm.
Qed.

(** A run of units of one class. *)
Lemma star_class (p : N -> bool) (st st' : input) :
  Matches (Star (Class p)) st st' ->
  exists run_units, snd st = run_units ++ snd st' /\ Forall (fun c => p c = true) run_units.
Proof.
  intros H. remember (Star (Class p)) as r eqn:Hr.
  induction H; try discriminate.
  - exists []. split; [reflexivity|constructor].
  - injection Hr as ->. specialize (IHMatches2 eq_refl).
    destruct IHMatches2 as [units [Hsplit Hall]].
    inversion H; subst. cbn [snd] in *.
    exists (c :: units). split; [now rewrite Hsplit|now constructor].
Qed.

Lemma class_head (p : N -> bool) (st st' : input) :
  Matches (Class p) st st' ->
  exists c, snd st = c :: snd st' /\ p c = true.
Proof. intros H. inversion H; subst. now exists c. Qed.

Lemma replace_unmatched (r : regex) (replacement : jsstring) :
  forall (s : jsstring) (prev : option N),
    never_matches r prev s -> replace_from r replacement prev s O = s.
Proof.
  induction s as [|c rest IH]; intros prev [Hhere Hrest]; cbn [replace_from].
  - match goal with |- context [exec ?r0 ?st] => destruct (exec r0 st) eqn:E end;
      [|reflexivity].
    apply exec_sound in E as [st' Hm]. now apply Hhere in Hm.
  - match goal with |- context [exec ?r0 ?st] => destruct (exec r0 st) eqn:E end.
    + apply exec_sound in E as [st' Hm]. now apply Hhere in Hm.
    + f_equal. now apply IH.
Qed.

End RegexFacts.

Module NormaliserFacts.

Import RegexFacts.

Lemma no_introducer_never_matches (s : jsstring) :
  forallb (fun c => negb (introducer c)) s = true ->
  forall prev, never_matches ansiRegex prev s.
Proof.
  induction s as [|c rest IH]; intros Hall prev; cbn [never_matches].
  - split; [|exact I]. intros st' H. unfold ansiRegex in H.
    inversion H; subst. match goal with Hc : Matches (Class _) _ _ |- _ =>
      inversion Hc end.
  - cbn [forallb] in Hall. apply andb_true_iff in Hall as [Hc Hrest].
    split; [|now apply IH]. intros st' H. unfold ansiRegex in H.
    inversion H; subst. match goal with Hm : Matches (Class _) _ _ |- _ =>
      apply class_head in Hm as [c' [Heq Hp]] end.
    cbn [snd] in Heq. injection Heq as <- _. rewrite Hp in Hc. discriminate.
Qed.

Lemma stripAnsi_plain (s : jsstring) :
  forallb (fun c => negb (introducer c)) s = true -> stripAnsi s = s.
Proof.
  intros H. apply replace_unmatched. now apply no_introducer_never_matches.
Qed.

Lemma carriage_return_line_needs_CR (st st' : input) :
  Matches ClaudeCode.carriage_return_line st st' -> In CR (snd st).
Proof.
  unfold ClaudeCode.carriage_return_line. intros H.
  inversion H as [| | |r1 r2 s0 s1 s2 Hstart Hrest| | | | | |]; subst.
  inversion Hstart; subst.
  inversion Hrest as [| | |r1 r2 s0 s1' s2' Hdots Hcr| | | | | |]; subst.
  apply star_class in Hdots as [units [Hsplit _]].
  apply class_head in Hcr as [c [Hhead Hc]].
  apply N.eqb_eq in Hc. subst c.
  rewrite Hsplit, Hhead. apply in_or_app. right. now left.
Qed.

Lemma no_CR_never_matches (s : jsstring) :
  forallb (fun c => negb (N.eqb CR c)) s = true ->
  forall prev, never_matches ClaudeCode.carriage_return_line prev s.
Proof.
  induction s as [|c rest IH]; intros Hall prev; cbn [never_matches].
  - split; [|exact I]. intros st' H.
    apply carriage_return_line_needs_CR in H. destruct H.
  - split.
    + intros st' H. apply carriage_return_line_needs_CR in H. cbn [snd] in H.
      rewrite forallb_forall in Hall. apply Hall in H.
      now rewrite N.eqb_refl in H.
    + cbn [forallb] in Hall. apply andb_true_iff in Hall as [_ Hrest].
      now apply IH.
Qed.

Lemma glyph_after_space_run (units rest : jsstring) (c : N) :
  Forall (fun u => isWhiteSpace u = true) units ->
  ClaudeCode.spinner_glyph c = true ->
  glyph_after_space (units ++ c :: rest) = true.
Proof.
  intros Hall Hc. induction Hall as [|u l Hu _ IH]; cbn.
  - now rewrite Hc.
  - rewrite Hu, IH. now destruct (ClaudeCode.spinner_glyph u).
Qed.

Lemma spinner_start_shape (st st' : input) :
  Matches ClaudeCode.spinner_start st st' ->
  at_line_start st = true /\ glyph_after_space (snd st) = true.
Proof.
  unfold ClaudeCode.spinner_start. intros H.
  inversion H as [| | |r1 r2 s0 s1 s2 Hstart Hrest| | | | | |]; subst.
  inversion Hstart; subst.
  inversion Hrest as [| | |r1 r2 s0 s1' s2' Hspace Hglyph| | | | | |]; subst.
  apply star_class in Hspace as [units [Hsplit Hall]].
  apply class_head in Hglyph as [c [Hhead Hc]].
  split; [assumption|].
  rewrite Hsplit, Hhead. now apply glyph_after_space_run.
Qed.

Lemma no_spinner_never_matches (s : jsstring) :
  forall prev, no_spinner_start prev s = true ->
               never_matches ClaudeCode.spinner_start prev s.
Proof.
  induction s as [|c rest IH]; intros prev Hclean;
    cbn [no_spinner_start] in Hclean; apply andb_true_iff in Hclean as [Hhere Hrest];
    cbn [never_matches]; split; try exact I; try (now apply IH);
    intros st' H; apply spinner_start_shape in H as [Hls Hg];
    cbn [snd] in Hg; rewrite Hls, Hg in Hhere; discriminate.
Qed.

Lemma trimStart_head (c : N) (rest : jsstring) :
  isWhiteSpace c = false -> trimStart (c :: rest) = c :: rest.
Proof. intros H. cbn. now rewrite H. Qed.

Lemma trim_fixed (s : jsstring) : no_space_at_ends s = true -> trim s = s.
Proof.
  destruct s as [|c rest]; [reflexivity|].
  unfold no_space_at_ends. intros H. apply andb_true_iff in H as [Hfirst Hlast].
  apply negb_true_iff in Hfirst, Hlast.
  unfold trim, trimEnd. rewrite (@trimStart_head c rest Hfirst).
  destruct (exists_last (l := c :: rest)) as [body [z Heq]]; [discriminate|].
  rewrite Heq in Hlast |- *. rewrite last_last in Hlast.
  rewrite rev_app_distr. cbn [rev app].
  rewrite (@trimStart_head z (rev body) Hlast).
  change (z :: rev body) with ([z] ++ rev body).
  rewrite rev_app_distr, rev_involutive. reflexivity.
Qed.

(** Clean text goes through the normaliser unchanged. *)
Lemma clean_text_unchanged (s : jsstring) :
  is_clean s = true -> ClaudeCode.cleanOutput s = s.
Proof.
  unfold is_clean. intros H.
  apply andb_true_iff in H as [H Hends].
  apply andb_true_iff in H as [H Hspin].
  apply andb_true_iff in H as [Hesc Hcr].
  unfold ClaudeCode.cleanOutput.
  rewrite (@stripAnsi_plain _ Hesc).
  unfold replace_all.
  rewrite (@replace_unmatched _ [] _ None (@no_CR_never_matches _ Hcr None)).
  rewrite (@replace_unmatched _ [] _ None (@no_spinner_never_matches _ _ Hspin)).
  now apply trim_fixed.
Qed.

Lemma cleanOutput_same : GeminiCLI.cleanOutput = ClaudeCode.cleanOutput.
Proof. reflexivity. Qed.

End NormaliserFacts.

Module NormaliserTheorems.

Import NormaliserFacts.

(** C5, as stated, fails: the normaliser removes one bracket or glyph at
    the start of a line, so a second pass removes the next one. *)
Lemma cleanOutput_is_not_idempotent :
  ClaudeCode.cleanOutput Examples.nested_array_text = lit "[1,2],[3,4]]"
  /\ ClaudeCode.cleanOutput (ClaudeCode.cleanOutput Examples.nested_array_text)
     = lit "1,2],[3,4]]"
  /\ ClaudeCode.cleanOutput (ClaudeCode.cleanOutput Examples.nested_array_text)
     <> ClaudeCode.cleanOutput Examples.nested_array_text
  /\ GeminiCLI.cleanOutput (GeminiCLI.cleanOutput Examples.nested_array_text)
     <> GeminiCLI.cleanOutput Examples.nested_array_text.
Proof. repeat split; try (vm_compute; reflexivity); vm_compute; discriminate. Qed.

(** C5, amended.  The normaliser returns already-clean text unchanged,
    clean text being text with no ESC or CSI unit, no carriage return,
    no line that starts (after optional white space) with a square
    bracket or a spinner glyph, and no white space at its ends; so a
    second pass changes nothing whenever the first pass produced clean
    text.  This holds for the normaliser of either adapter. *)
Theorem cleanOutput_fixes_clean_text :
  forall s : jsstring,
    (is_clean s = true ->
     ClaudeCode.cleanOutput s = s /\ GeminiCLI.cleanOutput s = s)
    /\ (is_clean (ClaudeCode.cleanOutput s) = true ->
        ClaudeCode.cleanOutput (ClaudeCode.cleanOutput s) = ClaudeCode.cleanOutput s
        /\ GeminiCLI.cleanOutput (GeminiCLI.cleanOutput s) = GeminiCLI.cleanOutput s).
Proof.
  intros s. rewrite cleanOutput_same. split; intros H.
  - split; now apply clean_text_unchanged.
  - split; now apply clean_text_unchanged.
Qed.

End NormaliserTheorems.

(** ** JSON.parse never runs out of fuel *)

Module ParseFacts.

Lemma skip_space_le (s : jsstring) :
  (List.length (skip_space s) <= List.length s)%nat.
Proof.
  induction s as [|c rest IH]; cbn; [lia|].
  destruct (is_json_space c); cbn; lia.
Qed.

Lemma skip_space_cons (s rest : jsstring) (c : N) :
  skip_space s = c :: rest -> (List.length rest < List.length s)%nat.
Proof.
  intros H. pose proof (skip_space_le s) as Hle. rewrite H in Hle. cbn in Hle. lia.
Qed.

Lemma cons_unit_some (c : N) (r : option (jsstring * jsstring)) (text rest : jsstring) :
  cons_unit c r = Some (text, rest) ->
  exists text', r = Some (text', rest).
Proof.
  destruct r as [[t' r']|]; cbn; [|discriminate].
  intros H. injection H as _ <-. now exists t'.
Qed.

Lemma parse_string_body_lt :
  forall (n : nat) (s text rest : jsstring),
    (List.length s <= n)%nat ->
    parse_string_body s = Some (text, rest) ->
    (List.length rest < List.length s)%nat.
Proof.
  induction n as [|n IH]; intros s text rest Hlen Hparse.
  - destruct s; [discriminate|cbn in Hlen; lia].
  - destruct s as [|c s1]; [discriminate|]. cbn [parse_string_body] in Hparse.
    cbn [List.length] in *.
    destruct (c =? 34)%N.
    { injection Hparse as _ <-. lia. }
    destruct (c =? 92)%N.
    { destruct s1 as [|e s2]; [discriminate|].
      destruct (e =? 117)%N.
      - destruct s2 as [|h1 [|h2 [|h3 [|h4 s6]]]]; try discriminate.
        destruct (hex_value h1), (hex_value h2), (hex_value h3), (hex_value h4);
          try discriminate.
        apply cons_unit_some in Hparse as [t' Hparse].
        apply IH in Hparse; cbn [List.length] in *; lia.
      - destruct (escape_unit e); [|discriminate].
        apply cons_unit_some in Hparse as [t' Hparse].
        apply IH in Hparse; cbn [List.length] in *; lia. }
    destruct (c <? 32)%N; [discriminate|].
    apply cons_unit_some in Hparse as [t' Hparse].
    apply IH in Hparse; lia.
Qed.

Lemma take_digits_le (s : jsstring) :
  forall (acc : Z) (len : nat) (z : Z) (len' : nat) (rest : jsstring),
    take_digits s acc len = (z, len', rest) ->
    (List.length rest <= List.length s)%nat.
Proof.
  induction s as [|c s1 IH]; intros acc len z len' rest H; cbn in H.
  - injection H as _ _ <-. cbn. lia.
  - destruct (is_digit c).
    + apply IH in H. cbn. lia.
    + injection H as _ _ <-. lia.
Qed.

Lemma number_sign_le (s : jsstring) :
  (List.length (snd (number_sign s)) <= List.length s)%nat.
Proof.
  destruct s as [|c r]; cbn; [lia|]. destruct (c =? 45)%N; cbn; lia.
Qed.

Lemma integer_part_lt (s rest : jsstring) (v : Z) :
  integer_part s = Some (v, rest) -> (List.length rest < List.length s)%nat.
Proof.
  unfold integer_part. destruct s as [|c r]; [discriminate|].
  destruct (c =? 48)%N.
  - intros H. injection H as _ <-. cbn. lia.
  - destruct (is_digit c) eqn:Hd; [|discriminate].
    cbn [take_digits]. rewrite Hd.
    destruct (take_digits r _ _) as [[z l] r0] eqn:Htd.
    intros H. injection H as _ <-. apply take_digits_le in Htd. cbn. lia.
Qed.

Lemma fraction_part_le (s rest : jsstring) (int_value mant : Z) (len : nat) :
  fraction_part int_value s = Some (mant, len, rest) ->
  (List.length rest <= List.length s)%nat.
Proof.
  unfold fraction_part. destruct s as [|c r].
  - intros H. injection H as _ _ <-. lia.
  - destruct (c =? 46)%N.
    + destruct (take_digits r int_value O) as [[z l] r0] eqn:Htd.
      destruct l; [discriminate|]. intros H. injection H as _ _ <-.
      apply take_digits_le in Htd. cbn. lia.
    + intros H. injection H as _ _ <-. lia.
Qed.

Lemma exponent_sign_le (s : jsstring) :
  (List.length (snd (exponent_sign s)) <= List.length s)%nat.
Proof.
  destruct s as [|d r]; cbn; [lia|].
  destruct (d =? 45)%N; [cbn; lia|]. destruct (d =? 43)%N; cbn; lia.
Qed.

Lemma exponent_part_le (s rest : jsstring) (e : Z) :
  exponent_part s = Some (e, rest) -> (List.length rest <= List.length s)%nat.
Proof.
  unfold exponent_part. destruct s as [|c r].
  - intros H. injection H as _ <-. lia.
  - destruct ((c =? 101) || (c =? 69))%N.
    + pose proof (exponent_sign_le r) as Hsign.
      destruct (exponent_sign r) as [eneg s1]. cbn [snd] in Hsign.
      destruct (take_digits s1 0%Z O) as [[z l] r0] eqn:Htd.
      destruct l; [discriminate|]. intros H. injection H as _ <-.
      apply take_digits_le in Htd. cbn. lia.
    + intros H. injection H as _ <-. lia.
Qed.

Lemma parse_number_lt (s rest : jsstring) (x : number) :
  parse_number s = Some (x, rest) -> (List.length rest < List.length s)%nat.
Proof.
  unfold parse_number. pose proof (number_sign_le s) as Hsign.
  destruct (number_sign s) as [neg s1]. cbn [snd] in Hsign.
  destruct (integer_part s1) as [[int_value s2]|] eqn:Hint; [|discriminate].
  destruct (fraction_part int_value s2) as [[[mant len] s3]|] eqn:Hfrac; [|discriminate].
  destruct (exponent_part s3) as [[e s4]|] eqn:Hexp; [|discriminate].
  intros H. injection H as _ <-.
  apply integer_part_lt in Hint. apply fraction_part_le in Hfrac.
  apply exponent_part_le in Hexp. lia.
Qed.

Lemma starts_with_length (word s : jsstring) :
  starts_with word s = true -> (List.length word <= List.length s)%nat.
Proof.
  revert s. induction word as [|a w IH]; intros s H; cbn; [lia|].
  destruct s as [|b s']; [discriminate|]. cbn in H.
  destruct (a =? b)%N; [|discriminate]. apply IH in H. cbn. lia.
Qed.

Lemma expect_lt (word s rest : jsstring) (v w : value) :
  word <> [] -> expect word v s = Parsed w rest ->
  (List.length rest < List.length s)%nat.
Proof.
  unfold expect. intros Hne H. destruct (starts_with word s) eqn:Hsw; [|discriminate].
  injection H as _ <-. apply starts_with_length in Hsw.
  rewrite length_skipn. destruct word; [congruence|]. cbn in *. lia.
Qed.

Lemma parse_ends (fuel : nat) :
  (forall s, (2 * List.length s + 1 <= fuel)%nat -> ends (parse_value fuel s) s)
  /\ (forall s acc, (2 * List.length s + 2 <= fuel)%nat ->
                    ends (parse_elements fuel s acc) s)
  /\ (forall s props, (2 * List.length s + 2 <= fuel)%nat ->
                      ends (parse_members fuel s props) s).
Proof.
  induction fuel as [|f [IHv [IHe IHm]]].
  { repeat split; intros; lia. }
  split; [|split].
  - (* parse_value *)
    intros s Hfuel. cbn [parse_value].
    destruct (skip_space s) as [|c rest] eqn:Hskip.
    { split; [discriminate|intros; discriminate]. }
    pose proof (skip_space_cons _ Hskip) as Hrest.
    destruct (c =? 123)%N.
    { destruct (skip_space rest) as [|d rest'] eqn:Hskip'.
      { split; [discriminate|intros; discriminate]. }
      pose proof (skip_space_cons _ Hskip') as Hrest'.
      destruct (d =? 125)%N.
      - split; [discriminate|]. intros v r H. injection H as _ <-. lia.
      - destruct (IHm rest [] ltac:(lia)) as [Hne Hlt].
        split; [assumption|]. intros v r H. apply Hlt in H. lia. }
    destruct (c =? 91)%N.
    { destruct (skip_space rest) as [|d rest'] eqn:Hskip'.
      { split; [discriminate|intros; discriminate]. }
      pose proof (skip_space_cons _ Hskip') as Hrest'.
      destruct (d =? 93)%N.
      - split; [discriminate|]. intros v r H. injection H as _ <-. lia.
      - destruct (IHe rest [] ltac:(lia)) as [Hne Hlt].
        split; [assumption|]. intros v r H. apply Hlt in H. lia. }
    destruct (c =? 34)%N.
    { destruct (parse_string_body rest) as [[text rest']|] eqn:Hstr.
      - split; [discriminate|]. intros v r H. injection H as _ <-.
        apply (parse_string_body_lt (n := List.length rest)) in Hstr; lia.
      - split; [discriminate|intros; discriminate]. }
    assert (Hword : forall word v0,
               word <> [] -> ends (expect word v0 (c :: rest)) s).
    { intros word v0 Hw. split.
      - unfold expect. destruct (starts_with word (c :: rest)); discriminate.
      - intros v r H. apply expect_lt in H; [cbn in H; lia|assumption]. }
    destruct (c =? 116)%N; [apply Hword; discriminate|].
    destruct (c =? 102)%N; [apply Hword; discriminate|].
    destruct (c =? 110)%N; [apply Hword; discriminate|].
    destruct (parse_number (c :: rest)) as [[x rest']|] eqn:Hnum.
    + split; [discriminate|]. intros v r H. injection H as _ <-.
      apply parse_number_lt in Hnum. cbn in Hnum. lia.
    + split; [discriminate|intros; discriminate].
  - (* parse_elements *)
    intros s acc Hfuel. cbn [parse_elements].
    destruct (IHv s ltac:(lia)) as [Hne Hlt].
    destruct (parse_value f s) as [v rest| |] eqn:Hval; [| |congruence].
    + specialize (Hlt _ _ eq_refl).
      destruct (skip_space rest) as [|c rest'] eqn:Hskip.
      { split; [discriminate|intros; discriminate]. }
      pose proof (skip_space_cons _ Hskip) as Hrest'.
      destruct (c =? 44)%N.
      * destruct (IHe rest' (v :: acc) ltac:(lia)) as [Hne' Hlt'].
        split; [assumption|]. intros v' r H. apply Hlt' in H. lia.
      * destruct (c =? 93)%N.
        -- split; [discriminate|]. intros v' r H. injection H as _ <-. lia.
        -- split; [discriminate|intros; discriminate].
    + split; [discriminate|intros; discriminate].
  - (* parse_members *)
    intros s props Hfuel. cbn [parse_members].
    destruct (skip_space s) as [|c rest] eqn:Hskip.
    { split; [discriminate|intros; discriminate]. }
    pose proof (skip_space_cons _ Hskip) as Hrest.
    destruct (c =? 34)%N; [|split; [discriminate|intros; discriminate]].
    destruct (parse_string_body rest) as [[key rest1]|] eqn:Hstr;
      [|split; [discriminate|intros; discriminate]].
    apply (parse_string_body_lt (n := List.length rest)) in Hstr; [|lia].
    destruct (skip_space rest1) as [|d rest2] eqn:Hskip1.
    { split; [discriminate|intros; discriminate]. }
    pose proof (skip_space_cons _ Hskip1) as Hrest2.
    destruct (d =? 58)%N; [|split; [discriminate|intros; discriminate]].
    destruct (IHv rest2 ltac:(lia)) as [Hne Hlt].
    destruct (parse_value f rest2) as [v rest3| |] eqn:Hval; [| |congruence].
    + specialize (Hlt _ _ eq_refl).
      destruct (skip_space rest3) as [|e rest4] eqn:Hskip3.
      { split; [discriminate|intros; discriminate]. }
      pose proof (skip_space_cons _ Hskip3) as Hrest4.
      destruct (e =? 44)%N.
      * destruct (IHm rest4 (define_property props key v) ltac:(lia)) as [Hne' Hlt'].
        split; [assumption|]. intros v' r H. apply Hlt' in H. lia.
      * destruct (e =? 125)%N.
        -- split; [discriminate|]. intros v' r H. injection H as _ <-. lia.
        -- split; [discriminate|intros; discriminate].
    + split; [discriminate|intros; discriminate].
Qed.

(** The fuel [JSON_parse] starts with is enough for every text: its
    RangeError branch is never taken. *)
Lemma parse_fuel_enough (text : jsstring) :
  parse_value (parse_fuel text) text <> Exhausted.
Proof.
  apply (proj1 (parse_ends (parse_fuel text)) text). unfold parse_fuel. lia.
Qed.

Lemma JSON_parse_outcomes (text : jsstring) :
  (exists v, JSON_parse text = Return v)
  \/ (exists e, JSON_parse text = Throw e /\ error_class e = SyntaxError).
Proof.
  unfold JSON_parse. pose proof (parse_fuel_enough text) as Hfuel.
  destruct (parse_value (parse_fuel text) text) as [v rest| |]; [| |congruence].
  - destruct (skip_space rest); [left|right]; eexists; [reflexivity|split; reflexivity].
  - right. eexists. split; reflexivity.
Qed.

End ParseFacts.

(** ** Structured-output normaliser (claim C4) *)

Module ExtractTheorems.

Import GeminiCLI.

Lemma extractResponse_returns (stdout : jsstring) :
  exists v, extractResponse stdout = Return v.
Proof.
  unfold extractResponse.
  destruct (negb (str_truthy stdout)); [now eexists|].
  unfold try_catch.
  match goal with |- exists v, match ?body with _ => _ end = _ => destruct body end;
    now eexists.
Qed.

(** C4, as stated, fails twice.  A document can have a top-level [text]
    field that is not what the normaliser returns: here the field is
    present and empty, and the [response] field is returned in its
    place.  And what the caller receives need not be a text: here the
    [text] field is the number 123, and the number is returned. *)
Lemma text_field_empty_or_not_a_string :
  (JSON_parse (trim (stripAnsi Examples.empty_text_with_response))
   = Return (VObj [(lit "text", VStr []); (lit "response", VStr (lit "fallback"))])
   /\ extractResponse Examples.empty_text_with_response = Return (VStr (lit "fallback"))
   /\ VStr (lit "fallback") <> VStr [])
  /\ (JSON_parse (trim (stripAnsi Examples.number_text))
      = Return (VObj [(lit "text", VNum (number_of_Z 123))])
      /\ extractResponse Examples.number_text = Return (VNum (number_of_Z 123))
      /\ forall text : jsstring, VNum (number_of_Z 123) <> VStr text).
Proof.
  split; repeat split; try (vm_compute; reflexivity); discriminate.
Qed.

(** What the normaliser returns for an object the candidates block lets
    through: the [text] field if it is truthy, else the [response] field
    if it is truthy, else the document serialised again. *)
Lemma extractResponse_on_object (stdout : jsstring) (props : list (jsstring * value)) :
  stdout <> [] ->
  JSON_parse (trim (stripAnsi stdout)) = Return (VObj props) ->
  candidates_text (VObj props) = Return None ->
  extractResponse stdout
  = Return (if truthy_opt (lookup (lit "text") props)
            then match lookup (lit "text") props with Some t => t | None => VNull end
            else if truthy_opt (lookup (lit "response") props)
                 then match lookup (lit "response") props with
                      | Some r => r
                      | None => VNull
                      end
                 else VStr (JSON_stringify (VObj props))).
Proof.
  intros Hne Hparse Hshape. unfold extractResponse.
  destruct stdout as [|c0 rest0]; [congruence|]. cbn [str_truthy negb].
  rewrite Hparse. cbn [bind]. rewrite Hshape. cbn [bind get try_catch].
  destruct (truthy_opt (lookup (lit "text") props)); [reflexivity|].
  destruct (truthy_opt (lookup (lit "response") props)); reflexivity.
Qed.

(** An array, a number or a boolean has none of the properties the
    normaliser reads: the document is serialised again. *)
Lemma extractResponse_on_other_documents (stdout : jsstring) (doc : value) :
  stdout <> [] ->
  JSON_parse (trim (stripAnsi stdout)) = Return doc ->
  match doc with VArr _ | VNum _ | VBool _ => True | _ => False end ->
  extractResponse stdout = Return (VStr (JSON_stringify doc)).
Proof.
  intros Hne Hparse Hdoc. unfold extractResponse.
  destruct stdout as [|c0 rest0]; [congruence|]. cbn [str_truthy negb].
  rewrite Hparse. destruct doc; try contradiction; reflexivity.
Qed.

(** The candidates block returns a string when it returns. *)
Lemma candidates_text_is_a_string (parsed joined : value) :
  candidates_text parsed = Return (Some joined) -> exists t, joined = VStr t.
Proof.
  unfold candidates_text, bind.
  repeat match goal with
         | |- context [match ?x with _ => _ end] => destruct x; try discriminate
         end.
  intros H. injection H as <-. now eexists.
Qed.

(** What the normaliser does with a parsed object, case by case. *)
Lemma extractResponse_on_parsed_object (stdout : jsstring)
  (props : list (jsstring * value)) :
  stdout <> [] ->
  JSON_parse (trim (stripAnsi stdout)) = Return (VObj props) ->
  extractResponse stdout
  = match candidates_text (VObj props) with
    | Return (Some joined) => Return joined
    | Return None =>
        Return (if truthy_opt (lookup (lit "text") props)
                then match lookup (lit "text") props with Some t => t | None => VNull end
                else if truthy_opt (lookup (lit "response") props)
                     then match lookup (lit "response") props with
                          | Some r => r
                          | None => VNull
                          end
                     else VStr (JSON_stringify (VObj props)))
    | Throw _ => Return (VStr (cleanOutput (trim (stripAnsi stdout))))
    end.
Proof.
  intros Hne Hparse.
  destruct (candidates_text (VObj props)) as [[joined|]|e] eqn:Hshape.
  - unfold extractResponse.
    destruct stdout as [|c0 rest0]; [congruence|]. cbn [str_truthy negb].
    rewrite Hparse. cbn [bind]. rewrite Hshape. reflexivity.
  - now apply extractResponse_on_object.
  - unfold extractResponse.
    destruct stdout as [|c0 rest0]; [congruence|]. cbn [str_truthy negb].
    rewrite Hparse. cbn [bind]. rewrite Hshape. reflexivity.
Qed.

(** C4, amended.  On the three outputs of the specification the
    normaliser returns "AB", "hello" and "hello".  It never throws.  For
    the stripped, trimmed output:
    - when it does not parse, or parses to [null], the plain-text cleaning
      of it is returned;
    - when it parses to a string, the string is returned;
    - when it parses to an array, a number or a boolean, the document
      serialised again is returned;
    - when it parses to an object and the candidates block yields a text,
      that text is returned; when the block throws, the plain-text
      cleaning is returned;
    - when it parses to an object that goes past the candidates block: a
      top-level [text] field that is truthy is returned as it is; if
      [text] is absent or falsy (an empty string, say), a truthy
      top-level [response] field is returned as it is; if neither is
      truthy, the document serialised again is returned.
    What the caller receives is a string, except when it is a truthy
    top-level [text] or [response] field of an object document, which is
    returned whatever its type. *)
Theorem extractResponse_fallback_chain :
  extractResponse Examples.candidates_AB = Return (VStr (lit "AB"))
  /\ extractResponse Examples.text_hello = Return (VStr (lit "hello"))
  /\ extractResponse Examples.plain_hello = Return (VStr (lit "hello"))
  /\ (forall stdout : jsstring, exists v, extractResponse stdout = Return v)
  /\ (forall stdout : jsstring,
         stdout <> [] ->
         let cleaned := trim (stripAnsi stdout) in
         (forall e : Error,
             JSON_parse cleaned = Throw e ->
             extractResponse stdout = Return (VStr (cleanOutput cleaned)))
         /\ (JSON_parse cleaned = Return VNull ->
             extractResponse stdout = Return (VStr (cleanOutput cleaned)))
         /\ (forall text : jsstring,
                JSON_parse cleaned = Return (VStr text) ->
                extractResponse stdout = Return (VStr text))
         /\ (forall doc : value,
                JSON_parse cleaned = Return doc ->
                match doc with VArr _ | VNum _ | VBool _ => True | _ => False end ->
                extractResponse stdout = Return (VStr (JSON_stringify doc)))
         /\ (forall props : list (jsstring * value),
                JSON_parse cleaned = Return (VObj props) ->
                (forall joined : value,
                    candidates_text (VObj props) = Return (Some joined) ->
                    extractResponse stdout = Return joined
                    /\ exists t, joined = VStr t)
                /\ (forall e : Error,
                       candidates_text (VObj props) = Throw e ->
                       extractResponse stdout = Return (VStr (cleanOutput cleaned)))
                /\ (candidates_text (VObj props) = Return None ->
                    (forall t, lookup (lit "text") props = Some t -> truthy t = true ->
                               extractResponse stdout = Return t)
                    /\ (truthy_opt (lookup (lit "text") props) = false ->
                        forall r, lookup (lit "response") props = Some r ->
                                  truthy r = true ->
                                  extractResponse stdout = Return r)
                    /\ (truthy_opt (lookup (lit "text") props) = false ->
                        truthy_opt (lookup (lit "response") props) = false ->
                        extractResponse stdout
                        = Return (VStr (JSON_stringify (VObj props)))))))
  /\ (forall (stdout : jsstring) (v : value),
         extractResponse stdout = Return v ->
         (exists text, v = VStr text)
         \/ (exists props,
               JSON_parse (trim (stripAnsi stdout)) = Return (VObj props)
               /\ truthy v = true
               /\ (lookup (lit "text") props = Some v
                   \/ lookup (lit "response") props = Some v))).
Proof.
  split; [vm_compute; reflexivity|].
  split; [vm_compute; reflexivity|].
  split; [vm_compute; reflexivity|].
  split; [exact extractResponse_returns|].
  split.
  - intros stdout Hne cleaned. subst cleaned.
    assert (Hplain : forall c : result value,
               JSON_parse (trim (stripAnsi stdout)) = c ->
               match c with Throw _ | Return VNull => True | _ => False end ->
               extractResponse stdout
               = Return (VStr (cleanOutput (trim (stripAnsi stdout))))).
    { intros c Hparse Hc. unfold extractResponse.
      destruct stdout; [congruence|]. cbn [str_truthy negb].
      rewrite Hparse. destruct c as [[|b|x|t|elems|props]|e]; try contradiction; reflexivity. }
    split; [intros e Hparse; now apply (Hplain _ Hparse)|].
    split; [intros Hparse; now apply (Hplain _ Hparse)|].
    split; [|split].
    + intros text Hparse. unfold extractResponse.
      destruct stdout; [congruence|]. cbn [str_truthy negb].
      rewrite Hparse. reflexivity.
    + intros doc Hparse Hdoc. now apply extractResponse_on_other_documents.
    + intros props Hparse.
      rewrite (extractResponse_on_parsed_object Hne Hparse).
      split; [|split].
      * intros joined Hshape. rewrite Hshape. split; [reflexivity|].
        now apply candidates_text_is_a_string in Hshape.
      * intros e Hshape. now rewrite Hshape.
      * intros Hshape. rewrite Hshape. repeat split.
        -- intros t Ht Htruthy. rewrite Ht. cbn [truthy_opt]. now rewrite Htruthy.
        -- intros Htext r Hr Htruthy. rewrite Htext, Hr. cbn [truthy_opt].
           now rewrite Htruthy.
        -- intros Htext Hresp. now rewrite Htext, Hresp.
  - intros stdout v Hrun.
    destruct stdout as [|c0 rest0].
    { cbn in Hrun. injection Hrun as <-. left. now eexists. }
    set (stdout := c0 :: rest0) in *.
    assert (Hne : stdout <> []) by discriminate.
    destruct (JSON_parse (trim (stripAnsi stdout))) as [doc|e] eqn:Hparse.
    + destruct doc as [|b|x|text|elems|props].
      * unfold extractResponse in Hrun. cbn [stdout str_truthy negb] in Hrun.
        fold stdout in Hrun. rewrite Hparse in Hrun.
        injection Hrun as <-. left. now eexists.
      * rewrite (@extractResponse_on_other_documents stdout (VBool b) Hne Hparse I) in Hrun.
        injection Hrun as <-. left. now eexists.
      * rewrite (@extractResponse_on_other_documents stdout (VNum x) Hne Hparse I) in Hrun.
        injection Hrun as <-. left. now eexists.
      * unfold extractResponse in Hrun. cbn [stdout str_truthy negb] in Hrun.
        fold stdout in Hrun. rewrite Hparse in Hrun.
        injection Hrun as <-. left. now eexists.
      * rewrite (@extractResponse_on_other_documents stdout (VArr elems) Hne Hparse I)
          in Hrun.
        injection Hrun as <-. left. now eexists.
      * rewrite (extractResponse_on_parsed_object Hne Hparse) in Hrun.
        destruct (candidates_text (VObj props)) as [[joined|]|e] eqn:Hshape.
        -- injection Hrun as <-. left.
           now apply candidates_text_is_a_string in Hshape.
        -- destruct (lookup (lit "text") props) as [t|] eqn:Ht; cbn [truthy_opt] in Hrun.
           ++ destruct (truthy t) eqn:Htruthy.
              { injection Hrun as <-. right. exists props. auto. }
              destruct (lookup (lit "response") props) as [r|] eqn:Hr;
                cbn [truthy_opt] in Hrun.
              ** destruct (truthy r) eqn:Hrt; injection Hrun as <-.
                 --- right. exists props. auto.
                 --- left. now eexists.
              ** injection Hrun as <-. left. now eexists.
           ++ destruct (lookup (lit "response") props) as [r|] eqn:Hr;
                cbn [truthy_opt] in Hrun.
              ** destruct (truthy r) eqn:Hrt; injection Hrun as <-.
                 --- right. exists props. auto.
                 --- left. now eexists.
              ** injection Hrun as <-. left. now eexists.
        -- injection Hrun as <-. left. now eexists.
    + unfold extractResponse in Hrun. cbn [stdout str_truthy negb] in Hrun.
      fold stdout in Hrun. rewrite Hparse in Hrun.
      injection Hrun as <-. left. now eexists.
Qed.

(** An object without a [candidates] property goes past the candidates
    block. *)
Lemma no_candidates_falls_through (props : list (jsstring * value)) :
  lookup (lit "candidates") props = None ->
  candidates_text (VObj props) = Return None.
Proof. intros H. unfold candidates_text. cbn [get bind]. now rewrite H. Qed.

End ExtractTheorems.

(** ** The theorems on concrete inputs *)

Module Witnesses.

Import PromptTheorems FactoryTheorems ExecutionTheorems NormaliserTheorems
  ExtractTheorems.

(** C1, amended, on a system message followed by the favourite-colour
    conversation: three turns sent as [{ role, content }], two of them
    history. *)
Lemma history_block_then_current_message_witness :
  let messages := Examples.favourite_colour_after_system in
  turn_sequence messages = Examples.favourite_colour
  /\ (1 < List.length (turn_sequence messages))%nat
  /\ Forall (fun m => layout m = role_then_content) (firstn 2 (turn_sequence messages))
  /\ exists current : Message,
      nth_error (turn_sequence messages) 2 = Some current
      /\ ClaudeCode.userPrompt (ClaudeCode.buildClaudeCodeCommand messages)
         = payload_with_history (firstn 2 (turn_sequence messages)) current
      /\ GeminiCLI.buildGeminiPrompt messages
         = combined_prompt
             (effective_system_prompt GeminiCLI.CONVERSATION_SYSTEM_PROMPT
                (base_system_text messages))
             (payload_with_history (firstn 2 (turn_sequence messages)) current).
Proof.
  intros messages.
  assert (Hturns : turn_sequence messages = Examples.favourite_colour) by reflexivity.
  assert (Hn : (1 < List.length (turn_sequence messages))%nat) by (cbn; lia).
  assert (Hall : Forall (fun m => layout m = role_then_content)
                   (firstn 2 (turn_sequence messages)))
    by (repeat constructor).
  split; [exact Hturns|]. split; [exact Hn|]. split; [exact Hall|].
  destruct (history_block_then_current_message messages Hn)
    as (current & Hnth & _ & _ & _ & Hplain).
  exists current. split; [exact Hnth|]. exact (Hplain Hall).
Defined.

(** C7 on a system message followed by one user message. *)
Lemma single_turn_has_no_history_block_witness :
  List.length (turn_sequence Examples.with_system_prompt) = 1%nat
  /\ exists current : Message,
      turn_sequence Examples.with_system_prompt = [current]
      /\ ClaudeCode.userPrompt (ClaudeCode.buildClaudeCodeCommand Examples.with_system_prompt)
         = current_label ++ content current
      /\ GeminiCLI.buildGeminiPrompt Examples.with_system_prompt
         = combined_prompt
             (effective_system_prompt GeminiCLI.CONVERSATION_SYSTEM_PROMPT
                (base_system_text Examples.with_system_prompt))
             (current_label ++ content current)
      /\ includes
           (ClaudeCode.userPrompt (ClaudeCode.buildClaudeCodeCommand Examples.with_system_prompt))
           history_label
         = includes (content current) history_label.
Proof.
  split; [reflexivity|].
  apply (single_turn_has_no_history_block Examples.with_system_prompt).
  reflexivity.
Defined.

(** C10 on a list holding one system message and nothing else. *)
Lemma empty_turn_sequence_omits_current_line_witness :
  Forall (fun m => role m = system) Examples.only_system
  /\ ClaudeCode.userPrompt (ClaudeCode.buildClaudeCodeCommand Examples.only_system) = []
  /\ GeminiCLI.buildGeminiPrompt Examples.only_system
     = lit "System instructions:" ++ [LF]
       ++ effective_system_prompt GeminiCLI.CONVERSATION_SYSTEM_PROMPT
            (base_system_text Examples.only_system)
       ++ [LF; LF].
Proof.
  assert (H : Forall (fun m => role m = system) Examples.only_system)
    by (repeat constructor).
  split; [exact H|].
  exact (empty_turn_sequence_omits_current_line H).
Defined.

(** C6 on a system message with text, on one without, and on a list
    with no system message. *)
Lemma effective_system_prompt_composition_witness :
  (Forall (fun x => role x <> system) (@nil Message)
   /\ content (mkMessage system (lit "You are a helpful assistant.")) <> []
   /\ ClaudeCode.systemPrompt (ClaudeCode.buildClaudeCodeCommand Examples.with_system_prompt)
      = lit "You are a helpful assistant." ++ [LF; LF]
        ++ ClaudeCode.CONVERSATION_SYSTEM_PROMPT)
  /\ (content (mkMessage system []) = []
      /\ ClaudeCode.systemPrompt
           (ClaudeCode.buildClaudeCodeCommand Examples.with_empty_system_prompt)
         = ClaudeCode.CONVERSATION_SYSTEM_PROMPT)
  /\ (Forall (fun x => role x <> system) Examples.hello
      /\ ClaudeCode.systemPrompt (ClaudeCode.buildClaudeCodeCommand Examples.hello)
         = ClaudeCode.CONVERSATION_SYSTEM_PROMPT).
Proof.
  assert (Hnil : Forall (fun x => role x <> system) (@nil Message)) by constructor.
  assert (Hhello : Forall (fun x => role x <> system) Examples.hello)
    by (repeat constructor; discriminate).
  split; [|split].
  - split; [exact Hnil|]. split; [discriminate|].
    apply (proj1 effective_system_prompt_composition []
             [mkMessage user (lit "Hello!")]
             (mkMessage system (lit "You are a helpful assistant.")) Hnil eq_refl).
    discriminate.
  - split; [reflexivity|].
    apply (proj1 effective_system_prompt_composition []
             [mkMessage user (lit "Hello!")] (mkMessage system []) Hnil eq_refl).
    reflexivity.
  - split; [exact Hhello|].
    apply (proj2 effective_system_prompt_composition Examples.hello Hhello).
Defined.

(** C8, amended, on the kind [unknown]. *)
Lemma unknown_kind_fails_at_construction_witness :
  type Examples.unknown_config <> lit "claude-code"
  /\ exists e : Error,
      AdapterFactory.create (Examples.printing []) Examples.unknown_config = Throw e
      /\ error_class e = PlainError
      /\ (type Examples.unknown_config = lit "codex" ->
          message e = lit "Codex adapter not yet implemented")
      /\ (type Examples.unknown_config = lit "gemini-cli" ->
          message e = lit "Gemini CLI adapter not yet implemented")
      /\ (type Examples.unknown_config <> lit "codex" ->
          type Examples.unknown_config <> lit "gemini-cli" ->
          message e = lit "Unknown adapter type: " ++ type Examples.unknown_config
          /\ includes (message e) (type Examples.unknown_config) = true).
Proof.
  assert (H : type Examples.unknown_config <> lit "claude-code") by discriminate.
  split; [exact H|].
  exact (@unknown_kind_fails_at_construction (Examples.printing []) Examples.unknown_config H).
Defined.

(** C2 on a Claude child killed by SIGTERM after it printed something. *)
Lemma killed_child_surfaces_as_timeout_witness :
  child_process (Examples.timing_out (lit "partial output"))
    (ClaudeCode.invocation Examples.claude
       (ClaudeCode.buildClaudeCodeCommand Examples.hello))
  = Failed Examples.killed_error (lit "partial output") []
  /\ killed_by_timeout_signal Examples.killed_error
  /\ snd (ClaudeCode.execute (Examples.timing_out (lit "partial output"))
            Examples.claude Examples.hello initial)
     = Throw (new_error ClaudeCode.TimeoutError (lit "Claude Code execution timed out")).
Proof.
  assert (Hchild :
    child_process (Examples.timing_out (lit "partial output"))
      (ClaudeCode.invocation Examples.claude
         (ClaudeCode.buildClaudeCodeCommand Examples.hello))
    = Failed Examples.killed_error (lit "partial output") []) by reflexivity.
  assert (Hkilled : killed_by_timeout_signal Examples.killed_error) by (split; reflexivity).
  split; [exact Hchild|]. split; [exact Hkilled|].
  exact (proj1 (proj1 (@killed_child_surfaces_as_timeout
                         (Examples.timing_out (lit "partial output"))
                         Examples.hello Examples.killed_error (lit "partial output") []
                         initial)
                  Examples.claude Hchild) Hkilled).
Defined.

(** C9, amended, on the message "hey" answered by "x". *)
Lemma usage_block_estimates_witness :
  let w := Examples.printing (lit "x") in
  let ms := [mkMessage user (lit "hey")] in
  Server.messages Examples.hey_request = Server.MessageArray ms
  /\ ms <> []
  /\ execute (ClaudeCode.adapter w Examples.claude) ms initial
     = (mkState [] 1 0, Return (VStr (lit "x")))
  /\ status_of (Server.chat_completions w (ClaudeCode.adapter w Examples.claude)
                  Examples.hey_request initial) = Some 200%N
  /\ exists u : Server.Usage,
      usage_of (Server.chat_completions w (ClaudeCode.adapter w Examples.claude)
                  Examples.hey_request initial) = Some u
      /\ is_ceil_quarter (N.of_nat (List.length (JSON_stringify (Messages_value ms))))
           (Server.prompt_tokens u)
      /\ is_ceil_quarter (N.of_nat (List.length (lit "x"))) (Server.completion_tokens u)
      /\ is_ceil_quarter
           (N.of_nat (List.length (JSON_stringify (Messages_value ms))
                      + List.length (lit "x")))
           (Server.total_tokens u)
      /\ (Server.total_tokens u <= Server.prompt_tokens u + Server.completion_tokens u
          <= Server.total_tokens u + 1)%N.
Proof.
  intros w ms.
  assert (Hreq : Server.messages Examples.hey_request = Server.MessageArray ms)
    by reflexivity.
  assert (Hne : ms <> []) by discriminate.
  assert (Hexec : execute (ClaudeCode.adapter w Examples.claude) ms initial
                  = (mkState [] 1 0, Return (VStr (lit "x"))))
    by (vm_compute; reflexivity).
  split; [exact Hreq|]. split; [exact Hne|]. split; [exact Hexec|].
  exact (@usage_block_estimates w (ClaudeCode.adapter w Examples.claude)
           Examples.hey_request ms (lit "x") initial (mkState [] 1 0) Hreq Hne Hexec).
Defined.

(** C5, amended, on a plain sentence. *)
Lemma cleanOutput_fixes_clean_text_witness :
  is_clean (lit "Hello! How can I help you?") = true
  /\ ClaudeCode.cleanOutput (lit "Hello! How can I help you?")
     = lit "Hello! How can I help you?"
  /\ GeminiCLI.cleanOutput (lit "Hello! How can I help you?")
     = lit "Hello! How can I help you?".
Proof.
  assert (H : is_clean (lit "Hello! How can I help you?") = true) by reflexivity.
  split; [exact H|].
  exact (proj1 (@cleanOutput_fixes_clean_text (lit "Hello! How can I help you?")) H).
Defined.

(** C4, amended, on the output whose [text] field is present and empty:
    the [response] field is returned. *)
Lemma extractResponse_fallback_chain_witness :
  let props := [(lit "text", VStr []); (lit "response", VStr (lit "fallback"))] in
  Examples.empty_text_with_response <> []
  /\ JSON_parse (trim (stripAnsi Examples.empty_text_with_response))
     = Return (VObj props)
  /\ GeminiCLI.candidates_text (VObj props) = Return None
  /\ truthy_opt (lookup (lit "text") props) = false
  /\ lookup (lit "response") props = Some (VStr (lit "fallback"))
  /\ truthy (VStr (lit "fallback")) = true
  /\ GeminiCLI.extractResponse Examples.empty_text_with_response
     = Return (VStr (lit "fallback")).
Proof.
  intros props.
  assert (Hne : Examples.empty_text_with_response <> []) by discriminate.
  assert (Hparse :
    JSON_parse (trim (stripAnsi Examples.empty_text_with_response))
    = Return (VObj props)) by (vm_compute; reflexivity).
  assert (Hshape : GeminiCLI.candidates_text (VObj props) = Return None)
    by reflexivity.
  assert (Htext : truthy_opt (lookup (lit "text") props) = false) by reflexivity.
  assert (Hr : lookup (lit "response") props = Some (VStr (lit "fallback")))
    by reflexivity.
  assert (Htruthy : truthy (VStr (lit "fallback")) = true) by reflexivity.
  split; [exact Hne|]. split; [exact Hparse|]. split; [exact Hshape|].
  split; [exact Htext|]. split; [exact Hr|]. split; [exact Htruthy|].
  destruct extractResponse_fallback_chain as (_ & _ & _ & _ & Hchain & _).
  pose proof (Hchain Examples.empty_text_with_response Hne) as Hcases.
  cbv zeta in Hcases.
  destruct Hcases as (_ & _ & _ & _ & Hobject).
  destruct (Hobject props Hparse) as (_ & _ & Hpast).
  destruct (Hpast Hshape) as (_ & Hresponse & _).
  exact (Hresponse Htext _ Hr Htruthy).
Defined.

End Witnesses.

(* ================================================================== *)
(** * Part V. Further properties of the program                        *)
(* ================================================================== *)

(** ** How the matcher runs on the patterns of the program *)

Module RegexRuns.

(** A starred class is the greedy run of the class. *)
Lemma run_star_class (A : Type) (p : N -> bool) (k : input -> option A) :
  forall (s : jsstring) (prev : option N),
    run (Star (Class p)) (prev, s) k = greedy p k prev s.
Proof.
  intros s prev. cbn [run snd].
  generalize (Nat.le_refl (List.length s)).
  generalize (List.length s) at 2 3. intros n. revert s prev.
  induction n as [|n IH]; intros s prev Hlen.
  - destruct s; [reflexivity|cbn in Hlen; lia].
  - destruct s as [|c rest]; [reflexivity|].
    cbn [greedy snd]. destruct (p c); [|reflexivity].
    unfold consumed. cbn [snd List.length].
    replace (List.length rest <? S (List.length rest))%nat with true
      by (symmetry; apply Nat.ltb_lt; lia).
    rewrite IH by (cbn in Hlen; lia). reflexivity.
Qed.

Lemma run_cat (A : Type) (r1 r2 : regex) (st : input) (k : input -> option A) :
  run (Cat r1 r2) st k = run r1 st (fun st1 => run r2 st1 k).
Proof. reflexivity. Qed.

Lemma run_line_start (A : Type) (r : regex) (st : input) (k : input -> option A) :
  run (Cat LineStart r) st k = if at_line_start st then run r st k else None.
Proof. reflexivity. Qed.

End RegexRuns.

(** ** What the plain-text normaliser does to any text *)

Module NormaliserRuns.

Import RegexRuns.

Lemma Subsequence_refl (A : Type) (l : list A) : Subsequence l l.
Proof. induction l; constructor; assumption. Qed.

Lemma Subsequence_suffix (A : Type) (pre l : list A) : Subsequence l (pre ++ l).
Proof. induction pre; cbn; [apply Subsequence_refl|now constructor]. Qed.

Lemma Subsequence_prefix (A : Type) (l post : list A) : Subsequence l (l ++ post).
Proof.
  induction l as [|x l IH]; cbn.
  - induction post; constructor; assumption.
  - now constructor.
Qed.

Lemma Subsequence_trans (A : Type) (b c : list A) :
  Subsequence b c -> forall a, Subsequence a b -> Subsequence a c.
Proof.
  induction 1 as [|x b c Hbc IH|x b c Hbc IH]; intros a Hab.
  - assumption.
  - inversion Hab; subst; constructor; auto.
  - constructor. auto.
Qed.

Lemma Subsequence_In (A : Type) (a b : list A) (x : A) :
  Subsequence a b -> In x a -> In x b.
Proof.
  induction 1 as [|y a b Hab IH|y a b Hab IH]; cbn; intros Hin.
  - assumption.
  - destruct Hin; [now left|right; auto].
  - right. auto.
Qed.

Lemma Subsequence_length (A : Type) (a b : list A) :
  Subsequence a b -> (List.length a <= List.length b)%nat.
Proof. induction 1; cbn; lia. Qed.

(** Replacing matches by nothing only takes units away, whatever the
    pattern. *)
Lemma replace_by_nothing (r : regex) :
  forall (s : jsstring) (prev : option N) (skip : nat),
    Subsequence (replace_from r [] prev s skip) s.
Proof.
  induction s as [|c rest IH]; intros prev skip; cbn [replace_from].
  - destruct skip; [|constructor].
    match goal with |- context [exec ?r0 ?st] => destruct (exec r0 st) end; constructor.
  - destruct skip as [|n]; [|constructor; apply IH].
    match goal with |- context [exec ?r0 ?st] => destruct (exec r0 st) as [[|n]|] end;
      cbn [app]; constructor; apply IH.
Qed.

(** [trimStart] drops a run of white space at the start. *)
Lemma trimStart_split (s : jsstring) :
  exists pre, s = pre ++ trimStart s /\ Forall (fun c => isWhiteSpace c = true) pre.
Proof.
  induction s as [|c rest [pre [Hsplit Hall]]]; cbn [trimStart].
  - exists []. split; [reflexivity|constructor].
  - destruct (isWhiteSpace c) eqn:Hc.
    + exists (c :: pre). split; [cbn; now rewrite <- Hsplit|now constructor].
    + exists []. split; [reflexivity|constructor].
Qed.

Lemma trimStart_starts (s : jsstring) :
  match trimStart s with [] => True | c :: _ => isWhiteSpace c = false end.
Proof.
  induction s as [|c rest IH]; cbn [trimStart]; [exact I|].
  destruct (isWhiteSpace c) eqn:Hc; assumption.
Qed.

(** [trim] drops a run of white space at each end, and nothing else. *)
Lemma trim_split (s : jsstring) :
  exists pre post,
    s = pre ++ trim s ++ post
    /\ Forall (fun c => isWhiteSpace c = true) pre
    /\ Forall (fun c => isWhiteSpace c = true) post.
Proof.
  destruct (trimStart_split s) as [pre [Hpre Hallpre]].
  destruct (trimStart_split (rev (trimStart s))) as [tail [Htail Halltail]].
  exists pre, (rev tail). repeat split; try assumption.
  - unfold trim, trimEnd. rewrite <- rev_app_distr, <- Htail, rev_involutive.
    exact Hpre.
  - apply Forall_rev. assumption.
Qed.

Lemma trim_ends (s : jsstring) : no_space_at_ends (trim s) = true.
Proof.
  unfold trim, trimEnd.
  pose proof (trimStart_starts s) as Hfirst.
  pose proof (trimStart_starts (rev (trimStart s))) as Hlast.
  destruct (trimStart_split (rev (trimStart s))) as [tail [Htail _]].
  set (t := trimStart s) in *.
  set (u := trimStart (rev t)) in *.
  assert (Ht : t = rev u ++ rev tail).
  { rewrite <- rev_app_distr, <- Htail. now rewrite rev_involutive. }
  destruct u as [|z u']; [reflexivity|].
  cbn [rev] in *.
  destruct (rev u' ++ [z]) as [|c body] eqn:Hrev.
  { destruct (rev u'); discriminate. }
  unfold no_space_at_ends.
  assert (Hc : isWhiteSpace c = false).
  { rewrite Ht in Hfirst. cbn in Hfirst. exact Hfirst. }
  rewrite Hc. rewrite <- Hrev, last_last, Hlast. reflexivity.
Qed.

Lemma trim_only_deletes (s : jsstring) : Subsequence (trim s) s.
Proof.
  destruct (trim_split s) as [pre [post [Hsplit _]]].
  rewrite Hsplit at 2.
  eapply Subsequence_trans; [apply Subsequence_suffix|apply Subsequence_prefix].
Qed.

Lemma cleanOutput_subsequence (s : jsstring) :
  Subsequence (ClaudeCode.cleanOutput s) s.
Proof.
  unfold ClaudeCode.cleanOutput, stripAnsi, replace_all.
  eapply Subsequence_trans; [apply replace_by_nothing|].
  eapply Subsequence_trans; [apply replace_by_nothing|].
  eapply Subsequence_trans; [apply replace_by_nothing|].
  apply trim_only_deletes.
Qed.

Lemma greedy_dot_carriage_return (A : Type) (K : input -> option A) :
  forall (s : jsstring) (prev : option N),
    greedy (fun c => negb (isLineTerminator c)) (fun st1 => run (Chr CR) st1 K) prev s
    = match after_carriage_return s with
      | Some rest => K (Some CR, rest)
      | None => None
      end.
Proof.
  induction s as [|c rest IH]; intros prev; [reflexivity|].
  cbn [greedy after_carriage_return]. rewrite IH.
  cbn [run Chr snd].
  destruct (N.eqb_spec CR c) as [<-|Hc]; [reflexivity|].
  destruct (isLineTerminator c); cbn [negb]; [reflexivity|].
  destruct (after_carriage_return rest) as [rest'|]; [|reflexivity].
  destruct (K (Some CR, rest')); reflexivity.
Qed.

(** Where the pattern ^.*\r matches, and how far: at the start of a line
    that has a carriage return before any other line terminator, up to and
    with that carriage return. *)
Lemma exec_carriage_return_line (prev : option N) (s : jsstring) :
  exec ClaudeCode.carriage_return_line (prev, s)
  = if at_line_start (prev, s) then
      match after_carriage_return s with
      | Some rest => Some (List.length s - List.length rest)%nat
      | None => None
      end
    else None.
Proof.
  unfold exec, ClaudeCode.carriage_return_line.
  rewrite run_line_start. destruct (at_line_start (prev, s)); [|reflexivity].
  rewrite run_cat, run_star_class. apply greedy_dot_carriage_return.
Qed.

Lemma after_carriage_return_split (s rest : jsstring) :
  after_carriage_return s = Some rest ->
  exists line, s = line ++ CR :: rest.
Proof.
  revert rest. induction s as [|c s' IH]; intros rest H; [discriminate|].
  cbn [after_carriage_return] in H.
  destruct (N.eqb_spec CR c) as [<-|Hc].
  - injection H as <-. now exists [].
  - destruct (isLineTerminator c); [discriminate|].
    apply IH in H as [line ->]. now exists (c :: line).
Qed.

Lemma skip_over (r : regex) (replacement : jsstring) :
  forall (line : jsstring) (prev : option N) (x : N) (rest : jsstring),
    replace_from r replacement prev (line ++ x :: rest) (S (List.length line))
    = replace_from r replacement (Some x) rest O.
Proof.
  induction line as [|c line IH]; intros prev x rest; cbn [app replace_from List.length].
  - reflexivity.
  - apply IH.
Qed.

(** One step of the removal of carriage-return lines. *)
Lemma remove_carriage_return_step (prev : option N) (c : N) (rest : jsstring) :
  replace_from ClaudeCode.carriage_return_line [] prev (c :: rest) O
  = if at_line_start (prev, c :: rest) then
      match after_carriage_return (c :: rest) with
      | Some rest' => replace_from ClaudeCode.carriage_return_line [] (Some CR) rest' O
      | None => c :: replace_from ClaudeCode.carriage_return_line [] (Some c) rest O
      end
    else c :: replace_from ClaudeCode.carriage_return_line [] (Some c) rest O.
Proof.
  cbn [replace_from].
  match goal with |- context [exec ?r0 ?st] =>
    change (exec r0 st) with (exec ClaudeCode.carriage_return_line (prev, c :: rest)) end.
  rewrite exec_carriage_return_line. unfold jsstring in *.
  destruct (at_line_start (prev, c :: rest)); [|reflexivity].
  destruct (after_carriage_return (c :: rest)) as [rest'|] eqn:Hcr; [|reflexivity].
  destruct (after_carriage_return_split _ Hcr) as [line Hsplit].
  rewrite Hsplit. rewrite length_app. cbn [List.length].
  replace (List.length line + S (List.length rest') - List.length rest')%nat
    with (S (List.length line)) by lia.
  destruct line as [|c' line']; cbn [app] in Hsplit |- *.
  - injection Hsplit as -> ->. reflexivity.
  - injection Hsplit as -> ->. cbn [List.length]. apply skip_over.
Qed.

(** After the removal no carriage return is left. *)
Lemma remove_carriage_return_lines (n : nat) :
  forall (s : jsstring) (prev : option N),
    (List.length s <= n)%nat ->
    at_line_start (prev, s) = true \/ after_carriage_return s = None ->
    ~ In CR (replace_from ClaudeCode.carriage_return_line [] prev s O).
Proof.
  induction n as [|n IH]; intros s prev Hlen Hinv.
  - destruct s; [|cbn in Hlen; lia]. cbn [replace_from].
    match goal with |- context [exec ?r0 ?st] => destruct (exec r0 st) end; intros [].
  - destruct s as [|c rest].
    { cbn [replace_from].
      match goal with |- context [exec ?r0 ?st] => destruct (exec r0 st) end; intros []. }
    cbn [List.length] in Hlen.
    assert (Hstep : after_carriage_return (c :: rest) = None ->
                    ~ In CR (c :: replace_from ClaudeCode.carriage_return_line []
                                   (Some c) rest O)).
    { intros Hnone. cbn [after_carriage_return] in Hnone.
      destruct (N.eqb_spec CR c) as [Heq|Hne]; [discriminate|].
      intros [Hhead|Htail]; [congruence|]. revert Htail.
      apply IH; [lia|].
      unfold at_line_start. cbn [fst].
      destruct (isLineTerminator c); [now left|now right]. }
    rewrite remove_carriage_return_step.
    destruct (at_line_start (prev, c :: rest)) eqn:Hstart.
    + destruct (after_carriage_return (c :: rest)) as [rest'|] eqn:Hcr.
      * destruct (after_carriage_return_split _ Hcr) as [line Hsplit].
        apply IH; [|now left].
        apply (f_equal (@List.length _)) in Hsplit.
        rewrite length_app in Hsplit. cbn [List.length] in Hsplit. lia.
      * now apply Hstep.
    + destruct Hinv as [Hinv|Hinv]; [|now apply Hstep].
      unfold jsstring in *. rewrite Hstart in Hinv. discriminate.
Qed.

Lemma cleanOutput_no_CR (s : jsstring) : ~ In CR (ClaudeCode.cleanOutput s).
Proof.
  unfold ClaudeCode.cleanOutput, replace_all. intros Hin.
  apply (@Subsequence_In _ _ _ CR (trim_only_deletes _)) in Hin.
  apply (@Subsequence_In _ _ _ CR (replace_by_nothing _ _ _ _)) in Hin.
  revert Hin. apply (remove_carriage_return_lines (n := List.length (stripAnsi s)));
    [lia|now left].
Qed.

End NormaliserRuns.

(** ** Reading back what the program serialises *)

Module RoundTripFacts.

Lemma hex_round (x : N) : (x < 16)%N -> hex_value (hex_digit x) = Some x.
Proof.
  intros H. destruct x as [|p]; [reflexivity|].
  do 4 (destruct p as [p|p|]; try reflexivity); exfalso; lia.
Qed.

Lemma unicode_value (c : N) :
  (c < 65536)%N ->
  (4096 * ((c / 4096) mod 16) + 256 * ((c / 256) mod 16)
   + 16 * ((c / 16) mod 16) + c mod 16 = c)%N.
Proof.
  intros H. zify. Z.to_euclidean_division_equations. lia.
Qed.

(** An escape [\uXXXX] reads back as the unit it was written for. *)
Lemma parse_unicode_escape (c : N) (t : jsstring) :
  (c < 65536)%N ->
  parse_string_body (unicode_escape c ++ t) = cons_unit c (parse_string_body t).
Proof.
  intros H. unfold unicode_escape. cbn [app].
  cbn [parse_string_body N.eqb Pos.eqb].
  rewrite !hex_round by (apply N.mod_lt; lia).
  rewrite unicode_value by assumption. reflexivity.
Qed.

(** A unit copied as it is reads back as itself. *)
Lemma parse_plain_unit (c : N) (t : jsstring) :
  c <> 34%N -> c <> 92%N -> (32 <= c)%N ->
  parse_string_body (c :: t) = cons_unit c (parse_string_body t).
Proof.
  intros H34 H92 H32. cbn [parse_string_body].
  destruct (N.eqb_spec c 34); [congruence|].
  destruct (N.eqb_spec c 92); [congruence|].
  destruct (N.ltb_spec c 32); [lia|reflexivity].
Qed.

Lemma parse_quote_unit (c : N) (t : jsstring) :
  parse_string_body (quote_unit c ++ t) = cons_unit c (parse_string_body t).
Proof.
  unfold quote_unit.
  destruct (N.eqb_spec c 8) as [->|H8]; [reflexivity|].
  destruct (N.eqb_spec c 9) as [->|H9]; [reflexivity|].
  destruct (N.eqb_spec c 10) as [->|H10]; [reflexivity|].
  destruct (N.eqb_spec c 12) as [->|H12]; [reflexivity|].
  destruct (N.eqb_spec c 13) as [->|H13]; [reflexivity|].
  destruct (N.eqb_spec c 34) as [->|H34]; [reflexivity|].
  destruct (N.eqb_spec c 92) as [->|H92]; [reflexivity|].
  destruct (N.ltb_spec c 32) as [Hlt|Hge].
  - apply parse_unicode_escape. lia.
  - now apply parse_plain_unit.
Qed.

Lemma high_surrogate_range (c : N) :
  is_high_surrogate c = true -> (55296 <= c <= 56319)%N.
Proof.
  unfold is_high_surrogate. intros H. apply andb_true_iff in H as [H1 H2].
  apply N.leb_le in H1, H2. lia.
Qed.

Lemma low_surrogate_range (c : N) :
  is_low_surrogate c = true -> (56320 <= c <= 57343)%N.
Proof.
  unfold is_low_surrogate. intros H. apply andb_true_iff in H as [H1 H2].
  apply N.leb_le in H1, H2. lia.
Qed.

(** What QuoteJSONString writes between the quotes reads back as the
    string, whatever follows the closing quote. *)
Lemma parse_quote_body (n : nat) :
  forall s rest : jsstring,
    (List.length s <= n)%nat ->
    parse_string_body (quote_body s ++ DQUOTE :: rest) = Some (s, rest).
Proof.
  induction n as [|n IH]; intros s rest Hlen.
  - destruct s; [reflexivity|cbn in Hlen; lia].
  - destruct s as [|c s1]; [reflexivity|]. cbn [List.length] in Hlen.
    cbn [quote_body].
    destruct (is_high_surrogate c) eqn:Hhigh.
    + apply high_surrogate_range in Hhigh.
      destruct s1 as [|d s2].
      * rewrite parse_unicode_escape by lia. reflexivity.
      * destruct (is_low_surrogate d) eqn:Hlow.
        -- apply low_surrogate_range in Hlow. cbn [app List.length] in *.
           rewrite parse_plain_unit by lia. rewrite parse_plain_unit by lia.
           rewrite IH by lia. reflexivity.
        -- rewrite <- app_assoc, parse_unicode_escape by lia.
           rewrite IH by lia. reflexivity.
    + destruct (is_low_surrogate c) eqn:Hlow.
      * apply low_surrogate_range in Hlow.
        rewrite <- app_assoc, parse_unicode_escape by lia.
        rewrite IH by lia. reflexivity.
      * rewrite <- app_assoc, parse_quote_unit. rewrite IH by lia. reflexivity.
Qed.

Lemma parse_quoted (s rest : jsstring) :
  parse_string_body (quote_body s ++ DQUOTE :: rest) = Some (s, rest).
Proof. now apply (parse_quote_body (n := List.length s)). Qed.

Lemma parse_value_step (f : nat) (s : jsstring) :
  parse_value (S f) s
  = match skip_space s with
    | [] => Malformed
    | c :: rest =>
        if (c =? 123)%N then
          match skip_space rest with
          | d :: rest' =>
              if (d =? 125)%N then Parsed (VObj []) rest'
              else parse_members f rest []
          | [] => Malformed
          end
        else if (c =? 91)%N then
          match skip_space rest with
          | d :: rest' =>
              if (d =? 93)%N then Parsed (VArr []) rest'
              else parse_elements f rest []
          | [] => Malformed
          end
        else if (c =? 34)%N then
          match parse_string_body rest with
          | Some (text, rest') => Parsed (VStr text) rest'
          | None => Malformed
          end
        else if (c =? 116)%N then expect (lit "true") (VBool true) (c :: rest)
        else if (c =? 102)%N then expect (lit "false") (VBool false) (c :: rest)
        else if (c =? 110)%N then expect (lit "null") VNull (c :: rest)
        else
          match parse_number (c :: rest) with
          | Some (x, rest') => Parsed (VNum x) rest'
          | None => Malformed
          end
    end.
Proof. reflexivity. Qed.

Lemma parse_elements_step (f : nat) (s : jsstring) (acc : list value) :
  parse_elements (S f) s acc
  = match parse_value f s with
    | Parsed v rest =>
        match skip_space rest with
        | c :: rest' =>
            if (c =? 44)%N then parse_elements f rest' (v :: acc)
            else if (c =? 93)%N then Parsed (VArr (rev (v :: acc))) rest'
            else Malformed
        | [] => Malformed
        end
    | Malformed => Malformed
    | Exhausted => Exhausted
    end.
Proof. reflexivity. Qed.

Lemma parse_members_step (f : nat) (s : jsstring) (props : list (jsstring * value)) :
  parse_members (S f) s props
  = match skip_space s with
    | c :: rest =>
        if (c =? 34)%N then
          match parse_string_body rest with
          | Some (key, rest1) =>
              match skip_space rest1 with
              | d :: rest2 =>
                  if (d =? 58)%N then
                    match parse_value f rest2 with
                    | Parsed v rest3 =>
                        match skip_space rest3 with
                        | e :: rest4 =>
                            if (e =? 44)%N
                            then parse_members f rest4 (define_property props key v)
                            else if (e =? 125)%N
                                 then Parsed (VObj (define_property props key v)) rest4
                                 else Malformed
                        | [] => Malformed
                        end
                    | Malformed => Malformed
                    | Exhausted => Exhausted
                    end
                  else Malformed
              | [] => Malformed
              end
          | None => Malformed
          end
        else Malformed
    | [] => Malformed
    end.
Proof. reflexivity. Qed.

(** More fuel changes nothing once the parser has ended by itself. *)
Lemma parse_more_fuel (f : nat) :
  (forall s, parse_value f s <> Exhausted -> parse_value (S f) s = parse_value f s)
  /\ (forall s acc, parse_elements f s acc <> Exhausted ->
                    parse_elements (S f) s acc = parse_elements f s acc)
  /\ (forall s props, parse_members f s props <> Exhausted ->
                      parse_members (S f) s props = parse_members f s props).
Proof.
  induction f as [|f [IHv [IHe IHm]]].
  { repeat split; intros; cbn in *; congruence. }
  split; [|split].
  - intros s H. rewrite (parse_value_step (S f)). rewrite (parse_value_step f) in H |- *.
    destruct (skip_space s) as [|c rest]; [reflexivity|].
    destruct (c =? 123)%N.
    { destruct (skip_space rest) as [|d rest']; [reflexivity|].
      destruct (d =? 125)%N; [reflexivity|]. now apply IHm. }
    destruct (c =? 91)%N.
    { destruct (skip_space rest) as [|d rest']; [reflexivity|].
      destruct (d =? 93)%N; [reflexivity|]. now apply IHe. }
    reflexivity.
  - intros s acc H.
    rewrite (parse_elements_step (S f)). rewrite (parse_elements_step f) in H |- *.
    assert (Hv : parse_value f s <> Exhausted).
    { intros E. rewrite E in H. congruence. }
    rewrite (IHv s Hv).
    destruct (parse_value f s) as [v rest| |]; try reflexivity.
    destruct (skip_space rest) as [|c rest']; [reflexivity|].
    destruct (c =? 44)%N; [|reflexivity]. now apply IHe.
  - intros s props H.
    rewrite (parse_members_step (S f)). rewrite (parse_members_step f) in H |- *.
    destruct (skip_space s) as [|c rest]; [reflexivity|].
    destruct (c =? 34)%N; [|reflexivity].
    destruct (parse_string_body rest) as [[key rest1]|]; [|reflexivity].
    destruct (skip_space rest1) as [|d rest2]; [reflexivity|].
    destruct (d =? 58)%N; [|reflexivity].
    assert (Hv : parse_value f rest2 <> Exhausted).
    { intros E. rewrite E in H. congruence. }
    rewrite (IHv rest2 Hv).
    destruct (parse_value f rest2) as [v rest3| |]; try reflexivity.
    destruct (skip_space rest3) as [|e rest4]; [reflexivity|].
    destruct (e =? 44)%N; [|reflexivity]. now apply IHm.
Qed.

Lemma parse_value_fuel (f g : nat) (s : jsstring) :
  (f <= g)%nat -> parse_value f s <> Exhausted -> parse_value g s = parse_value f s.
Proof.
  induction 1 as [|g Hle IH]; intros H; [reflexivity|].
  rewrite <- (IH H). apply parse_more_fuel. rewrite (IH H). exact H.
Qed.

(** [JSON.parse] agrees with every run of the parser that ended. *)
Lemma JSON_parse_with (f : nat) (text : jsstring) (v : value) :
  parse_value f text = Parsed v [] -> JSON_parse text = Return v.
Proof.
  intros H. unfold JSON_parse.
  assert (Hsame : parse_value (parse_fuel text) text = Parsed v []).
  { destruct (Nat.le_ge_cases f (parse_fuel text)) as [Hle|Hge].
    - rewrite (@parse_value_fuel f (parse_fuel text) text Hle); [exact H|]. rewrite H. discriminate.
    - rewrite <- H. symmetry. apply parse_value_fuel; [exact Hge|].
      apply ParseFacts.parse_fuel_enough. }
  rewrite Hsame. reflexivity.
Qed.

Lemma quote_parses (s : jsstring) : JSON_parse (QuoteJSONString s) = Return (VStr s).
Proof.
  apply (@JSON_parse_with 1). unfold QuoteJSONString.
  rewrite parse_value_step. cbn [app skip_space is_json_space DQUOTE N.eqb Pos.eqb orb].
  rewrite parse_quoted. reflexivity.
Qed.

Lemma parse_value_skip (f : nat) (c : N) (s : jsstring) :
  is_json_space c = true -> parse_value f (c :: s) = parse_value f s.
Proof.
  intros Hc. destruct f; [reflexivity|].
  rewrite !parse_value_step. cbn [skip_space]. now rewrite Hc.
Qed.

(** One message of the history block, an object of [role] and [content]
    in either order, reads back as the message object. *)
Lemma parse_message (f : nat) (m : Message) (rest : jsstring) :
  two_properties m ->
  parse_value (4 + f) (serialized_object m ++ rest) = Parsed (Message_value m) rest.
Proof.
  intros [Hlayout|Hlayout].
  - rewrite (PromptFacts.serialize_message _ Hlayout).
    destruct m as [r c l]. cbn [layout] in Hlayout. subst l.
    unfold serialized_message, Message_value, own_properties, QuoteJSONString.
    cbn [role content layout role_then_content content_first front middle back app plus].
    destruct r; cbn [Role_name]; rewrite <- !app_assoc; cbn;
      rewrite <- ?app_assoc; cbn [app]; rewrite parse_quoted; reflexivity.
  - rewrite (PromptFacts.serialize_message_content_first _ Hlayout).
    destruct m as [r c l]. cbn [layout] in Hlayout. subst l.
    unfold serialized_message_content_first, Message_value, own_properties,
      QuoteJSONString.
    cbn [role content layout content_then_role content_first front middle back app plus].
    destruct r; cbn [Role_name]; rewrite <- !app_assoc; cbn;
      rewrite <- ?app_assoc; cbn [app]; rewrite parse_quoted; reflexivity.
Qed.

Lemma parse_history_elements (h : list Message) :
  forall (m : Message) (acc : list value) (f : nat) (tail : jsstring),
    two_properties m -> Forall two_properties h ->
    parse_elements (List.length h + 5 + f)
      (LF :: join (lit "," ++ [LF]) (List.map serialized_object (m :: h))
          ++ LF :: 93%N :: tail) acc
    = Parsed (VArr (rev acc ++ List.map Message_value (m :: h))) tail.
Proof.
  induction h as [|m' h' IH]; intros m acc f tail Hm Hh.
  - cbn [List.length plus List.map join].
    rewrite parse_elements_step, parse_value_skip by reflexivity.
    rewrite (@parse_message f m _ Hm). reflexivity.
  - replace (List.length (m' :: h') + 5 + f)%nat
      with (S (4 + (List.length h' + 1 + f)))%nat by (cbn [List.length]; lia).
    rewrite parse_elements_step, parse_value_skip by reflexivity.
    change (join (lit "," ++ [LF]) (List.map serialized_object (m :: m' :: h')))
      with (serialized_object m
            ++ (lit "," ++ [LF])
            ++ join (lit "," ++ [LF]) (List.map serialized_object (m' :: h'))).
    rewrite <- !app_assoc. rewrite (@parse_message _ m _ Hm).
    match goal with
    | |- context [skip_space (lit "," ++ [LF] ++ ?t)] =>
        change (skip_space (lit "," ++ [LF] ++ t)) with (44%N :: LF :: t)
    end.
    cbn [N.eqb Pos.eqb].
    replace (4 + (List.length h' + 1 + f))%nat with (List.length h' + 5 + f)%nat by lia.
    inversion Hh as [|x l Hm' Hh']; subst.
    rewrite (IH m' (Message_value m :: acc) f tail Hm' Hh').
    cbn [rev]. rewrite <- app_assoc. reflexivity.
Qed.

Lemma history_starts_with_brace (m : Message) (h : list Message) (tail : jsstring) :
  two_properties m ->
  exists rest,
    skip_space (LF :: join (lit "," ++ [LF]) (List.map serialized_object (m :: h)) ++ tail)
    = 123%N :: rest.
Proof.
  intros [Hm|Hm].
  - destruct h; cbn [List.map join]; rewrite (PromptFacts.serialize_message _ Hm);
      unfold serialized_message; rewrite <- !app_assoc; eexists; reflexivity.
  - destruct h; cbn [List.map join];
      rewrite (PromptFacts.serialize_message_content_first _ Hm);
      unfold serialized_message_content_first; rewrite <- !app_assoc;
      eexists; reflexivity.
Qed.

(** The history block reads back as the array of the message objects. *)
Lemma history_parses (h : list Message) :
  Forall two_properties h ->
  JSON_parse (JSON_stringify_indent 2 (Messages_value h)) = Return (Messages_value h).
Proof.
  intros Hall.
  destruct h as [|m h]; [reflexivity|].
  inversion Hall as [|x l Hm Hh]; subst.
  rewrite PromptFacts.stringify_objects by discriminate.
  apply (@JSON_parse_with (S (List.length h + 5 + 0))).
  unfold serialized_objects. rewrite parse_value_step.
  match goal with
  | |- context [skip_space (lit "[" ++ [LF] ++ ?t)] =>
      change (skip_space (lit "[" ++ [LF] ++ t)) with (91%N :: LF :: t)
  end.
  cbn [N.eqb Pos.eqb].
  destruct (@history_starts_with_brace m h ([LF] ++ lit "]") Hm) as [rest Hrest].
  rewrite Hrest. cbn [N.eqb Pos.eqb].
  apply (@parse_history_elements h m [] 0 [] Hm Hh).
Qed.

Lemma Role_reads_back (r : Role) : Role_of_name (Role_name r) = Some r.
Proof. destruct r; reflexivity. Qed.

Lemma Message_reads_back (m : Message) :
  two_properties m -> Message_of_value (Message_value m) = Some m.
Proof.
  destruct m as [r c l]. unfold two_properties. cbn [layout].
  intros [->| ->]; unfold Message_value, Message_of_value, own_properties;
    cbn [role content layout role_then_content content_then_role content_first
         front middle back app].
  - change (streq (lit "role") (lit "role") && streq (lit "content") (lit "content"))
      with true.
    cbv iota. now rewrite Role_reads_back.
  - change (streq (lit "content") (lit "role") && streq (lit "role") (lit "content"))
      with false.
    change (streq (lit "content") (lit "content") && streq (lit "role") (lit "role"))
      with true.
    cbv iota. now rewrite Role_reads_back.
Qed.

Lemma Messages_read_back (h : list Message) :
  Forall two_properties h -> Messages_of_values (List.map Message_value h) = Some h.
Proof.
  induction 1 as [|m h Hm _ IH]; [reflexivity|].
  cbn [List.map Messages_of_values]. now rewrite (Message_reads_back Hm), IH.
Qed.

Lemma history_decodes (h : list Message) :
  Forall two_properties h ->
  decode_messages (JSON_stringify_indent 2 (Messages_value h)) = Some h.
Proof.
  intros Hall. unfold decode_messages. rewrite (history_parses Hall).
  now apply Messages_read_back.
Qed.

End RoundTripFacts.

(** ** Prompt builders: what the tool is given can be read back *)

Module PromptProperties.

Import ClaudeCode PromptFacts RoundTripFacts.

Lemma user_prompt_of_turns (messages messages' : list Message) :
  turn_sequence messages = turn_sequence messages' ->
  userPrompt (buildClaudeCodeCommand messages)
  = userPrompt (buildClaudeCodeCommand messages').
Proof.
  intros Hturns. unfold buildClaudeCodeCommand. cbn [userPrompt].
  rewrite (turns_of_filter messages).
  rewrite (turns_of_filter messages').
  now rewrite Hturns.
Qed.

(** X1. With more than one turn, when the earlier turns are objects of
    [role] and [content] alone, in either order, the block between the
    history label and the current-message label is a JSON text that
    parses back to exactly the earlier turns, roles, contents and
    property order unchanged, whatever code units the contents hold
    (quotes, backslashes, control characters, lone surrogates).  The same
    block is in the Gemini prompt. *)
Theorem history_block_reads_back :
  forall messages : list Message,
    let turns := turn_sequence messages in
    let n := List.length turns in
    (1 < n)%nat ->
    Forall two_properties (firstn (n - 1) turns) ->
    exists (block : jsstring) (current : Message),
      nth_error turns (n - 1) = Some current
      /\ userPrompt (buildClaudeCodeCommand messages)
         = history_label ++ [LF] ++ block ++ [LF; LF]
           ++ current_label ++ content current
      /\ GeminiCLI.buildGeminiPrompt messages
         = combined_prompt
             (effective_system_prompt GeminiCLI.CONVERSATION_SYSTEM_PROMPT
                (base_system_text messages))
             (history_label ++ [LF] ++ block ++ [LF; LF]
              ++ current_label ++ content current)
      /\ decode_messages block = Some (firstn (n - 1) turns).
Proof.
  intros messages turns n Hn Hall.
  destruct (split_last turns) as [current [Hnth Hsplit]]; [fold n; lia|].
  fold n in Hnth, Hsplit.
  assert (Hhist : firstn (n - 1) turns <> []).
  { intros Hnil. apply (f_equal (@List.length _)) in Hnil.
    rewrite length_firstn in Hnil. fold n in Hnil. cbn in Hnil. lia. }
  pose proof (@user_prompt_with_objects messages _ current Hsplit Hhist) as Hclaude.
  exists (serialized_objects (firstn (n - 1) turns)), current.
  split; [exact Hnth|]. split; [exact Hclaude|]. split.
  - rewrite gemini_layout, Hclaude. reflexivity.
  - rewrite <- stringify_objects by assumption. now apply history_decodes.
Qed.

(** X2. The builders read two things off the message list: the content of
    its first system message and its non-system messages in order.  Two
    lists that agree on both give the same command and the same prompt:
    system messages after the first are ignored, and so is the place of
    a system message among the turns. *)
Theorem builders_read_first_system_and_turns :
  forall messages messages' : list Message,
    base_system_text messages = base_system_text messages' ->
    turn_sequence messages = turn_sequence messages' ->
    buildClaudeCodeCommand messages = buildClaudeCodeCommand messages'
    /\ GeminiCLI.buildGeminiPrompt messages = GeminiCLI.buildGeminiPrompt messages'.
Proof.
  intros messages messages' Hbase Hturns.
  pose proof (claude_system_prompt messages) as Hs.
  pose proof (claude_system_prompt messages') as Hs'.
  pose proof (user_prompt_of_turns _ _ Hturns) as Hu.
  split.
  - destruct (buildClaudeCodeCommand messages) as [s u],
      (buildClaudeCodeCommand messages') as [s' u'].
    cbn [systemPrompt userPrompt] in *. subst. now rewrite Hbase.
  - rewrite !gemini_layout. now rewrite Hbase, Hu.
Qed.

End PromptProperties.

(** ** Debug log helpers *)

Module DebugLogProperties.

Import RoundTripFacts.

(** X3. [quote] writes a JSON string literal that [JSON.parse] reads back
    as the string it was given, for every string. *)
Theorem quote_reads_back :
  forall s : jsstring, JSON_parse (DebugLog.quote s) = Return (VStr s).
Proof. intros s. unfold DebugLog.quote. apply quote_parses. Qed.

End DebugLogProperties.

(** ** Plain-text normaliser on arbitrary text *)

Module NormaliserProperties.

Import NormaliserRuns.

(** X5. No carriage return is left in what the normaliser returns. *)
Theorem cleanOutput_leaves_no_carriage_return :
  forall s : jsstring,
    ~ In CR (ClaudeCode.cleanOutput s) /\ ~ In CR (GeminiCLI.cleanOutput s).
Proof. intros s. split; apply cleanOutput_no_CR. Qed.

(** X6. What the normaliser returns has no white space at either end. *)
Theorem cleanOutput_result_is_trimmed :
  forall s : jsstring,
    no_space_at_ends (ClaudeCode.cleanOutput s) = true
    /\ no_space_at_ends (GeminiCLI.cleanOutput s) = true.
Proof. intros s. split; apply trim_ends. Qed.

(** X7. The normaliser only deletes: its result is the input with some
    code units left out, the others in their order; in particular it is
    never longer than the input. *)
Theorem cleanOutput_only_deletes :
  forall s : jsstring,
    Subsequence (ClaudeCode.cleanOutput s) s
    /\ Subsequence (GeminiCLI.cleanOutput s) s
    /\ (List.length (ClaudeCode.cleanOutput s) <= List.length s)%nat.
Proof.
  intros s. pose proof (cleanOutput_subsequence s) as H.
  repeat split; try exact H. now apply Subsequence_length.
Qed.

End NormaliserProperties.

(** ** Running the tool *)

Module ExecuteProperties.

Import ExecutionFacts.

Lemma claude_success (w : World) (self : ClaudeCode.ClaudeCodeAdapter)
  (messages : list Message) (out errtext : jsstring) (st : State) :
  child_process w (ClaudeCode.invocation self (ClaudeCode.buildClaudeCodeCommand messages))
  = Exited out errtext ->
  snd (ClaudeCode.execute w self messages st) = Return (ClaudeCode.cleanOutput out).
Proof.
  intros Hchild.
  unfold ClaudeCode.execute, mbind, try_catch_M, execFile, when.
  rewrite Hchild.
  destruct (ClaudeCode.debug self); reflexivity.
Qed.

Lemma gemini_success (w : World) (self : GeminiCLI.GeminiCLIAdapter)
  (messages : list Message) (out errtext : jsstring) (st : State) :
  child_process w (GeminiCLI.invocation self (GeminiCLI.buildGeminiPrompt messages))
  = Exited out errtext ->
  snd (GeminiCLI.execute w self messages st) = GeminiCLI.extractResponse out.
Proof.
  intros Hchild.
  unfold GeminiCLI.execute, mbind, try_catch_M, execFile, when.
  rewrite Hchild.
  destruct (ExtractTheorems.extractResponse_returns out) as [v Hv].
  unfold lift, now, console_write, ret.
  destruct (GeminiCLI.debug self); cbn [fst snd]; rewrite Hv; reflexivity.
Qed.

Lemma claude_outcome_of_child (w w' : World) (self self' : ClaudeCode.ClaudeCodeAdapter)
  (messages : list Message) (st st' : State) :
  child_process w (ClaudeCode.invocation self (ClaudeCode.buildClaudeCodeCommand messages))
  = child_process w'
      (ClaudeCode.invocation self' (ClaudeCode.buildClaudeCodeCommand messages)) ->
  snd (ClaudeCode.execute w self messages st)
  = snd (ClaudeCode.execute w' self' messages st').
Proof.
  intros Hsame.
  destruct (child_process w'
              (ClaudeCode.invocation self' (ClaudeCode.buildClaudeCodeCommand messages)))
    as [out errtext|err out errtext] eqn:Hchild.
  - now rewrite (claude_success _ _ _ st Hsame), (claude_success _ _ _ st' Hchild).
  - now rewrite (claude_failure _ _ _ st Hsame), (claude_failure _ _ _ st' Hchild).
Qed.

Lemma gemini_outcome_of_child (w w' : World) (self self' : GeminiCLI.GeminiCLIAdapter)
  (messages : list Message) (st st' : State) :
  child_process w (GeminiCLI.invocation self (GeminiCLI.buildGeminiPrompt messages))
  = child_process w'
      (GeminiCLI.invocation self' (GeminiCLI.buildGeminiPrompt messages)) ->
  snd (GeminiCLI.execute w self messages st)
  = snd (GeminiCLI.execute w' self' messages st').
Proof.
  intros Hsame.
  destruct (child_process w'
              (GeminiCLI.invocation self' (GeminiCLI.buildGeminiPrompt messages)))
    as [out errtext|err out errtext] eqn:Hchild.
  - now rewrite (gemini_success _ _ _ st Hsame), (gemini_success _ _ _ st' Hchild).
  - now rewrite (gemini_failure _ _ _ st Hsame), (gemini_failure _ _ _ st' Hchild).
Qed.

(** X8. When the child exits normally, [execute] returns: the Claude
    adapter the plain-text cleaning of the child's standard output, the
    Gemini adapter what the structured-output normaliser makes of it,
    whatever the child wrote to its standard error and whether or not
    debugging is on. *)
Theorem exited_child_output_is_normalised :
  forall (w : World) (messages : list Message) (out errtext : jsstring) (st : State),
    (forall self : ClaudeCode.ClaudeCodeAdapter,
        child_process w
          (ClaudeCode.invocation self (ClaudeCode.buildClaudeCodeCommand messages))
        = Exited out errtext ->
        snd (ClaudeCode.execute w self messages st)
        = Return (ClaudeCode.cleanOutput out))
    /\ (forall self : GeminiCLI.GeminiCLIAdapter,
           child_process w
             (GeminiCLI.invocation self (GeminiCLI.buildGeminiPrompt messages))
           = Exited out errtext ->
           snd (GeminiCLI.execute w self messages st) = GeminiCLI.extractResponse out
           /\ exists v, GeminiCLI.extractResponse out = Return v).
Proof.
  intros w messages out errtext st. split; intros self Hchild.
  - now apply claude_success with (errtext := errtext).
  - split; [now apply gemini_success with (errtext := errtext)|].
    apply ExtractTheorems.extractResponse_returns.
Qed.

(** X9. What [execute] returns or throws is settled by how its one child
    process ended: two runs whose children ended alike end alike,
    whatever the clock, the console, the other processes of the world
    and the debug flag are. *)
Theorem outcome_is_settled_by_the_child :
  forall (w w' : World) (messages : list Message) (st st' : State),
    (forall (dir : jsstring) (t : N) (d d' : bool),
        let self := ClaudeCode.mkClaudeCodeAdapter dir t d in
        let self' := ClaudeCode.mkClaudeCodeAdapter dir t d' in
        child_process w
          (ClaudeCode.invocation self (ClaudeCode.buildClaudeCodeCommand messages))
        = child_process w'
            (ClaudeCode.invocation self (ClaudeCode.buildClaudeCodeCommand messages)) ->
        snd (ClaudeCode.execute w self messages st)
        = snd (ClaudeCode.execute w' self' messages st'))
    /\ (forall (dir : jsstring) (t : N) (d d' : bool) (model : jsstring),
           let self := GeminiCLI.mkGeminiCLIAdapter dir t d model in
           let self' := GeminiCLI.mkGeminiCLIAdapter dir t d' model in
           child_process w
             (GeminiCLI.invocation self (GeminiCLI.buildGeminiPrompt messages))
           = child_process w'
               (GeminiCLI.invocation self (GeminiCLI.buildGeminiPrompt messages)) ->
           snd (GeminiCLI.execute w self messages st)
           = snd (GeminiCLI.execute w' self' messages st')).
Proof.
  intros w w' messages st st'. split.
  - intros dir t d d' self self' Hsame. now apply claude_outcome_of_child.
  - intros dir t d d' model self self' Hsame. now apply gemini_outcome_of_child.
Qed.

(** X10. With debugging off, [execute] writes nothing to the console and
    reads the clock once, however the child ends. *)
Theorem no_debug_no_console_output :
  forall (w : World) (messages : list Message) (st : State),
    (forall (dir : jsstring) (t : N),
        let st' := fst (ClaudeCode.execute w (ClaudeCode.mkClaudeCodeAdapter dir t false)
                          messages st) in
        console st' = console st /\ clock_reads st' = S (clock_reads st))
    /\ (forall (dir : jsstring) (t : N) (model : jsstring),
           let st' := fst (GeminiCLI.execute w
                             (GeminiCLI.mkGeminiCLIAdapter dir t false model)
                             messages st) in
           console st' = console st /\ clock_reads st' = S (clock_reads st)).
Proof.
  intros w messages st. split.
  - intros dir t.
    unfold ClaudeCode.execute, mbind, try_catch_M, execFile, when. cbn [ClaudeCode.debug].
    destruct (child_process w _) as [out errtext|err out errtext]; cbn.
    + split; reflexivity.
    + destruct (killed err && _); cbn; split; reflexivity.
  - intros dir t model.
    unfold GeminiCLI.execute, mbind, try_catch_M, execFile, when, lift.
    cbn [GeminiCLI.debug].
    destruct (child_process w _) as [out errtext|err out errtext]; cbn.
    + destruct (ExtractTheorems.extractResponse_returns out) as [v Hv]. rewrite Hv.
      split; reflexivity.
    + destruct (killed err && _); cbn; split; reflexivity.
Qed.

(** X11. [isAvailable] never throws and leaves the console and the clock
    alone.  The Claude adapter answers true exactly when [claude
    --version], given five seconds, exits normally; the Gemini adapter
    when [gemini --version] does or, failing that, [gemini -p hello]. *)
Theorem isAvailable_never_throws :
  forall (w : World) (st : State),
    let probe (file : jsstring) (args : list jsstring) :=
      match child_process w (mkInvocation file args None 5000 None None) with
      | Exited _ _ => true
      | Failed _ _ _ => false
      end in
    ClaudeCode.isAvailable w st = (st, Return (probe (lit "claude") [lit "--version"]))
    /\ GeminiCLI.isAvailable w st
       = (st, Return (probe (lit "gemini") [lit "--version"]
                      || probe (lit "gemini") [lit "-p"; lit "hello"])).
Proof.
  intros w st probe. subst probe. cbv beta. split.
  - unfold ClaudeCode.isAvailable, try_catch_M, mbind, execFile.
    destruct (child_process w _); reflexivity.
  - unfold GeminiCLI.isAvailable, try_catch_M, mbind, execFile.
    destruct (child_process w (mkInvocation (lit "gemini") [lit "--version"] _ _ _ _));
      [reflexivity|].
    destruct (child_process w (mkInvocation (lit "gemini") [lit "-p"; lit "hello"] _ _ _ _));
      reflexivity.
Qed.

End ExecuteProperties.

(** ** Structured-output normaliser: candidates and thrown errors *)

Module ExtractProperties.

Import GeminiCLI.

Lemma join_empty_separator (texts : list jsstring) : join [] texts = List.concat texts.
Proof.
  induction texts as [|t rest IH]; [reflexivity|].
  destruct rest as [|t' rest'].
  - cbn. now rewrite app_nil_r.
  - change (join [] (t :: t' :: rest')) with (t ++ [] ++ join [] (t' :: rest')).
    rewrite IH. reflexivity.
Qed.

(** What a part puts into the array, and what [join] makes of it. *)
Lemma part_text_of_element (part : value) (text : option value) :
  get part (lit "text") = Return text ->
  let element := match text with
                 | Some t => if truthy t then t else VStr []
                 | None => VStr []
                 end in
  part_text part = match element with VNull => Return [] | _ => ToString element end.
Proof.
  intros Hget element. subst element. unfold part_text. rewrite Hget. cbn [bind].
  destruct text as [t|]; [|reflexivity].
  destruct (truthy t) eqn:Ht; [|reflexivity].
  destruct t; try reflexivity. discriminate Ht.
Qed.

(** Mapping the parts and joining the result is taking the texts of the
    parts one after the other. *)
Lemma parts_texts_of_map_and_join (parts : list value) :
  match parts_texts parts with
  | Return texts =>
      exists elements,
        map_part_text parts = Return elements /\ join_texts elements = Return texts
  | Throw _ =>
      (exists e, map_part_text parts = Throw e)
      \/ (exists elements e,
             map_part_text parts = Return elements /\ join_texts elements = Throw e)
  end.
Proof.
  induction parts as [|part rest IH].
  { exists []. split; reflexivity. }
  cbn [parts_texts map_part_text].
  destruct (get part (lit "text")) as [text|e] eqn:Hget.
  2:{ unfold part_text. rewrite Hget. cbn [bind]. left. now exists e. }
  rewrite (part_text_of_element _ Hget). cbn [bind].
  set (element := match text with
                  | Some t => if truthy t then t else VStr []
                  | None => VStr []
                  end).
  match goal with
  | |- context [bind ?first_text _] => set (joined := first_text)
  end.
  assert (Hjoin : forall elements,
             join_texts (element :: elements)
             = bind joined (fun t => bind (join_texts elements)
                                       (fun ts => Return (t :: ts)))) by reflexivity.
  destruct joined as [t|e] eqn:Hjoined; cbn [bind].
  - revert IH. destruct (parts_texts rest) as [texts|e]; cbn [bind]; intros IH.
    + destruct IH as [elements [Hmap Hrest]]. rewrite Hmap. cbn [bind].
      exists (element :: elements). split; [reflexivity|].
      rewrite Hjoin. cbn [bind]. now rewrite Hrest.
    + destruct IH as [[e' Hmap]|[elements [e' [Hmap Hrest]]]]; rewrite Hmap; cbn [bind].
      * left. now exists e'.
      * right. exists (element :: elements), e'. split; [reflexivity|].
        rewrite Hjoin. cbn [bind]. now rewrite Hrest.
  - destruct (map_part_text rest) as [elements|e'] eqn:Hmap; cbn [bind].
    + right. exists (element :: elements), e. split; [reflexivity|].
      rewrite Hjoin. reflexivity.
    + left. now exists e'.
Qed.

Lemma candidates_text_of_parts (props cprops content_props : list (jsstring * value))
  (others parts : list value) :
  lookup (lit "candidates") props = Some (VArr (VObj cprops :: others)) ->
  lookup (lit "content") cprops = Some (VObj content_props) ->
  lookup (lit "parts") content_props = Some (VArr parts) ->
  match parts_texts parts with
  | Return texts =>
      candidates_text (VObj props) = Return (Some (VStr (List.concat texts)))
  | Throw _ => exists e, candidates_text (VObj props) = Throw e
  end.
Proof.
  intros Hcs Hcontent Hparts.
  assert (Hrun : candidates_text (VObj props)
                 = (texts <- map_part_text parts ;;
                    joined <- Array_join [] texts ;;
                    Return (Some (VStr joined)))%js).
  { unfold candidates_text. cbn [get bind]. rewrite Hcs.
    cbn [truthy isArray andb get bind].
    change (array_index (lit "0")) with (Some 0%N).
    cbn [N.to_nat nth_error truthy bind get].
    rewrite Hcontent. cbn [truthy bind get]. now rewrite Hparts. }
  rewrite Hrun. unfold Array_join.
  pose proof (parts_texts_of_map_and_join parts) as Hspec.
  destruct (parts_texts parts) as [texts|e].
  - destruct Hspec as [elements [Hmap Hjoin]]. rewrite Hmap. cbn [bind].
    rewrite Hjoin. cbn [bind]. now rewrite join_empty_separator.
  - destruct Hspec as [[e' Hmap]|[elements [e' [Hmap Hjoin]]]]; rewrite Hmap; cbn [bind].
    + now exists e'.
    + rewrite Hjoin. cbn [bind]. now exists e'.
Qed.

(** Reading [text] off a [null] part throws. *)
Lemma map_part_text_of_null (parts : list value) :
  In VNull parts -> exists e, map_part_text parts = Throw e.
Proof.
  induction parts as [|part rest IH]; intros Hin; [destruct Hin|].
  cbn [map_part_text].
  destruct (get part (lit "text")) as [text|e] eqn:Hget; [|now exists e].
  destruct Hin as [->|Hin]; [discriminate Hget|].
  destruct (IH Hin) as [e He]. cbn [bind]. rewrite He. now exists e.
Qed.

(** X12. For an object document whose [candidates] is an array, its first
    element an object whose [content] is an object with an array of
    [parts]: the normaliser returns the texts of the parts put together
    in order, the text of a part being [String(part.text)] when
    [part.text] is truthy (for a string, the string itself; for the
    number 7, "7") and the empty text when it is absent or falsy;
    top-level [text] and [response] fields are not looked at.  When
    taking the text of a part throws (a [null] part, or a text that
    cannot be converted), the plain-text cleaning of the output is
    returned. *)
Theorem candidate_parts_are_concatenated :
  forall (stdout : jsstring) (props cprops content_props : list (jsstring * value))
         (others parts : list value),
    stdout <> [] ->
    JSON_parse (trim (stripAnsi stdout)) = Return (VObj props) ->
    lookup (lit "candidates") props = Some (VArr (VObj cprops :: others)) ->
    lookup (lit "content") cprops = Some (VObj content_props) ->
    lookup (lit "parts") content_props = Some (VArr parts) ->
    (forall texts : list jsstring,
        parts_texts parts = Return texts ->
        extractResponse stdout = Return (VStr (List.concat texts)))
    /\ (forall e : Error,
           parts_texts parts = Throw e ->
           extractResponse stdout
           = Return (VStr (cleanOutput (trim (stripAnsi stdout)))))
    /\ (forall (own : list (jsstring * value)) (t : jsstring),
           lookup (lit "text") own = Some (VStr t) ->
           part_text (VObj own) = Return t)
    /\ (forall (own : list (jsstring * value)) (t : value),
           lookup (lit "text") own = Some t -> truthy t = true ->
           part_text (VObj own) = ToString t)
    /\ (forall (own : list (jsstring * value)) (t : value),
           lookup (lit "text") own = Some t -> truthy t = false ->
           part_text (VObj own) = Return [])
    /\ (forall own : list (jsstring * value),
           lookup (lit "text") own = None -> part_text (VObj own) = Return []).
Proof.
  intros stdout props cprops content_props others parts Hne Hparse Hcs Hcontent
    Hparts.
  pose proof (@candidates_text_of_parts props cprops content_props others parts
                Hcs Hcontent Hparts) as Hshape.
  rewrite (ExtractTheorems.extractResponse_on_parsed_object Hne Hparse).
  split; [|split; [|split; [|split; [|split]]]].
  - intros texts Htexts. rewrite Htexts in Hshape. now rewrite Hshape.
  - intros e Htexts. rewrite Htexts in Hshape. destruct Hshape as [e' Hshape].
    now rewrite Hshape.
  - intros own t Ht. unfold part_text. cbn [get bind]. rewrite Ht.
    destruct t; reflexivity.
  - intros own t Ht Htruthy. unfold part_text. cbn [get bind].
    now rewrite Ht, Htruthy.
  - intros own t Ht Htruthy. unfold part_text. cbn [get bind].
    now rewrite Ht, Htruthy.
  - intros own Ht. unfold part_text. cbn [get bind]. now rewrite Ht.
Qed.

(** X13. An error thrown while the parsed document is taken apart is
    swallowed: when the document is [null], or when the parts of its
    first candidate hold a [null], the normaliser returns the plain-text
    cleaning of the output, as it does for output that is not JSON. *)
Theorem type_errors_fall_back_to_plain_text :
  forall stdout : jsstring,
    stdout <> [] ->
    let cleaned := trim (stripAnsi stdout) in
    (JSON_parse cleaned = Return VNull ->
     extractResponse stdout = Return (VStr (cleanOutput cleaned)))
    /\ (forall (props cprops content_props : list (jsstring * value))
               (others parts : list value),
           JSON_parse cleaned = Return (VObj props) ->
           lookup (lit "candidates") props = Some (VArr (VObj cprops :: others)) ->
           lookup (lit "content") cprops = Some (VObj content_props) ->
           lookup (lit "parts") content_props = Some (VArr parts) ->
           In VNull parts ->
           extractResponse stdout = Return (VStr (cleanOutput cleaned))).
Proof.
  intros stdout Hne cleaned. subst cleaned.
  destruct stdout as [|c0 rest0]; [congruence|].
  split.
  - intros Hparse. unfold extractResponse. cbn [str_truthy negb].
    rewrite Hparse. reflexivity.
  - intros props cprops content_props others parts Hparse Hcs Hcontent Hparts Hin.
    unfold extractResponse. cbn [str_truthy negb].
    rewrite Hparse. cbn [bind].
    unfold candidates_text. cbn [get bind]. rewrite Hcs.
    cbn [truthy isArray andb get bind].
    change (array_index (lit "0")) with (Some 0%N).
    cbn [N.to_nat nth_error truthy bind get].
    rewrite Hcontent. cbn [truthy bind get]. rewrite Hparts.
    destruct (map_part_text_of_null _ Hin) as [e He]. rewrite He. reflexivity.
Qed.

End ExtractProperties.

(** ** The HTTP handlers *)

Module ServerProperties.

Import ExecutionFacts ExecuteProperties.


(** X15. The answer is 400 exactly when the request carries no message
    array or an empty one; the adapter is then not run: nothing is
    logged and no clock is read. *)
Theorem status_400_is_an_invalid_request :
  forall (w : World) (adapter : CLIAdapter) (request : Server.ChatCompletionRequest)
         (st : State),
    (status_of (Server.chat_completions w adapter request st) = Some 400%N
     <-> Server.messages request = Server.NotAnArray
         \/ Server.messages request = Server.MessageArray [])
    /\ (status_of (Server.chat_completions w adapter request st) = Some 400%N ->
        fst (Server.chat_completions w adapter request st) = st
        /\ exists text,
            error_body_of (Server.chat_completions w adapter request st)
            = Some (Server.mkErrorBody text (lit "invalid_request_error")
                      (lit "invalid_request"))).
Proof.
  intros w adapter request st.
  assert (Hvalid : forall m ms',
             Server.messages request = Server.MessageArray (m :: ms') ->
             status_of (Server.chat_completions w adapter request st) <> Some 400%N).
  { intros m ms' Hreq.
    unfold status_of, Server.chat_completions, try_catch_M, mbind. rewrite Hreq.
    cbn [List.length Nat.eqb].
    destruct (execute adapter (m :: ms') st) as [st1 [v|e]].
    - destruct v; try (cbn; discriminate).
    - unfold console_write, ret.
      destruct (instanceof e ClaudeCode.TimeoutError); cbn; discriminate. }
  destruct (Server.messages request) as [|[|m ms']] eqn:Hreq.
  - assert (Hrun : Server.chat_completions w adapter request st
                   = (st, Return (Server.Responded (Server.mkHttp 400 (Server.ErrorResponse
                        (Server.mkErrorBody
                           (lit "Invalid request: messages array is required")
                           (lit "invalid_request_error") (lit "invalid_request"))))))).
    { unfold Server.chat_completions, try_catch_M. now rewrite Hreq. }
    rewrite Hrun. split; [split; auto|]. intros _. split; [reflexivity|].
    now eexists.
  - assert (Hrun : Server.chat_completions w adapter request st
                   = (st, Return (Server.Responded (Server.mkHttp 400 (Server.ErrorResponse
                        (Server.mkErrorBody
                           (lit "Invalid request: messages array cannot be empty")
                           (lit "invalid_request_error") (lit "invalid_request"))))))).
    { unfold Server.chat_completions, try_catch_M. now rewrite Hreq. }
    rewrite Hrun. split; [split; auto|]. intros _. split; [reflexivity|].
    now eexists.
  - specialize (Hvalid m ms' eq_refl).
    split; [split|]; intros H; try contradiction.
    destruct H as [H|H]; discriminate.
Qed.

Lemma created_adapter (w : World) (config : AdapterConfig) :
  type config = lit "claude-code" ->
  AdapterFactory.create w config
  = Return (ClaudeCode.adapter w
              (ClaudeCode.mkClaudeCodeAdapter (Types.runtimeDir config)
                 (Types.timeout config) (Types.debug config))).
Proof. intros Hkind. unfold AdapterFactory.create. now rewrite Hkind. Qed.

Lemma adapter_text (w : World) (self : ClaudeCode.ClaudeCodeAdapter)
  (ms : list Message) (st : State) (text : jsstring) :
  snd (ClaudeCode.execute w self ms st) = Return text ->
  execute (ClaudeCode.adapter w self) ms st
  = (fst (ClaudeCode.execute w self ms st), Return (VStr text)).
Proof.
  intros H. cbn [execute ClaudeCode.adapter]. unfold mbind.
  destruct (ClaudeCode.execute w self ms st) as [st1 r]. cbn [snd fst] in *.
  now rewrite H.
Qed.

Lemma adapter_error (w : World) (self : ClaudeCode.ClaudeCodeAdapter)
  (ms : list Message) (st : State) (e : Error) :
  snd (ClaudeCode.execute w self ms st) = Throw e ->
  execute (ClaudeCode.adapter w self) ms st
  = (fst (ClaudeCode.execute w self ms st), Throw e).
Proof.
  intros H. cbn [execute ClaudeCode.adapter]. unfold mbind.
  destruct (ClaudeCode.execute w self ms st) as [st1 r]. cbn [snd fst] in *.
  now rewrite H.
Qed.

(** X16. From configuration to answer.  For the kind [claude-code] the
    factory returns an adapter; when the child of a request exits
    normally, the handler answers 200 with one choice, of role
    [assistant] and finish reason [stop], whose content is the cleaned
    standard output of the child.  The model is the one the request
    names, else [claude-code], whatever model the configuration names;
    the id starts with [chatcmpl-]. *)
Theorem claude_code_answer_from_configuration :
  forall (w : World) (config : AdapterConfig) (request : Server.ChatCompletionRequest)
         (ms : list Message) (out errtext : jsstring) (st : State),
    type config = lit "claude-code" ->
    Server.messages request = Server.MessageArray ms -> ms <> [] ->
    child_process w
      (ClaudeCode.invocation
         (ClaudeCode.mkClaudeCodeAdapter (Types.runtimeDir config) (Types.timeout config)
            (Types.debug config))
         (ClaudeCode.buildClaudeCodeCommand ms))
    = Exited out errtext ->
    exists (adapter : CLIAdapter) (r : Server.ChatCompletionResponse),
      AdapterFactory.create w config = Return adapter
      /\ status_of (Server.chat_completions w adapter request st) = Some 200%N
      /\ completion_of (Server.chat_completions w adapter request st) = Some r
      /\ Server.choices r
         = [Server.mkChoice 0 (lit "assistant") (ClaudeCode.cleanOutput out) (lit "stop")]
      /\ Server.response_model r
         = (if str_truthy (Server.model request) then Server.model request
            else lit "claude-code")
      /\ Server.object r = lit "chat.completion"
      /\ starts_with (lit "chatcmpl-") (Server.id r) = true.
Proof.
  intros w config request ms out errtext st Hkind Hreq Hne Hchild.
  set (self := ClaudeCode.mkClaudeCodeAdapter (Types.runtimeDir config)
                 (Types.timeout config) (Types.debug config)) in *.
  pose proof (@claude_success w self ms out errtext st Hchild) as Hrun.
  pose proof (@adapter_text w self ms st _ Hrun) as Hexec.
  unfold status_of, completion_of.
  exists (ClaudeCode.adapter w self).
  unfold Server.chat_completions, try_catch_M, mbind. rewrite Hreq.
  destruct ms as [|m ms']; [congruence|]. cbn [List.length Nat.eqb].
  rewrite Hexec. unfold Server.generateId, mbind, now, random, ret. cbn [snd].
  eexists. split; [now apply created_adapter|].
  split; [reflexivity|]. split; [reflexivity|].
  cbn [Server.choices Server.response_model Server.object Server.id].
  repeat split.
Qed.

(** X17. When the child of the Claude adapter fails, the handler answers
    504, with the type [timeout_error] and the message "Claude Code
    execution timed out", if the child was killed by SIGTERM; otherwise
    500, with the type [internal_error] and the message of the child's
    error, or "Internal server error" when that message is empty. *)
Theorem claude_failure_status :
  forall (w : World) (self : ClaudeCode.ClaudeCodeAdapter)
         (request : Server.ChatCompletionRequest) (ms : list Message) (st : State)
         (err : Error) (out errtext : jsstring),
    Server.messages request = Server.MessageArray ms -> ms <> [] ->
    child_process w (ClaudeCode.invocation self (ClaudeCode.buildClaudeCodeCommand ms))
    = Failed err out errtext ->
    (killed_by_timeout_signal err ->
     snd (Server.chat_completions w (ClaudeCode.adapter w self) request st)
     = Return (Server.Responded (Server.mkHttp 504 (Server.ErrorResponse
         (Server.mkErrorBody (lit "Claude Code execution timed out")
            (lit "timeout_error") (lit "timeout"))))))
    /\ (~ killed_by_timeout_signal err ->
        instanceof err ClaudeCode.TimeoutError = false ->
        snd (Server.chat_completions w (ClaudeCode.adapter w self) request st)
        = Return (Server.Responded (Server.mkHttp 500 (Server.ErrorResponse
            (Server.mkErrorBody
               (if str_truthy (message err) then message err
                else lit "Internal server error")
               (lit "internal_error") (lit "internal_error")))))).
Proof.
  intros w self request ms st err out errtext Hreq Hne Hchild.
  pose proof (@claude_failure w self ms err out errtext st Hchild) as Hthrown.
  split.
  - intros Hkilled. apply sigterm_test in Hkilled. rewrite Hkilled in Hthrown.
    rewrite (@handler_on_throw w (ClaudeCode.adapter w self) request ms st _ _
               Hreq Hne (@adapter_error w self ms st _ Hthrown)).
    reflexivity.
  - intros Hkilled Hclass. rewrite (sigterm_test_false Hkilled) in Hthrown.
    rewrite (@handler_on_throw w (ClaudeCode.adapter w self) request ms st _ _
               Hreq Hne (@adapter_error w self ms st _ Hthrown)).
    unfold instanceof in *. cbn [attach_stderr error_class message].
    rewrite Hclass. reflexivity.
Qed.

(** X18. The two GET routes of a server built from a [claude-code]
    configuration: [/health] names the adapter [claude-code], and
    [/v1/models] lists one model, [claude-code], created at the current
    second and owned by [cli-agent-openai-adapter]; the model of the
    configuration is not shown. *)
Theorem routes_of_the_created_adapter :
  forall (w : World) (config : AdapterConfig) (st : State),
    type config = lit "claude-code" ->
    exists adapter : CLIAdapter,
      AdapterFactory.create w config = Return adapter
      /\ Routes.health adapter = Routes.mkHealth (lit "ok") (lit "claude-code")
      /\ snd (Routes.models w adapter st)
         = Return (Routes.mkModelList (lit "list")
                     [Routes.mkModelEntry (lit "claude-code") (lit "model")
                        (Date_now w (clock_reads st) / 1000)%Z
                        (lit "cli-agent-openai-adapter")]).
Proof.
  intros w config st Hkind. eexists. split; [now apply created_adapter|].
  split; reflexivity.
Qed.

End ServerProperties.

(** ** The summary of a prompt in the debug log *)

Module SummarizeFacts.

Import RegexRuns NormaliserRuns.

(** A greedy run before a continuation that always succeeds stops where
    the class stops. *)
Lemma greedy_space_length (n : nat) :
  forall (s : jsstring) (prev : option N),
    greedy isWhiteSpace
      (fun st' : input => Some (n - List.length (snd st'))%nat) prev s
    = Some (n - List.length (trimStart s))%nat.
Proof.
  induction s as [|c rest IH]; intros prev; [reflexivity|].
  cbn [greedy trimStart]. destruct (isWhiteSpace c); [|reflexivity].
  now rewrite IH.
Qed.

Lemma trimStart_length (s : jsstring) :
  (List.length (trimStart s) <= List.length s)%nat.
Proof.
  destruct (trimStart_split s) as [pre [Hsplit _]].
  rewrite Hsplit at 2. rewrite length_app. lia.
Qed.

(** Where the pattern \s+ matches, and how far. *)
Lemma exec_space_run (prev : option N) (s : jsstring) :
  exec (Plus (Class isWhiteSpace)) (prev, s)
  = match s with
    | c :: rest =>
        if isWhiteSpace c
        then Some (S (List.length rest - List.length (trimStart rest)))
        else None
    | [] => None
    end.
Proof.
  unfold exec, Plus. rewrite run_cat.
  destruct s as [|c rest]; [reflexivity|].
  cbn [run snd]. destruct (isWhiteSpace c); [|reflexivity].
  change (run (Star (Class isWhiteSpace)) (Some c, rest)
            (fun st' : input =>
               Some (List.length (c :: rest) - List.length (snd st'))%nat)
          = Some (S (List.length rest - List.length (trimStart rest)))).
  rewrite run_star_class, greedy_space_length.
  pose proof (trimStart_length rest). cbn [List.length]. f_equal. lia.
Qed.

Lemma skip_prefix (r : regex) (replacement : jsstring) :
  forall (pre t : jsstring) (prev : option N),
    exists prev',
      replace_from r replacement prev (pre ++ t) (List.length pre)
      = replace_from r replacement prev' t O.
Proof.
  induction pre as [|x pre IH]; intros t prev.
  - now exists prev.
  - cbn [app List.length replace_from]. apply IH.
Qed.

Lemma collapse_after_space (s : jsstring) :
  collapse_spaces true s = collapse_spaces false (trimStart s).
Proof.
  induction s as [|c rest IH]; [reflexivity|].
  cbn [collapse_spaces trimStart].
  destruct (isWhiteSpace c) eqn:Hc; [exact IH|].
  cbn [collapse_spaces]. now rewrite Hc.
Qed.

(** Replacing every run of white space by one space. *)
Lemma replace_space_runs (n : nat) :
  forall (s : jsstring) (prev : option N),
    (List.length s <= n)%nat ->
    replace_from (Plus (Class isWhiteSpace)) (lit " ") prev s O
    = collapse_spaces false s.
Proof.
  induction n as [|n IH]; intros s prev Hlen.
  - destruct s; [|cbn in Hlen; lia]. cbn [replace_from].
    match goal with |- context [exec ?r0 ?st] =>
      change (exec r0 st) with (exec (Plus (Class isWhiteSpace)) (prev, [])) end.
    now rewrite exec_space_run.
  - destruct s as [|c rest].
    { cbn [replace_from].
      match goal with |- context [exec ?r0 ?st] =>
        change (exec r0 st) with (exec (Plus (Class isWhiteSpace)) (prev, [])) end.
      now rewrite exec_space_run. }
    cbn [List.length] in Hlen. cbn [replace_from].
    match goal with |- context [exec ?r0 ?st] =>
      change (exec r0 st) with (exec (Plus (Class isWhiteSpace)) (prev, c :: rest)) end.
    rewrite exec_space_run. cbn [collapse_spaces].
    destruct (isWhiteSpace c).
    + destruct (trimStart_split rest) as [pre [Hsplit _]].
      assert (Hcount : (List.length rest - List.length (trimStart rest))%nat
                       = List.length pre).
      { rewrite Hsplit at 1. rewrite length_app. lia. }
      rewrite Hcount.
      destruct (skip_prefix (Plus (Class isWhiteSpace)) (lit " ") pre (trimStart rest)
                  (Some c)) as [prev' Hskip].
      rewrite <- Hsplit in Hskip. rewrite Hskip.
      rewrite IH by (pose proof (trimStart_length rest); lia).
      rewrite collapse_after_space. reflexivity.
    + rewrite IH by lia. reflexivity.
Qed.

Lemma collapse_only_plain_spaces (s : jsstring) :
  forall in_run, only_plain_spaces (collapse_spaces in_run s).
Proof.
  unfold only_plain_spaces.
  induction s as [|c rest IH]; intros in_run; cbn [collapse_spaces]; [constructor|].
  destruct (isWhiteSpace c) eqn:Hc.
  - destruct in_run; [apply IH|]. constructor; [reflexivity|apply IH].
  - constructor; [congruence|apply IH].
Qed.

Lemma collapse_single_spaced (s : jsstring) :
  forall in_run,
    single_spaced (collapse_spaces in_run s) = true
    /\ (in_run = true ->
        match collapse_spaces in_run s with
        | c :: _ => isWhiteSpace c = false
        | [] => True
        end).
Proof.
  induction s as [|c rest IH]; intros in_run; cbn [collapse_spaces].
  - split; [reflexivity|intros; exact I].
  - destruct (isWhiteSpace c) eqn:Hc.
    + destruct in_run.
      * apply IH.
      * destruct (IH true) as [Hs Hhead]. specialize (Hhead eq_refl).
        split; [|discriminate].
        cbn [single_spaced]. rewrite Hs.
        destruct (collapse_spaces true rest) as [|d tail]; [reflexivity|].
        rewrite Hhead. reflexivity.
    + destruct (IH false) as [Hs _]. split; [|intros; exact Hc].
      cbn [single_spaced]. rewrite Hs, Hc.
      destruct (collapse_spaces false rest); reflexivity.
Qed.

Lemma single_spaced_app (a b : jsstring) :
  single_spaced (a ++ b) = true -> single_spaced a = true /\ single_spaced b = true.
Proof.
  induction a as [|c a IH]; cbn [app]; intros H; [now split|].
  cbn [single_spaced] in H. apply andb_true_iff in H as [Hhead Htail].
  destruct (IH Htail) as [Ha Hb]. split; [|exact Hb].
  cbn [single_spaced]. rewrite Ha.
  destruct a as [|d a']; [reflexivity|]. cbn [app] in Hhead. now rewrite Hhead.
Qed.

Lemma single_spaced_snoc (a : jsstring) (x : N) :
  single_spaced a = true -> isWhiteSpace x = false -> single_spaced (a ++ [x]) = true.
Proof.
  intros Ha Hx. induction a as [|c a IH]; [reflexivity|].
  cbn [single_spaced] in Ha. apply andb_true_iff in Ha as [Hhead Htail].
  cbn [app single_spaced]. rewrite (IH Htail).
  destruct a as [|d a']; cbn [app].
  - rewrite Hx. now rewrite andb_false_r.
  - now rewrite Hhead.
Qed.

Lemma Forall_app_parts (A : Type) (P : A -> Prop) (a b : list A) :
  Forall P (a ++ b) -> Forall P a /\ Forall P b.
Proof. intros H. now apply Forall_app in H. Qed.

(** The text [summarize] cuts: single spaces between the words, none at
    the ends. *)
Lemma summary_text (text : jsstring) :
  let clean := trim (replace_all (Plus (Class isWhiteSpace)) (lit " ") text) in
  only_plain_spaces clean /\ single_spaced clean = true.
Proof.
  intros clean. subst clean. unfold replace_all.
  rewrite (@replace_space_runs (List.length text) text None (Nat.le_refl _)).
  destruct (trim_split (collapse_spaces false text)) as [pre [post [Hsplit _]]].
  pose proof (collapse_only_plain_spaces text false) as Hplain.
  destruct (collapse_single_spaced text false) as [Hsingle _].
  rewrite Hsplit in Hplain, Hsingle. split.
  - unfold only_plain_spaces in *.
    apply Forall_app_parts in Hplain as [_ Hplain].
    now apply Forall_app_parts in Hplain as [Hplain _].
  - apply single_spaced_app in Hsingle as [_ Hsingle].
    now apply single_spaced_app in Hsingle as [Hsingle _].
Qed.

End SummarizeFacts.

Module SummarizeProperties.

Import SummarizeFacts.

(** X4. A summary is short and on one line: [summarize(text, max)] has at
    most [max + 1] code units, its only white space is the space U+0020,
    and no two spaces follow each other. *)
Theorem summarize_is_short_and_single_spaced :
  forall (text : jsstring) (max : nat),
    (List.length (DebugLog.summarize text max) <= max + 1)%nat
    /\ only_plain_spaces (DebugLog.summarize text max)
    /\ single_spaced (DebugLog.summarize text max) = true.
Proof.
  intros text max. unfold DebugLog.summarize.
  destruct (negb (str_truthy text)).
  { repeat split; [cbn; lia|constructor]. }
  destruct (summary_text text) as [Hplain Hsingle].
  set (clean := trim (replace_all (Plus (Class isWhiteSpace)) (lit " ") text)) in *.
  destruct (Nat.ltb_spec max (List.length clean)) as [Hlong|Hshort].
  - rewrite <- (firstn_skipn max clean) in Hplain, Hsingle.
    apply Forall_app_parts in Hplain as [Hplain _].
    apply single_spaced_app in Hsingle as [Hsingle _].
    repeat split.
    + rewrite length_app, length_firstn. cbn [List.length]. lia.
    + apply Forall_app. split; [exact Hplain|]. constructor; [discriminate|constructor].
    + now apply single_spaced_snoc.
  - repeat split; [lia|assumption|assumption].
Qed.

End SummarizeProperties.

(** ** What reaches the client is cleaned text *)

Module CleanResults.

Import NormaliserRuns ExecutionFacts ExecuteProperties.

Lemma stripAnsi_only_deletes (s : jsstring) : Subsequence (stripAnsi s) s.
Proof. unfold stripAnsi, replace_all. apply replace_by_nothing. Qed.

(** X19. Whatever text the Claude adapter's [execute] returns, it is the
    cleaned standard output of a child that exited normally: it holds no
    carriage return, has no white space at its ends, and is never longer
    than what the child printed. *)
Theorem claude_text_is_clean :
  forall (w : World) (self : ClaudeCode.ClaudeCodeAdapter) (messages : list Message)
         (st : State) (text : jsstring),
    snd (ClaudeCode.execute w self messages st) = Return text ->
    (exists out errtext,
        child_process w
          (ClaudeCode.invocation self (ClaudeCode.buildClaudeCodeCommand messages))
        = Exited out errtext
        /\ text = ClaudeCode.cleanOutput out
        /\ Subsequence text out)
    /\ ~ In CR text
    /\ no_space_at_ends text = true.
Proof.
  intros w self messages st text Hrun.
  destruct (child_process w
              (ClaudeCode.invocation self (ClaudeCode.buildClaudeCodeCommand messages)))
    as [out errtext|err out errtext] eqn:Hchild.
  - rewrite (@claude_success w self messages out errtext st Hchild) in Hrun.
    injection Hrun as <-.
    split; [|split; [apply cleanOutput_no_CR|apply trim_ends]].
    exists out, errtext. repeat split. apply cleanOutput_subsequence.
  - rewrite (@claude_failure w self messages err out errtext st Hchild) in Hrun.
    destruct (killed err && _); discriminate.
Qed.

(** X20. Output that is not JSON comes back as cleaned plain text: the
    normaliser returns a string made of code units of the output, in
    their order, with no carriage return and no white space at its
    ends. *)
Theorem plain_text_fallback_is_cleaned :
  forall (stdout : jsstring) (e : Error),
    stdout <> [] ->
    JSON_parse (trim (stripAnsi stdout)) = Throw e ->
    exists text : jsstring,
      GeminiCLI.extractResponse stdout = Return (VStr text)
      /\ Subsequence text stdout
      /\ ~ In CR text
      /\ no_space_at_ends text = true.
Proof.
  intros stdout e Hne Hparse.
  exists (GeminiCLI.cleanOutput (trim (stripAnsi stdout))).
  split; [|split; [|split]].
  - unfold GeminiCLI.extractResponse.
    destruct stdout; [congruence|]. cbn [str_truthy negb].
    rewrite Hparse. reflexivity.
  - eapply Subsequence_trans; [apply stripAnsi_only_deletes|].
    eapply Subsequence_trans; [apply trim_only_deletes|].
    apply cleanOutput_subsequence.
  - apply cleanOutput_no_CR.
  - apply trim_ends.
Qed.

End CleanResults.

(** ** The further theorems on concrete inputs *)

Module MoreWitnesses.

Import PromptProperties ExecuteProperties ExtractProperties ServerProperties
  CleanResults.

(** X1 on a conversation whose first turn holds a quote, a backslash, a
    line break and a lone surrogate, and has [content] before [role]. *)
Lemma history_block_reads_back_witness :
  (1 < List.length (turn_sequence MoreExamples.awkward_history))%nat
  /\ Forall two_properties (firstn 2 (turn_sequence MoreExamples.awkward_history))
  /\ exists (block : jsstring) (current : Message),
      nth_error (turn_sequence MoreExamples.awkward_history) 2 = Some current
      /\ ClaudeCode.userPrompt
           (ClaudeCode.buildClaudeCodeCommand MoreExamples.awkward_history)
         = history_label ++ [LF] ++ block ++ [LF; LF]
           ++ current_label ++ content current
      /\ GeminiCLI.buildGeminiPrompt MoreExamples.awkward_history
         = combined_prompt
             (effective_system_prompt GeminiCLI.CONVERSATION_SYSTEM_PROMPT
                (base_system_text MoreExamples.awkward_history))
             (history_label ++ [LF] ++ block ++ [LF; LF]
              ++ current_label ++ content current)
      /\ decode_messages block
         = Some (firstn 2 (turn_sequence MoreExamples.awkward_history)).
Proof.
  assert (Hn : (1 < List.length (turn_sequence MoreExamples.awkward_history))%nat)
    by (cbn; lia).
  assert (Hall : Forall two_properties
                   (firstn 2 (turn_sequence MoreExamples.awkward_history))).
  { constructor; [right; reflexivity|].
    constructor; [left; reflexivity|constructor]. }
  split; [exact Hn|]. split; [exact Hall|].
  exact (@history_block_reads_back MoreExamples.awkward_history Hn Hall).
Defined.

(** X2 on a list with two system messages and a list with the first of
    them moved behind the turn. *)
Lemma builders_read_first_system_and_turns_witness :
  base_system_text MoreExamples.two_system_messages
  = base_system_text MoreExamples.system_message_last
  /\ turn_sequence MoreExamples.two_system_messages
     = turn_sequence MoreExamples.system_message_last
  /\ ClaudeCode.buildClaudeCodeCommand MoreExamples.two_system_messages
     = ClaudeCode.buildClaudeCodeCommand MoreExamples.system_message_last
  /\ GeminiCLI.buildGeminiPrompt MoreExamples.two_system_messages
     = GeminiCLI.buildGeminiPrompt MoreExamples.system_message_last.
Proof.
  assert (Hbase : base_system_text MoreExamples.two_system_messages
                  = base_system_text MoreExamples.system_message_last) by reflexivity.
  assert (Hturns : turn_sequence MoreExamples.two_system_messages
                   = turn_sequence MoreExamples.system_message_last) by reflexivity.
  split; [exact Hbase|]. split; [exact Hturns|].
  exact (@builders_read_first_system_and_turns _ _ Hbase Hturns).
Defined.

(** X8 on a Claude child that prints a coloured line and exits. *)
Lemma exited_child_output_is_normalised_witness :
  let out := [27; 91; 51; 50; 109]%N ++ lit "Hi" ++ [27; 91; 48; 109; LF]%N in
  child_process (Examples.printing out)
    (ClaudeCode.invocation Examples.claude
       (ClaudeCode.buildClaudeCodeCommand Examples.hello))
  = Exited out []
  /\ snd (ClaudeCode.execute (Examples.printing out) Examples.claude Examples.hello initial)
     = Return (ClaudeCode.cleanOutput out)
  /\ ClaudeCode.cleanOutput out = lit "Hi".
Proof.
  intros out.
  assert (Hchild :
    child_process (Examples.printing out)
      (ClaudeCode.invocation Examples.claude
         (ClaudeCode.buildClaudeCodeCommand Examples.hello))
    = Exited out []) by reflexivity.
  split; [exact Hchild|]. split; [|vm_compute; reflexivity].
  exact (proj1 (@exited_child_output_is_normalised (Examples.printing out)
                  Examples.hello out [] initial) Examples.claude Hchild).
Defined.

(** X9 on two worlds whose children fail alike, one run with debugging
    on and a console already written to. *)
Lemma outcome_is_settled_by_the_child_witness :
  let w := Examples.failing in
  let w' := mkWorld (child_process Examples.failing) (fun _ => 0%Z) (fun _ => []) in
  let self := ClaudeCode.mkClaudeCodeAdapter (lit "/runtime/claude-code") 30000 false in
  let self' := ClaudeCode.mkClaudeCodeAdapter (lit "/runtime/claude-code") 30000 true in
  let st' := mkState [(log, [Text (lit "earlier")])] 7 3 in
  child_process w
    (ClaudeCode.invocation self (ClaudeCode.buildClaudeCodeCommand Examples.hello))
  = child_process w'
      (ClaudeCode.invocation self (ClaudeCode.buildClaudeCodeCommand Examples.hello))
  /\ snd (ClaudeCode.execute w self Examples.hello initial)
     = snd (ClaudeCode.execute w' self' Examples.hello st').
Proof.
  intros w w' self self' st'.
  assert (Hsame :
    child_process w
      (ClaudeCode.invocation self (ClaudeCode.buildClaudeCodeCommand Examples.hello))
    = child_process w'
        (ClaudeCode.invocation self (ClaudeCode.buildClaudeCodeCommand Examples.hello)))
    by reflexivity.
  split; [exact Hsame|].
  exact (proj1 (@outcome_is_settled_by_the_child w w' Examples.hello initial st')
           (lit "/runtime/claude-code") 30000%N false true Hsame).
Defined.

(** X12 on a document whose parts hold the text "A", the number 7 and no
    text. *)
Lemma candidate_parts_are_concatenated_witness :
  let parts := [VObj [(lit "text", VStr (lit "A"))];
                VObj [(lit "text", VNum (number_of_Z 7))];
                VObj []] in
  let content_props := [(lit "parts", VArr parts)] in
  let cprops := [(lit "content", VObj content_props)] in
  let props := [(lit "candidates", VArr [VObj cprops])] in
  MoreExamples.mixed_parts <> []
  /\ JSON_parse (trim (stripAnsi MoreExamples.mixed_parts)) = Return (VObj props)
  /\ parts_texts parts = Return [lit "A"; lit "7"; []]
  /\ GeminiCLI.extractResponse MoreExamples.mixed_parts = Return (VStr (lit "A7")).
Proof.
  intros parts content_props cprops props.
  assert (Hne : MoreExamples.mixed_parts <> []) by discriminate.
  assert (Hparse : JSON_parse (trim (stripAnsi MoreExamples.mixed_parts))
                   = Return (VObj props)) by (vm_compute; reflexivity).
  assert (Htexts : parts_texts parts = Return [lit "A"; lit "7"; []])
    by (vm_compute; reflexivity).
  split; [exact Hne|]. split; [exact Hparse|]. split; [exact Htexts|].
  exact (proj1 (@candidate_parts_are_concatenated MoreExamples.mixed_parts props cprops
                  content_props [] parts Hne Hparse eq_refl eq_refl eq_refl)
           _ Htexts).
Defined.

(** X13 on the document [null] and on a document with a [null] part. *)
Lemma type_errors_fall_back_to_plain_text_witness :
  (MoreExamples.null_document <> []
   /\ JSON_parse (trim (stripAnsi MoreExamples.null_document)) = Return VNull
   /\ GeminiCLI.extractResponse MoreExamples.null_document
      = Return (VStr (GeminiCLI.cleanOutput (trim (stripAnsi MoreExamples.null_document)))))
  /\ (MoreExamples.null_part <> []
      /\ In VNull [VObj [(lit "text", VStr (lit "A"))]; VNull]
      /\ GeminiCLI.extractResponse MoreExamples.null_part
         = Return (VStr (GeminiCLI.cleanOutput (trim (stripAnsi MoreExamples.null_part))))).
Proof.
  assert (Hne : MoreExamples.null_document <> []) by discriminate.
  assert (Hparse : JSON_parse (trim (stripAnsi MoreExamples.null_document)) = Return VNull)
    by (vm_compute; reflexivity).
  assert (Hne' : MoreExamples.null_part <> []) by discriminate.
  assert (Hin : In VNull [VObj [(lit "text", VStr (lit "A"))]; VNull])
    by (right; left; reflexivity).
  split.
  - split; [exact Hne|]. split; [exact Hparse|].
    exact (proj1 (@type_errors_fall_back_to_plain_text _ Hne) Hparse).
  - split; [exact Hne'|]. split; [exact Hin|].
    refine (proj2 (@type_errors_fall_back_to_plain_text _ Hne')
              [(lit "candidates",
                VArr [VObj [(lit "content",
                             VObj [(lit "parts",
                                    VArr [VObj [(lit "text", VStr (lit "A"))]; VNull])])]])]
              _ _ [] _ _ eq_refl eq_refl eq_refl Hin).
    vm_compute; reflexivity.
Defined.

(** X15 on a request without a message array. *)
Lemma status_400_is_an_invalid_request_witness :
  let w := Examples.printing (lit "x") in
  let adapter := ClaudeCode.adapter w Examples.claude in
  status_of (Server.chat_completions w adapter MoreExamples.no_messages_request initial)
  = Some 400%N
  /\ fst (Server.chat_completions w adapter MoreExamples.no_messages_request initial)
     = initial
  /\ exists text,
      error_body_of
        (Server.chat_completions w adapter MoreExamples.no_messages_request initial)
      = Some (Server.mkErrorBody text (lit "invalid_request_error") (lit "invalid_request")).
Proof.
  intros w adapter.
  assert (H : status_of (Server.chat_completions w adapter
                           MoreExamples.no_messages_request initial) = Some 400%N)
    by reflexivity.
  split; [exact H|].
  exact (proj2 (@status_400_is_an_invalid_request w adapter
                  MoreExamples.no_messages_request initial) H).
Defined.

(** X16 on the default configuration and a child that prints "x". *)
Lemma claude_code_answer_from_configuration_witness :
  let w := Examples.printing (lit "x") in
  type MoreExamples.default_config = lit "claude-code"
  /\ Server.messages Examples.hey_request
     = Server.MessageArray [mkMessage user (lit "hey")]
  /\ exists (adapter : CLIAdapter) (r : Server.ChatCompletionResponse),
      AdapterFactory.create w MoreExamples.default_config = Return adapter
      /\ status_of (Server.chat_completions w adapter Examples.hey_request initial)
         = Some 200%N
      /\ completion_of (Server.chat_completions w adapter Examples.hey_request initial)
         = Some r
      /\ Server.choices r
         = [Server.mkChoice 0 (lit "assistant") (ClaudeCode.cleanOutput (lit "x"))
              (lit "stop")]
      /\ Server.response_model r
         = (if str_truthy (Server.model Examples.hey_request)
            then Server.model Examples.hey_request else lit "claude-code")
      /\ Server.object r = lit "chat.completion"
      /\ starts_with (lit "chatcmpl-") (Server.id r) = true.
Proof.
  intros w.
  assert (Hkind : type MoreExamples.default_config = lit "claude-code") by reflexivity.
  assert (Hreq : Server.messages Examples.hey_request
                 = Server.MessageArray [mkMessage user (lit "hey")]) by reflexivity.
  assert (Hne : [mkMessage user (lit "hey")] <> []) by discriminate.
  split; [exact Hkind|]. split; [exact Hreq|].
  exact (@claude_code_answer_from_configuration w MoreExamples.default_config
           Examples.hey_request [mkMessage user (lit "hey")] (lit "x") [] initial
           Hkind Hreq Hne eq_refl).
Defined.

(** X17 on a child that exits with code 1. *)
Lemma claude_failure_status_witness :
  let w := Examples.failing in
  Server.messages Examples.hello_request = Server.MessageArray Examples.hello
  /\ child_process w
       (ClaudeCode.invocation Examples.claude
          (ClaudeCode.buildClaudeCodeCommand Examples.hello))
     = Failed MoreExamples.exit_code_error [] (lit "boom")
  /\ ~ killed_by_timeout_signal MoreExamples.exit_code_error
  /\ instanceof MoreExamples.exit_code_error ClaudeCode.TimeoutError = false
  /\ snd (Server.chat_completions w (ClaudeCode.adapter w Examples.claude)
            Examples.hello_request initial)
     = Return (Server.Responded (Server.mkHttp 500 (Server.ErrorResponse
         (Server.mkErrorBody (lit "Command failed: exit code 1")
            (lit "internal_error") (lit "internal_error"))))).
Proof.
  intros w.
  assert (Hreq : Server.messages Examples.hello_request
                 = Server.MessageArray Examples.hello) by reflexivity.
  assert (Hne : Examples.hello <> []) by discriminate.
  assert (Hchild :
    child_process w
      (ClaudeCode.invocation Examples.claude
         (ClaudeCode.buildClaudeCodeCommand Examples.hello))
    = Failed MoreExamples.exit_code_error [] (lit "boom")) by reflexivity.
  assert (Hkilled : ~ killed_by_timeout_signal MoreExamples.exit_code_error).
  { intros [Hk _]. discriminate Hk. }
  assert (Hclass : instanceof MoreExamples.exit_code_error ClaudeCode.TimeoutError = false)
    by reflexivity.
  split; [exact Hreq|]. split; [exact Hchild|]. split; [exact Hkilled|].
  split; [exact Hclass|].
  exact (proj2 (@claude_failure_status w Examples.claude Examples.hello_request
                  Examples.hello initial MoreExamples.exit_code_error [] (lit "boom")
                  Hreq Hne Hchild) Hkilled Hclass).
Defined.

(** X18 on the default configuration. *)
Lemma routes_of_the_created_adapter_witness :
  let w := Examples.printing [] in
  type MoreExamples.default_config = lit "claude-code"
  /\ exists adapter : CLIAdapter,
      AdapterFactory.create w MoreExamples.default_config = Return adapter
      /\ Routes.health adapter = Routes.mkHealth (lit "ok") (lit "claude-code")
      /\ snd (Routes.models w adapter initial)
         = Return (Routes.mkModelList (lit "list")
                     [Routes.mkModelEntry (lit "claude-code") (lit "model")
                        (Date_now w (clock_reads initial) / 1000)%Z
                        (lit "cli-agent-openai-adapter")]).
Proof.
  intros w.
  assert (Hkind : type MoreExamples.default_config = lit "claude-code") by reflexivity.
  split; [exact Hkind|].
  exact (@routes_of_the_created_adapter w MoreExamples.default_config initial Hkind).
Defined.

(** X19 on a child that prints a progress line, then its answer. *)
Lemma claude_text_is_clean_witness :
  let out := lit "Loading..." ++ [CR] ++ lit "  Hi " ++ [LF] in
  let w := Examples.printing out in
  snd (ClaudeCode.execute w Examples.claude Examples.hello initial) = Return (lit "Hi")
  /\ (exists out' errtext,
         child_process w
           (ClaudeCode.invocation Examples.claude
              (ClaudeCode.buildClaudeCodeCommand Examples.hello))
         = Exited out' errtext
         /\ lit "Hi" = ClaudeCode.cleanOutput out'
         /\ Subsequence (lit "Hi") out')
  /\ ~ In CR (lit "Hi")
  /\ no_space_at_ends (lit "Hi") = true.
Proof.
  intros out w.
  assert (Hrun : snd (ClaudeCode.execute w Examples.claude Examples.hello initial)
                 = Return (lit "Hi")) by (vm_compute; reflexivity).
  split; [exact Hrun|].
  exact (@claude_text_is_clean w Examples.claude Examples.hello initial (lit "Hi") Hrun).
Defined.

(** X20 on a line of plain text. *)
Lemma plain_text_fallback_is_cleaned_witness :
  let stdout := lit "  plain answer" ++ [CR; LF] in
  stdout <> []
  /\ JSON_parse (trim (stripAnsi stdout))
     = Throw (new_error SyntaxError (lit "Unexpected token in JSON"))
  /\ exists text : jsstring,
      GeminiCLI.extractResponse stdout = Return (VStr text)
      /\ Subsequence text stdout
      /\ ~ In CR text
      /\ no_space_at_ends text = true.
Proof.
  intros stdout.
  assert (Hne : stdout <> []) by discriminate.
  assert (Hparse : JSON_parse (trim (stripAnsi stdout))
                   = Throw (new_error SyntaxError (lit "Unexpected token in JSON")))
    by (vm_compute; reflexivity).
  split; [exact Hne|]. split; [exact Hparse|].
  exact (@plain_text_fallback_is_cleaned stdout _ Hne Hparse).
Defined.

End MoreWitnesses.
